(** * A round of UNO: the rules engine of [src/model/round.ts]

    The round is a mutable object whose methods throw.  It is embedded as a
    record [RoundImpl] threaded through a state-and-exception monad [M] in
    which a thrown error keeps the state reached at the moment of the throw,
    so that what a failing call leaves behind can be stated. *)

From Stdlib Require Import ZArith Lia Bool.
From stdpp Require Import base option list strings.

Local Open Scope string_scope.
Local Open Scope Z_scope.
Local Open Scope list_scope.

(** ** Cards *)

(** Modelled from the spec: the colour enumeration of the card module
    ([Color], [deck.colors]) is not part of the sources at hand; the spec asks
    for "a fixed enumerable set of valid colors". *)
Inductive Color := RED | YELLOW | GREEN | BLUE.

(** Modelled from the spec: the [Card] type of the card module, one tag per
    variant, with a colour and a number only where the variant has one. *)
Inductive Card :=
| NUMBERED (color : Color) (number : Z)
| SKIP (color : Color)
| REVERSE (color : Color)
| DRAW (color : Color)
| WILD
| WILD_DRAW.

#[global] Instance Color_eq_dec : EqDecision Color.
Proof. solve_decision. Defined.

#[global] Instance Card_eq_dec : EqDecision Card.
Proof. solve_decision. Defined.

Definition colors : list Color := [RED; YELLOW; GREEN; BLUE].

(** [card.type === 'WILD' || card.type === 'WILD DRAW'] *)
Definition isWild (card : Card) : bool :=
  match card with WILD | WILD_DRAW => true | _ => false end.

(** [top.color] where ['color' in top] holds. *)
Definition colorOf (card : Card) : option Color :=
  match card with
  | NUMBERED c _ | SKIP c | REVERSE c | DRAW c => Some c
  | WILD | WILD_DRAW => None
  end.

(** Modelled from the spec: the validation done by [deck.fromMemento], which
    fails on malformed card records; a numbered card carries a digit 0-9. *)
Definition validCard (card : Card) : bool :=
  match card with
  | NUMBERED _ n => (0 <=? n) && (n <=? 9)
  | _ => true
  end.

Definition cloneCard (card : Card) : Card := card.

Definition serialize (card : Card) : Card := card.

Definition cardPoints (card : Card) : Z :=
  match card with
  | NUMBERED _ n => n
  | SKIP _ | REVERSE _ | DRAW _ => 20
  | WILD | WILD_DRAW => 50
  end.

(** Modelled from the spec: the legality predicate [canPlay] of the card
    module: a wild variant is always playable; a coloured card is playable on
    the effective colour (the enforced colour if set, else the colour of the
    top card) or on a top card of the same rank or type. *)
Definition uno_canPlay (card top : Card) (enforced : option Color) : bool :=
  match card with
  | WILD | WILD_DRAW => true
  | _ =>
    let effective := match enforced with Some c => Some c | None => colorOf top end in
    bool_decide (colorOf card = effective) ||
    match card, top with
    | NUMBERED _ n, NUMBERED _ m => n =? m
    | SKIP _, SKIP _ | REVERSE _, REVERSE _ | DRAW _, DRAW _ => true
    | _, _ => false
    end
  end.

(** ** Numbers, arrays and fallible pure code *)

(** A JavaScript number handed in as an index: an integer, or anything for
    which [Number.isInteger] is false. *)
Inductive number := Int (z : Z) | NonInt.

Definition len {A} (l : list A) : Z := Z.of_nat (length l).

(** [l[i]]: [undefined] (here [None]) outside the array. *)
Definition item {A} (l : list A) (i : Z) : option A :=
  if i <? 0 then None else l !! Z.to_nat i.

(** [l[i] = v]: JavaScript grows the array when [i] is past its end; the
    holes read as [undefined], which is [hole] here. *)
Definition assign {A} (hole : A) (l : list A) (i : Z) (v : A) : list A :=
  if i <? 0 then l
  else if i <? Z.of_nat (length l) then <[Z.to_nat i := v]> l
  else l ++ replicate (Z.to_nat i - length l)%nat hole ++ [v].


Inductive res (A : Type) :=
| ok (a : A)
| raise (msg : string).
Arguments ok {A} a.
Arguments raise {A} msg.

Definition res_bind {A B} (r : res A) (f : A -> res B) : res B :=
  match r with ok a => f a | raise msg => raise msg end.

Notation "'try' x := r 'in' k" := (res_bind r (fun x => k))
  (at level 10, x name, r at level 100, k at level 200).

Fixpoint res_map {A B} (f : A -> res B) (l : list A) : res (list B) :=
  match l with
  | [] => ok []
  | x :: l' => try y := f x in try ys := res_map f l' in ok (y :: ys)
  end.

(** The error of reading a property of [undefined]. *)
Definition TypeError : string := "TypeError".

(** [mod], on integers: the numbers of the source are doubles, which are
    the integers of the model as long as no value involved exceeds
    [Number.MAX_SAFE_INTEGER]; a round calls it with a seat and a modulus of
    at most ten. *)
Definition mod_ (value modulus : Z) : Z :=
  let result := Z.rem value modulus in
  if 0 <=? result then result else result + modulus.

Definition validatePlayers (players : list string) : res unit :=
  if len players <? 2 then raise "A round requires at least two players"
  else if 10 <? len players then raise "A round supports at most ten players"
  else ok tt.

Definition ensureIndex (index : number) (count : Z) (label : string) : res Z :=
  match index with
  | NonInt => raise (label +:+ " must be an integer")
  | Int i =>
    if (i <? 0) || (count <=? i) then raise (label +:+ " is out of bounds")
    else ok i
  end.

Inductive DirectionLabel := clockwise | counterclockwise.

Definition toDirection (label : DirectionLabel) : res Z :=
  match label with clockwise => ok 1 | counterclockwise => ok (-1) end.

(** The source puts the offending value in the message. *)
Definition ensureColorValue (value : Color) : res Color :=
  if bool_decide (value ∈ colors) then ok value
  else raise "Invalid color".

(** [deck.fromMemento] followed by dealing the validated pile out again; the
    message of the card module for a malformed record is not known. *)
Definition cloneCardsWithValidation (cards : list Card) : res (list Card) :=
  let serialized := map serialize cards in
  if forallb validCard serialized then ok serialized
  else raise "Invalid card".

(** ** The round object *)

Record PendingUno := { uno_player : Z; windowOpen : bool }.

Record RoundMemento := {
  m_players : list string;
  m_hands : list (list Card);
  m_drawPile : list Card;
  m_discardPile : list Card;
  m_currentColor : Color;
  m_currentDirection : DirectionLabel;
  m_dealer : number;
  m_playerInTurn : option number
}.

(** The argument of the constructor. *)
Record RoundState := {
  st_players : list string;
  st_dealer : Z;
  st_hands : list (list Card);
  st_drawPile : list Card;
  st_discardPile : list Card;
  st_direction : Z;
  st_currentPlayer : option Z;
  st_enforcedColor : option Color
}.

(** The fields of [RoundImpl].  An end-of-round handler is caller code: it is
    kept as an opaque identifier in [listeners] and each invocation is logged
    in [notified].  [shuffles] counts the calls the round made to its shuffler.
    [refillDrawPile] binds both pile fields to fresh arrays; the arrays they
    were bound to until then stay reachable from views handed out earlier and
    are kept in [retired], one pair per refill. *)
Record RoundImpl := mkRound {
  playerCount : Z;
  dealer : Z;
  players : list string;
  listeners : list nat;
  unoDeclared : list bool;
  hands : list (list Card);
  drawPileCards : list Card;
  discardPileCards : list Card;
  direction : Z;
  currentPlayerIndex : option Z;
  enforcedColor : option Color;
  pendingUno : option PendingUno;
  ended : bool;
  winnerIndex : option Z;
  cachedScore : option Z;
  notified : list (nat * Z);
  shuffles : nat;
  retired : list (list Card * list Card)
}.

Definition set_listeners v r :=
  mkRound (playerCount r) (dealer r) (players r) v (unoDeclared r) (hands r)
    (drawPileCards r) (discardPileCards r) (direction r) (currentPlayerIndex r)
    (enforcedColor r) (pendingUno r) (ended r) (winnerIndex r) (cachedScore r)
    (notified r) (shuffles r) (retired r).
Definition set_unoDeclared v r :=
  mkRound (playerCount r) (dealer r) (players r) (listeners r) v (hands r)
    (drawPileCards r) (discardPileCards r) (direction r) (currentPlayerIndex r)
    (enforcedColor r) (pendingUno r) (ended r) (winnerIndex r) (cachedScore r)
    (notified r) (shuffles r) (retired r).
Definition set_hands v r :=
  mkRound (playerCount r) (dealer r) (players r) (listeners r) (unoDeclared r) v
    (drawPileCards r) (discardPileCards r) (direction r) (currentPlayerIndex r)
    (enforcedColor r) (pendingUno r) (ended r) (winnerIndex r) (cachedScore r)
    (notified r) (shuffles r) (retired r).
Definition set_drawPileCards v r :=
  mkRound (playerCount r) (dealer r) (players r) (listeners r) (unoDeclared r) (hands r)
    v (discardPileCards r) (direction r) (currentPlayerIndex r)
    (enforcedColor r) (pendingUno r) (ended r) (winnerIndex r) (cachedScore r)
    (notified r) (shuffles r) (retired r).
Definition set_discardPileCards v r :=
  mkRound (playerCount r) (dealer r) (players r) (listeners r) (unoDeclared r) (hands r)
    (drawPileCards r) v (direction r) (currentPlayerIndex r)
    (enforcedColor r) (pendingUno r) (ended r) (winnerIndex r) (cachedScore r)
    (notified r) (shuffles r) (retired r).
Definition set_direction v r :=
  mkRound (playerCount r) (dealer r) (players r) (listeners r) (unoDeclared r) (hands r)
    (drawPileCards r) (discardPileCards r) v (currentPlayerIndex r)
    (enforcedColor r) (pendingUno r) (ended r) (winnerIndex r) (cachedScore r)
    (notified r) (shuffles r) (retired r).
Definition set_currentPlayerIndex v r :=
  mkRound (playerCount r) (dealer r) (players r) (listeners r) (unoDeclared r) (hands r)
    (drawPileCards r) (discardPileCards r) (direction r) v
    (enforcedColor r) (pendingUno r) (ended r) (winnerIndex r) (cachedScore r)
    (notified r) (shuffles r) (retired r).
Definition set_enforcedColor v r :=
  mkRound (playerCount r) (dealer r) (players r) (listeners r) (unoDeclared r) (hands r)
    (drawPileCards r) (discardPileCards r) (direction r) (currentPlayerIndex r)
    v (pendingUno r) (ended r) (winnerIndex r) (cachedScore r)
    (notified r) (shuffles r) (retired r).
Definition set_pendingUno v r :=
  mkRound (playerCount r) (dealer r) (players r) (listeners r) (unoDeclared r) (hands r)
    (drawPileCards r) (discardPileCards r) (direction r) (currentPlayerIndex r)
    (enforcedColor r) v (ended r) (winnerIndex r) (cachedScore r)
    (notified r) (shuffles r) (retired r).
Definition set_ended v r :=
  mkRound (playerCount r) (dealer r) (players r) (listeners r) (unoDeclared r) (hands r)
    (drawPileCards r) (discardPileCards r) (direction r) (currentPlayerIndex r)
    (enforcedColor r) (pendingUno r) v (winnerIndex r) (cachedScore r)
    (notified r) (shuffles r) (retired r).
Definition set_winnerIndex v r :=
  mkRound (playerCount r) (dealer r) (players r) (listeners r) (unoDeclared r) (hands r)
    (drawPileCards r) (discardPileCards r) (direction r) (currentPlayerIndex r)
    (enforcedColor r) (pendingUno r) (ended r) v (cachedScore r)
    (notified r) (shuffles r) (retired r).
Definition set_cachedScore v r :=
  mkRound (playerCount r) (dealer r) (players r) (listeners r) (unoDeclared r) (hands r)
    (drawPileCards r) (discardPileCards r) (direction r) (currentPlayerIndex r)
    (enforcedColor r) (pendingUno r) (ended r) (winnerIndex r) v
    (notified r) (shuffles r) (retired r).
Definition set_notified v r :=
  mkRound (playerCount r) (dealer r) (players r) (listeners r) (unoDeclared r) (hands r)
    (drawPileCards r) (discardPileCards r) (direction r) (currentPlayerIndex r)
    (enforcedColor r) (pendingUno r) (ended r) (winnerIndex r) (cachedScore r)
    v (shuffles r) (retired r).
Definition set_shuffles v r :=
  mkRound (playerCount r) (dealer r) (players r) (listeners r) (unoDeclared r) (hands r)
    (drawPileCards r) (discardPileCards r) (direction r) (currentPlayerIndex r)
    (enforcedColor r) (pendingUno r) (ended r) (winnerIndex r) (cachedScore r)
    (notified r) v (retired r).
Definition set_retired v r :=
  mkRound (playerCount r) (dealer r) (players r) (listeners r) (unoDeclared r) (hands r)
    (drawPileCards r) (discardPileCards r) (direction r) (currentPlayerIndex r)
    (enforcedColor r) (pendingUno r) (ended r) (winnerIndex r) (cachedScore r)
    (notified r) (shuffles r) v.

(** ** The monad of methods *)

Inductive outcome (A : Type) :=
| Return (a : A) (s : RoundImpl)
| Throw (msg : string) (s : RoundImpl).
Arguments Return {A} a s.
Arguments Throw {A} msg s.

Definition M (A : Type) : Type := RoundImpl -> outcome A.

Definition ret {A} (a : A) : M A := fun s => Return a s.
Definition bind {A B} (m : M A) (f : A -> M B) : M B :=
  fun s => match m s with
           | Return a s' => f a s'
           | Throw msg s' => Throw msg s'
           end.
Definition throw {A} (msg : string) : M A := fun s => Throw msg s.
Definition gets {A} (f : RoundImpl -> A) : M A := fun s => Return (f s) s.
Definition modify (f : RoundImpl -> RoundImpl) : M unit := fun s => Return tt (f s).
Definition lift {A} (r : res A) : M A :=
  fun s => match r with ok a => Return a s | raise msg => Throw msg s end.
Definition defined {A} (o : option A) : M A :=
  match o with Some a => ret a | None => throw TypeError end.

Notation "'let*' x := m 'in' k" := (bind m (fun x => k))
  (at level 10, x name, m at level 100, k at level 200).
Notation "m ';;;' k" := (bind m (fun _ => k))
  (at level 100, k at level 200, right associativity).

Definition state_of {A} (o : outcome A) : RoundImpl :=
  match o with Return _ s => s | Throw _ s => s end.

Definition returned {A} (o : outcome A) : bool :=
  match o with Return _ _ => true | Throw _ _ => false end.

(** ** Construction *)

(** [hands.reduce((acc, hand, index) => { if (hand.length === 0) acc.push(index); return acc }, [])],
    from position [index] on. *)
Fixpoint winnersFrom (index : Z) (hands : list (list Card)) : list Z :=
  match hands with
  | [] => []
  | hand :: rest =>
    if len hand =? 0 then index :: winnersFrom (index + 1) rest
    else winnersFrom (index + 1) rest
  end.

(** The constructor; [calls] is the number of calls made to the shuffler
    before the round exists (the deals tried by [createRound]). *)
Definition new_RoundImpl (calls : nat) (state : RoundState) : res RoundImpl :=
  let this :=
    mkRound (len (st_players state)) (st_dealer state) (st_players state) []
      (replicate (length (st_players state)) false) (st_hands state)
      (st_drawPile state) (st_discardPile state) (st_direction state)
      (st_currentPlayer state) (st_enforcedColor state) None false None None
      [] calls [] in
  if len (discardPileCards this) =? 0 then raise "Discard pile cannot be empty"
  else
    let winners := winnersFrom 0 (hands this) in
    if 1 <? len winners then raise "Round cannot be initialised with multiple winners"
    else match winners with
         | [w] => ok (set_currentPlayerIndex None (set_winnerIndex (Some w) (set_ended true this)))
         | _ =>
           match currentPlayerIndex this with
           | None => raise "playerInTurn must be defined for an unfinished round"
           | Some _ => ok this
           end
         end.

Definition createRoundFromMemento (memento : RoundMemento) : res RoundImpl :=
  let players := m_players memento in
  try _ := validatePlayers players in
  try dealer := ensureIndex (m_dealer memento) (len players) "dealer" in
  try direction := toDirection (m_currentDirection memento) in
  try normalizedColor := ensureColorValue (m_currentColor memento) in
  if negb (len (m_hands memento) =? len players)
  then raise "Hands count must equal players count"
  else
    try hands := res_map cloneCardsWithValidation (m_hands memento) in
    try drawPile := cloneCardsWithValidation (m_drawPile memento) in
    try discardPile := cloneCardsWithValidation (m_discardPile memento) in
    if len discardPile =? 0 then raise "Discard pile cannot be empty"
    else
      let winners := winnersFrom 0 hands in
      if 1 <? len winners then raise "Round memento cannot contain multiple winners"
      else
        let finished := len winners =? 1 in
        try currentPlayer :=
          (if finished then ok None
           else match m_playerInTurn memento with
                | None => raise "playerInTurn is required for unfinished rounds"
                | Some p =>
                  try i := ensureIndex p (len players) "playerInTurn" in ok (Some i)
                end) in
        match last discardPile with
        | None => raise TypeError
        | Some top =>
          try enforcedColor :=
            (if isWild top then ok (Some normalizedColor)
             else if bool_decide (colorOf top = Some normalizedColor) then ok None
             else raise "currentColor must match the color of the top discard") in
          new_RoundImpl 0
            {| st_players := players; st_dealer := dealer; st_hands := hands;
               st_drawPile := drawPile; st_discardPile := discardPile;
               st_direction := direction; st_currentPlayer := currentPlayer;
               st_enforcedColor := enforcedColor |}
        end.

(** ** Methods of the round *)

Section Engine.

(** [canPlay] of the card module, and the injected shuffler: its [n]-th
    call turns the array it is given into [shuffler n cards]. *)
Variable canPlay : Card -> Card -> option Color -> bool.
Variable shuffler : nat -> list Card -> list Card.

Definition ensureActiveRound : M unit :=
  let* e := gets ended in
  if e then throw "Round has finished" else ret tt.

Definition ensurePlayerIndex (index : number) : M Z :=
  let* n := gets playerCount in
  lift (ensureIndex index n "player").

(** [this.hands[player]], about to be read or written through. *)
Definition handOf (player : Z) : M (list Card) :=
  let* hs := gets hands in defined (item hs player).

Definition setHand (player : Z) (hand : list Card) : M unit :=
  modify (fun s => set_hands (<[Z.to_nat player := hand]> (hands s)) s).

Definition ensureCardIndex (player cardIndex : Z) : M unit :=
  let* hand := handOf player in
  if (cardIndex <? 0) || (len hand <=? cardIndex)
  then throw "Card index out of bounds" else ret tt.

Definition ensureCurrentPlayer : M Z :=
  let* c := gets currentPlayerIndex in
  match c with
  | None => throw "No player currently in turn"
  | Some current => ret current
  end.

(** [topCard()] as its callers use it: they hand the result to the card
    module or read its colour, neither of which takes [undefined]. *)
Definition topCard : M Card :=
  let* pile := gets discardPileCards in defined (last pile).

Definition currentColor : M Color :=
  let* enforced := gets enforcedColor in
  match enforced with
  | Some c => ret c
  | None =>
    let* top := topCard in
    match colorOf top with
    | Some c => ret c
    | None => throw "Current color is undefined"
    end
  end.

Definition markActionBy (player : Z) : M unit :=
  modify (fun s =>
    match pendingUno s with
    | Some p =>
      if negb (uno_player p =? player)
      then set_pendingUno (Some {| uno_player := uno_player p; windowOpen := false |}) s
      else s
    | None => s
    end).

(** [if (this.pendingUno && this.pendingUno.player === player) this.pendingUno = undefined] *)
Definition clearPendingOf (player : Z) : M unit :=
  modify (fun s =>
    match pendingUno s with
    | Some p => if uno_player p =? player then set_pendingUno None s else s
    | None => s
    end).

Definition declared (s : RoundImpl) (player : Z) : bool :=
  default false (item (unoDeclared s) player).

Definition setDeclared (player : Z) (v : bool) : M unit :=
  modify (fun s => set_unoDeclared (assign false (unoDeclared s) player v) s).

Definition updateUnoStateFor (player : Z) : M unit :=
  let* hand := handOf player in
  let handSize := len hand in
  (if handSize =? 1 then
     let* d := gets (fun s => declared s player) in
     if negb d
     then modify (set_pendingUno (Some {| uno_player := player; windowOpen := true |}))
     else clearPendingOf player
   else
     setDeclared player false;;;
     clearPendingOf player);;;
  let* pending := gets pendingUno in
  match pending with
  | Some p =>
    let* h := handOf (uno_player p) in
    if negb (len h =? 1) then modify (set_pendingUno None) else ret tt
  | None => ret tt
  end.

Definition refillDrawPile : M unit :=
  let* pile := gets drawPileCards in
  if 0 <? len pile then ret tt
  else
    let* discard := gets discardPileCards in
    if len discard <=? 1 then throw "Cannot replenish draw pile"
    else
      let* top := defined (last discard) in
      let rest := map cloneCard (take (length discard - 1) discard) in
      modify (fun s =>
        set_shuffles (S (shuffles s))
          (set_discardPileCards [top]
            (set_drawPileCards (shuffler (shuffles s) rest)
              (set_retired (retired s ++ [(pile, discard)]) s)))).

Definition takeFromDrawPile : M Card :=
  let* pile := gets drawPileCards in
  (if len pile =? 0 then refillDrawPile else ret tt);;;
  let* pile := gets drawPileCards in
  match pile with
  | [] => throw "No cards available to draw"
  | card :: rest => modify (set_drawPileCards rest);;; ret card
  end.

(** The loop of [drawCardsForPlayer]: [hand.push(this.takeFromDrawPile())],
    [count] times. *)
Fixpoint drawCards (count : nat) (player : Z) : M unit :=
  match count with
  | O => ret tt
  | S count' =>
    handOf player;;;
    let* card := takeFromDrawPile in
    let* hand := handOf player in
    setHand player (hand ++ [card]);;;
    drawCards count' player
  end.

Definition drawCardsForPlayer (player count : Z) : M unit :=
  drawCards (Z.to_nat count) player.

Definition applyPenalty (player cards : Z) : M unit :=
  drawCardsForPlayer player cards;;;
  updateUnoStateFor player.

Definition advance (steps : Z) : M unit :=
  let* c := gets currentPlayerIndex in
  match c with
  | None => ret tt
  | Some current =>
    modify (fun s =>
      set_currentPlayerIndex
        (Some (mod_ (current + steps * direction s) (playerCount s))) s)
  end.

Definition nextIndexFromCurrent (offset : Z) : M Z :=
  let* current := ensureCurrentPlayer in
  gets (fun s => mod_ (current + offset * direction s) (playerCount s)).

Definition handPoints (hand : list Card) : Z :=
  fold_left (fun subtotal card => subtotal + cardPoints card) hand 0.

(** [this.hands.reduce((total, hand, index) => ...)] from position [index] on. *)
Fixpoint scoreFrom (winner index total : Z) (hands : list (list Card)) : Z :=
  match hands with
  | [] => total
  | hand :: rest =>
    scoreFrom winner (index + 1)
      (if index =? winner then total else total + handPoints hand) rest
  end.

Definition computeScore (winner : Z) (s : RoundImpl) : Z :=
  scoreFrom winner 0 0 (hands s).

Definition finishRound (winner : Z) : M unit :=
  let* e := gets ended in
  if e then ret tt
  else
    modify (set_ended true);;;
    modify (set_winnerIndex (Some winner));;;
    modify (set_currentPlayerIndex None);;;
    let* score := gets (computeScore winner) in
    modify (set_cachedScore (Some score));;;
    modify (fun s =>
      set_notified (notified s ++ map (fun l => (l, winner)) (listeners s)) s).

(** The method [canPlay(cardIndex)]. *)
Definition canPlayIndex (cardIndex : Z) : M bool :=
  let* e := gets ended in
  if e then ret false
  else
    let* c := gets currentPlayerIndex in
    match c with
    | None => ret false
    | Some current =>
      let* hand := handOf current in
      if (cardIndex <? 0) || (len hand <=? cardIndex) then ret false
      else
        let* card := defined (item hand cardIndex) in
        let* top := topCard in
        let* enforced := gets enforcedColor in
        ret (canPlay card top enforced)
    end.

Definition canPlayAny : M bool :=
  let* e := gets ended in
  if e then ret false
  else
    let* c := gets currentPlayerIndex in
    match c with
    | None => ret false
    | Some current =>
      let* hand := handOf current in
      match hand with
      | [] => ret false
      | _ =>
        let* top := topCard in
        let* enforced := gets enforcedColor in
        ret (existsb (fun card => canPlay card top enforced) hand)
      end
    end.

(** The colour step of [play], after the card went to the discard pile. *)
Definition playColor (card : Card) (color : option Color) : M unit :=
  if isWild card then
    match color with
    | None => throw "Color must be specified when playing a wild card"
    | Some c =>
      let* c' := lift (ensureColorValue c) in
      modify (set_enforcedColor (Some c'))
    end
  else
    match color with
    | Some _ => throw "Color can only be provided for wild cards"
    | None => modify (set_enforcedColor None)
    end.

(** The [switch] of [play]: the effect of the card, giving [advanceSteps]. *)
Definition playEffect (card : Card) : M Z :=
  match card with
  | SKIP _ => ret 2
  | REVERSE _ =>
    let* n := gets playerCount in
    if n =? 2 then
      modify (fun s => set_direction (direction s * -1) s);;; ret 2
    else
      modify (fun s => set_direction (direction s * -1) s);;; ret 1
  | DRAW _ =>
    let* victim := nextIndexFromCurrent 1 in
    applyPenalty victim 2;;;
    markActionBy victim;;;
    ret 2
  | WILD => ret 1
  | WILD_DRAW =>
    let* victim := nextIndexFromCurrent 1 in
    applyPenalty victim 4;;;
    markActionBy victim;;;
    ret 2
  | NUMBERED _ _ => ret 1
  end.

Definition play (cardIndex : Z) (color : option Color) : M Card :=
  ensureActiveRound;;;
  let* current := ensureCurrentPlayer in
  ensureCardIndex current cardIndex;;;
  markActionBy current;;;
  let* hand := handOf current in
  let* card := defined (item hand cardIndex) in
  let* playable := canPlayIndex cardIndex in
  if negb playable then throw "Card cannot be played"
  else
    setHand current (delete (Z.to_nat cardIndex) hand);;;
    modify (fun s => set_discardPileCards (discardPileCards s ++ [card]) s);;;
    playColor card color;;;
    let* advanceSteps := playEffect card in
    updateUnoStateFor current;;;
    let* hand' := handOf current in
    if len hand' =? 0 then
      modify (set_pendingUno None);;;
      finishRound current;;;
      ret card
    else
      let* e := gets ended in
      (if negb e then advance advanceSteps else ret tt);;;
      ret card.

Definition draw : M Card :=
  ensureActiveRound;;;
  let* current := ensureCurrentPlayer in
  markActionBy current;;;
  let* card := takeFromDrawPile in
  let* hand := handOf current in
  setHand current (hand ++ [card]);;;
  updateUnoStateFor current;;;
  let* top := topCard in
  let* enforced := gets enforcedColor in
  (if negb (canPlay card top enforced) then advance 1 else ret tt);;;
  ret card.

Definition catchUnoFailure (accuser accused : number) : M bool :=
  ensurePlayerIndex accuser;;;
  let* accused := ensurePlayerIndex accused in
  let* pending := gets pendingUno in
  match pending with
  | None => ret false
  | Some p =>
    if negb (uno_player p =? accused) then ret false
    else if negb (windowOpen p) then ret false
    else
      let* d := gets (fun s => declared s accused) in
      if d then ret false
      else
        let* hand := handOf accused in
        if negb (len hand =? 1) then ret false
        else
          modify (set_pendingUno None);;;
          applyPenalty accused 4;;;
          setDeclared accused false;;;
          ret true
  end.

Definition sayUno (playerIndex : number) : M unit :=
  let* playerIndex := ensurePlayerIndex playerIndex in
  let* e := gets ended in
  if e then throw "Round has finished"
  else
    let* hand := handOf playerIndex in
    if 2 <? len hand then throw "UNO can only be declared with two or fewer cards"
    else
      setDeclared playerIndex true;;;
      clearPendingOf playerIndex.

Definition hasEnded : M bool := gets ended.

Definition winner : M (option Z) := gets winnerIndex.

Definition playerInTurn : M (option Z) := gets currentPlayerIndex.

Definition player (index : number) : M (option string) :=
  let* i := ensurePlayerIndex index in
  gets (fun s => item (players s) i).

Definition playerHand (index : number) : M (option (list Card)) :=
  let* i := ensurePlayerIndex index in
  gets (fun s => item (hands s) i).

Definition score : M (option Z) :=
  let* e := gets ended in
  if negb e then ret None
  else
    let* w := gets winnerIndex in
    match w with
    | None => ret None
    | Some w =>
      let* cached := gets cachedScore in
      (match cached with
       | None =>
         let* v := gets (computeScore w) in modify (set_cachedScore (Some v))
       | Some _ => ret tt
       end);;;
      gets cachedScore
    end.

Definition onEnd (handler : nat) : M unit :=
  let* e := gets ended in
  let* w := gets winnerIndex in
  match e, w with
  | true, Some w => modify (fun s => set_notified (notified s ++ [(handler, w)]) s)
  | _, _ => modify (fun s => set_listeners (listeners s ++ [handler]) s)
  end.

Definition toMemento : M RoundMemento :=
  let* s := gets id in
  let* color := currentColor in
  ret {| m_players := players s;
         m_hands := map (map cloneCard) (hands s);
         m_drawPile := map cloneCard (drawPileCards s);
         m_discardPile := map cloneCard (discardPileCards s);
         m_currentColor := color;
         m_currentDirection := if direction s =? 1 then clockwise else counterclockwise;
         m_dealer := Int (dealer s);
         m_playerInTurn := if ended s then None else Int <$> currentPlayerIndex s |}.

End Engine.

(** ** Pile views

    A view is constructed on the array a pile field is bound to at that
    moment, and reads and writes that very array.  An array is named by the
    field and by the number of refills that preceded its binding. *)

Inductive PileField := DrawField | DiscardField.

Record ArrayRef := { ref_field : PileField; ref_binding : nat }.

Definition fieldCards (f : PileField) (s : RoundImpl) : list Card :=
  match f with
  | DrawField => drawPileCards s
  | DiscardField => discardPileCards s
  end.

Definition readArray (a : ArrayRef) (s : RoundImpl) : list Card :=
  if decide (ref_binding a = length (retired s)) then fieldCards (ref_field a) s
  else match retired s !! ref_binding a with
       | Some (d, c) => match ref_field a with DrawField => d | DiscardField => c end
       | None => []
       end.

Definition writeArray (a : ArrayRef) (cards : list Card) (s : RoundImpl) : RoundImpl :=
  if decide (ref_binding a = length (retired s)) then
    match ref_field a with
    | DrawField => set_drawPileCards cards s
    | DiscardField => set_discardPileCards cards s
    end
  else
    set_retired
      (alter (fun old => match ref_field a with
                         | DrawField => (cards, old.2)
                         | DiscardField => (old.1, cards)
                         end) (ref_binding a) (retired s)) s.

(** [drawPile()] and [discardPile()] *)
Definition drawPile : M ArrayRef :=
  gets (fun s => {| ref_field := DrawField; ref_binding := length (retired s) |}).

Definition discardPile : M ArrayRef :=
  gets (fun s => {| ref_field := DiscardField; ref_binding := length (retired s) |}).

Module DrawPileView.
Definition size (pile : ArrayRef) : M Z := gets (fun s => len (readArray pile s)).

Definition deal (pile : ArrayRef) : M (option Card) :=
  let* cards := gets (readArray pile) in
  match cards with
  | [] => ret None
  | card :: rest => modify (writeArray pile rest);;; ret (Some card)
  end.

Definition shuffle (pile : ArrayRef) (shuffler : list Card -> list Card) : M unit :=
  modify (fun s => writeArray pile (shuffler (readArray pile s)) s).

Definition filter (pile : ArrayRef) (pred : Card -> bool) : M (list Card) :=
  let* cards := gets (readArray pile) in
  lift (cloneCardsWithValidation (List.filter pred cards)).

Definition toMemento (pile : ArrayRef) : M (list Card) :=
  gets (fun s => map serialize (readArray pile s)).

Definition peek (pile : ArrayRef) : M (option Card) :=
  gets (fun s => head (readArray pile s)).
End DrawPileView.

Module DiscardPileView.
Definition size (pile : ArrayRef) : M Z := gets (fun s => len (readArray pile s)).

Definition deal (pile : ArrayRef) : M (option Card) :=
  let* cards := gets (readArray pile) in
  match cards with
  | [] => ret None
  | card :: rest => modify (writeArray pile rest);;; ret (Some card)
  end.

Definition shuffle (pile : ArrayRef) (shuffler : list Card -> list Card) : M unit :=
  modify (fun s => writeArray pile (shuffler (readArray pile s)) s).

Definition filter (pile : ArrayRef) (pred : Card -> bool) : M (list Card) :=
  let* cards := gets (readArray pile) in
  lift (cloneCardsWithValidation (List.filter pred cards)).

Definition toMemento (pile : ArrayRef) : M (list Card) :=
  gets (fun s => map serialize (readArray pile s)).

Definition top (pile : ArrayRef) : M (option Card) :=
  gets (fun s => last (readArray pile s)).
End DiscardPileView.

(** ** The initial deal *)

Record RoundConfig := {
  cfg_players : list string;
  cfg_dealer : number;
  cfg_cardsPerPlayer : option Z
}.

Record InitialState := {
  init_hands : list (list Card);
  init_drawPile : list Card;
  init_discardPile : list Card;
  init_currentPlayer : Z;
  init_direction : Z;
  init_enforcedColor : option Color
}.

(** One pass of the inner loop of the deal: a card to each player in turn. *)
Fixpoint dealRow (hands : list (list Card)) (cards : list Card)
  : res (list (list Card) * list Card) :=
  match hands with
  | [] => ok ([], cards)
  | hand :: rest =>
    match cards with
    | [] => raise "Deck exhausted while dealing"
    | card :: cards' =>
      try r := dealRow rest cards' in ok ((hand ++ [card]) :: r.1, r.2)
    end
  end.

Fixpoint dealRows (count : nat) (hands : list (list Card)) (cards : list Card)
  : res (list (list Card) * list Card) :=
  match count with
  | O => ok (hands, cards)
  | S count' => try r := dealRow hands cards in dealRows count' r.1 r.2
  end.

Fixpoint drawIntoHand (hand source : list Card) (count : nat) {struct count}
  : res (list Card * list Card) :=
  match count with
  | O => ok (hand, source)
  | S count' =>
    match source with
    | [] => raise "Deck exhausted while resolving draw effect"
    | next :: source' => drawIntoHand (hand ++ [next]) source' count'
    end
  end.

Section Deal.

Variable shuffler : nat -> list Card -> list Card.

(** [deck.createInitialDeck()], dealt out in order. *)
Variable createInitialDeck : list Card.

(** The [while (true)] of [buildInitialState], run for at most [fuel]
    deals; [None] when none of them produced a starting card.  [calls] is
    the number of calls made to the shuffler so far; the result carries the
    number after the deal that succeeded. *)
Fixpoint buildInitialState (fuel calls : nat) (players : list string)
    (dealer cardsPerPlayer : Z) : option (res (InitialState * nat)) :=
  match fuel with
  | O => None
  | S fuel' =>
    let cards := shuffler calls createInitialDeck in
    let hands := map (fun _ => []) players in
    match dealRows (Z.to_nat cardsPerPlayer) hands cards with
    | raise msg => Some (raise msg)
    | ok (hands, cards) =>
      match cards with
      | [] => Some (raise "Deck exhausted before drawing discard card")
      | firstDiscard :: cards =>
        if isWild firstDiscard
        then buildInitialState fuel' (S calls) players dealer cardsPerPlayer
        else
          let discardPile := [firstDiscard] in
          let currentPlayer := mod_ (dealer + 1) (len players) in
          Some
            (match firstDiscard with
             | SKIP _ =>
               ok ({| init_hands := hands; init_drawPile := cards;
                      init_discardPile := discardPile;
                      init_currentPlayer := mod_ (dealer + 2) (len players);
                      init_direction := 1; init_enforcedColor := None |}, S calls)
             | REVERSE _ =>
               ok ({| init_hands := hands; init_drawPile := cards;
                      init_discardPile := discardPile;
                      init_currentPlayer :=
                        if len players =? 2 then dealer
                        else mod_ (dealer - 1) (len players);
                      init_direction := -1; init_enforcedColor := None |}, S calls)
             | DRAW _ =>
               let victim := currentPlayer in
               match item hands victim with
               | None => raise TypeError
               | Some hand =>
                 try r := drawIntoHand hand cards 2 in
                 ok ({| init_hands := <[Z.to_nat victim := r.1]> hands;
                        init_drawPile := r.2;
                        init_discardPile := discardPile;
                        init_currentPlayer := mod_ (dealer + 2) (len players);
                        init_direction := 1; init_enforcedColor := None |}, S calls)
               end
             | _ =>
               ok ({| init_hands := hands; init_drawPile := cards;
                      init_discardPile := discardPile;
                      init_currentPlayer := currentPlayer;
                      init_direction := 1; init_enforcedColor := None |}, S calls)
             end)
      end
    end
  end.

Definition createRound (fuel : nat) (config : RoundConfig) : option (res RoundImpl) :=
  let players := cfg_players config in
  match validatePlayers players with
  | raise msg => Some (raise msg)
  | ok _ =>
    let cardsPerPlayer := default 7 (cfg_cardsPerPlayer config) in
    if cardsPerPlayer <=? 0 then Some (raise "cardsPerPlayer must be positive")
    else
      match ensureIndex (cfg_dealer config) (len players) "dealer" with
      | raise msg => Some (raise msg)
      | ok dealer =>
        match buildInitialState fuel 0 players dealer cardsPerPlayer with
        | None => None
        | Some (raise msg) => Some (raise msg)
        | Some (ok (setup, calls)) =>
          Some (new_RoundImpl calls
            {| st_players := players; st_dealer := dealer;
               st_hands := init_hands setup; st_drawPile := init_drawPile setup;
               st_discardPile := init_discardPile setup;
               st_direction := init_direction setup;
               st_currentPlayer := Some (init_currentPlayer setup);
               st_enforcedColor := init_enforcedColor setup |})
        end
      end
  end.

End Deal.

(** * Specification vocabulary *)

(** [keeps f m]: whatever the outcome of [m], it leaves [f] of the state as
    it was. *)
Definition keeps {X A} (f : RoundImpl -> X) (m : M A) : Prop :=
  forall s, f (state_of (m s)) = f s.

(** The part of the state that only [play], [draw]'s turn advance, [score]
    and [onEnd] write. *)
Definition turn_of (s : RoundImpl) :=
  (playerCount s, dealer s, players s, listeners s, direction s,
   currentPlayerIndex s, enforcedColor s, ended s, winnerIndex s,
   cachedScore s, notified s).

(** The cards of the round, and where they lie. *)
Definition cards_of (s : RoundImpl) :=
  (hands s, drawPileCards s, discardPileCards s, shuffles s, retired s).

(** The pile [takeFromDrawPile] takes its card from: the draw pile, or, when
    that is empty, the shuffled discard pile without its top. *)
Definition drawSource (shuffler : nat -> list Card -> list Card) (s : RoundImpl) : list Card :=
  match drawPileCards s with
  | [] => shuffler (shuffles s)
            (take (length (discardPileCards s) - 1) (discardPileCards s))
  | pile => pile
  end.

(** A call of a public operation that can change the round. *)
Inductive Call :=
| Play (cardIndex : Z) (color : option Color)
| Draw
| SayUno (playerIndex : number)
| CatchUnoFailure (accuser accused : number)
| Score
| OnEnd (handler : nat).

Definition forget {A} (o : outcome A) : outcome unit :=
  match o with
  | Return _ s => Return tt s
  | Throw msg s => Throw msg s
  end.

Section Reachability.

Variable canPlay : Card -> Card -> option Color -> bool.
Variable shuffler : nat -> list Card -> list Card.
Variable createInitialDeck : list Card.

Definition perform (c : Call) (s : RoundImpl) : outcome unit :=
  match c with
  | Play cardIndex color => forget (play canPlay shuffler cardIndex color s)
  | Draw => forget (draw canPlay shuffler s)
  | SayUno playerIndex => forget (sayUno playerIndex s)
  | CatchUnoFailure accuser accused => forget (catchUnoFailure shuffler accuser accused s)
  | Score => forget (score s)
  | OnEnd handler => forget (onEnd handler s)
  end.

(** Rounds built by [createRound] or [createRoundFromMemento] and then
    driven by calls that return. *)
Inductive reachable : RoundImpl -> Prop :=
| reachable_memento memento s :
    createRoundFromMemento memento = ok s -> reachable s
| reachable_create fuel config s :
    createRound shuffler createInitialDeck fuel config = Some (ok s) -> reachable s
| reachable_call s c s' :
    reachable s -> perform c s = Return tt s' -> reachable s'.

(** The same, but a call may also throw and the caller carry on with the
    round as the throw left it. *)
Inductive reachable_any : RoundImpl -> Prop :=
| any_memento memento s :
    createRoundFromMemento memento = ok s -> reachable_any s
| any_create fuel config s :
    createRound shuffler createInitialDeck fuel config = Some (ok s) -> reachable_any s
| any_call s c :
    reachable_any s -> reachable_any (state_of (perform c s)).

End Reachability.

(** The shape of a round: the counts and bounds every method keeps. *)
Record Shaped (s : RoundImpl) : Prop := {
  shaped_count : playerCount s = len (players s);
  shaped_players : 2 <= playerCount s <= 10;
  shaped_hands : len (hands s) = playerCount s;
  shaped_declared : len (unoDeclared s) = playerCount s;
  shaped_dealer : 0 <= dealer s < playerCount s;
  shaped_direction : direction s = 1 \/ direction s = -1
}.

(** The enforced colour is set exactly when the top of the discard pile is a
    wild card. *)
Definition colorConsistent (s : RoundImpl) : Prop :=
  match last (discardPileCards s) with
  | Some top => if isWild top then is_Some (enforcedColor s) else enforcedColor s = None
  | None => False
  end.

(** Active: someone is in turn and no hand is empty.  Ended: nobody is in
    turn, no accusation is pending and the winner's hand is the empty one. *)
Definition turnConsistent (s : RoundImpl) : Prop :=
  if ended s then
    currentPlayerIndex s = None /\ pendingUno s = None /\
    exists w, winnerIndex s = Some w /\ winnersFrom 0 (hands s) = [w]
  else
    (exists c, currentPlayerIndex s = Some c /\ 0 <= c < playerCount s) /\
    winnersFrom 0 (hands s) = [] /\ winnerIndex s = None.

Record Inv (s : RoundImpl) : Prop := {
  inv_shaped : Shaped s;
  inv_color : colorConsistent s;
  inv_turn : turnConsistent s
}.

Definition validCards (s : RoundImpl) : Prop :=
  Forall (Forall (fun c => validCard c = true)) (hands s) /\
  Forall (fun c => validCard c = true) (drawPileCards s) /\
  Forall (fun c => validCard c = true) (discardPileCards s).

(** The colour in effect, when [currentColor()] returns one. *)
Definition effectiveColor (s : RoundImpl) : option Color :=
  match currentColor s with
  | Return c _ => Some c
  | Throw _ _ => None
  end.

(** What a caller can read off a round through its queries. *)
Definition observe (s : RoundImpl) :=
  (playerCount s, dealer s, players s, hands s, drawPileCards s,
   discardPileCards s, currentPlayerIndex s, effectiveColor s, direction s,
   ended s, winnerIndex s).

(** The state the spec lists as observable for atomicity. *)
Definition observable (s : RoundImpl) :=
  (hands s, drawPileCards s, discardPileCards s, currentPlayerIndex s,
   direction s, enforcedColor s, pendingUno s, unoDeclared s).

(** The number of steps [play] advances the turn by, and the direction it
    leaves, per card. *)
Definition stepsOf (card : Card) (playerCount : Z) : Z :=
  match card with
  | NUMBERED _ _ | WILD => 1
  | SKIP _ | DRAW _ | WILD_DRAW => 2
  | REVERSE _ => if playerCount =? 2 then 2 else 1
  end.

Definition directionAfter (card : Card) (direction : Z) : Z :=
  match card with
  | REVERSE _ => - direction
  | _ => direction
  end.

(** What [markActionBy] leaves of the state. *)
Definition marked (player : Z) (s : RoundImpl) : RoundImpl :=
  state_of (markActionBy player s).

(** The cards [takeFromDrawPile] can still hand out: the draw pile, and the
    discard pile but for its top. *)
Definition available (s : RoundImpl) : nat :=
  (length (drawPileCards s) + (length (discardPileCards s) - 1))%nat.

(** The conditions of a successful accusation: a window is pending, it is
    the accused's, it is open, the accused has not declared and holds exactly
    one card. *)
Definition catchable (s : RoundImpl) (accused : Z) : bool :=
  match pendingUno s with
  | Some p =>
    (uno_player p =? accused) && windowOpen p && negb (declared s accused) &&
    match item (hands s) accused with
    | Some hand => len hand =? 1
    | None => false
    end
  | None => false
  end.

(** The error [ensurePlayerIndex] reports for an index, if any. *)
Definition indexError (index : number) (count : Z) : option string :=
  match ensureIndex index count "player" with
  | ok _ => None
  | raise msg => Some msg
  end.

Definition handCount (s : RoundImpl) : nat := length (hands s).

(** No hand is empty, except perhaps the one at [c]. *)
Definition nonempty_except (c : option nat) (hs : list (list Card)) : Prop :=
  forall (i : nat) h, hs !! i = Some h -> Some i <> c -> h <> [].

(** What [Shaped] depends on. *)
Definition shape_of (s : RoundImpl) :=
  (playerCount s, players s, dealer s, direction s, handCount s,
   length (unoDeclared s)).

(** What [Inv] depends on. *)
Definition inv_of (s : RoundImpl) :=
  (shape_of s, discardPileCards s, enforcedColor s, ended s,
   currentPlayerIndex s, pendingUno s, winnerIndex s, hands s).

(** Either the round is running, or no accusation is pending. *)
Definition settled (s : RoundImpl) : Prop :=
  ended s = false \/ pendingUno s = None.

(** ** Sample rounds *)

Definition identityShuffler (n : nat) (cards : list Card) : list Card := cards.

Definition sampleMemento : RoundMemento :=
  {| m_players := ["ann"; "bob"];
     m_hands := [[WILD; NUMBERED RED 1]; [NUMBERED BLUE 2; NUMBERED BLUE 3]];
     m_drawPile := [];
     m_discardPile := [NUMBERED RED 5];
     m_currentColor := RED;
     m_currentDirection := clockwise;
     m_dealer := Int 0;
     m_playerInTurn := Some (Int 0) |}.

Definition sampleRound : RoundImpl :=
  mkRound 2 0 ["ann"; "bob"] [] [false; false]
    [[WILD; NUMBERED RED 1]; [NUMBERED BLUE 2; NUMBERED BLUE 3]]
    [] [NUMBERED RED 5] 1 (Some 0) None None false None None [] 0 [].

(** The same round with cards left to draw. *)
Definition stockedRound : RoundImpl :=
  set_drawPileCards
    [NUMBERED GREEN 7; SKIP RED; NUMBERED YELLOW 0; DRAW BLUE; NUMBERED GREEN 4] sampleRound.

(** A memento of a finished round that still names a player in turn. *)
Definition endedMemento : RoundMemento :=
  {| m_players := ["ann"; "bob"];
     m_hands := [[]; [NUMBERED BLUE 2; NUMBERED BLUE 3]];
     m_drawPile := [NUMBERED GREEN 7];
     m_discardPile := [NUMBERED RED 5; NUMBERED RED 1];
     m_currentColor := RED;
     m_currentDirection := clockwise;
     m_dealer := Int 0;
     m_playerInTurn := Some (Int 1) |}.

Definition without_playerInTurn (m : RoundMemento) : RoundMemento :=
  {| m_players := m_players m; m_hands := m_hands m; m_drawPile := m_drawPile m;
     m_discardPile := m_discardPile m; m_currentColor := m_currentColor m;
     m_currentDirection := m_currentDirection m; m_dealer := m_dealer m;
     m_playerInTurn := None |}.

(** The sample round after its first player played the red one, and the
    stocked round after its first player drew. *)
Definition afterRedOne : RoundImpl :=
  state_of (play uno_canPlay identityShuffler 1 None sampleRound).

Definition afterDraw : RoundImpl :=
  state_of (draw uno_canPlay identityShuffler stockedRound).

(** The sample round after the red one was played, with cards to draw: the
    first player holds one card and has not declared. *)
Definition accusableRound : RoundImpl :=
  set_drawPileCards
    [NUMBERED GREEN 7; SKIP RED; NUMBERED YELLOW 0; DRAW BLUE; NUMBERED GREEN 4] afterRedOne.

(** The round built from [endedMemento]. *)
Definition endedRound : RoundImpl :=
  mkRound 2 0 ["ann"; "bob"] [] [false; false]
    [[]; [NUMBERED BLUE 2; NUMBERED BLUE 3]]
    [NUMBERED GREEN 7] [NUMBERED RED 5; NUMBERED RED 1] 1 None None None true
    (Some 0) None [] 0 [].

(** ** Further vocabulary *)

(** All the cards of a round: in the hands, on the draw pile and on the
    discard pile. *)
Definition allCards (s : RoundImpl) : list Card :=
  concat (hands s) ++ drawPileCards s ++ discardPileCards s.

(** The cards the opening card makes the first player's neighbour draw. *)
Definition openingPenalty (first : Card) : nat :=
  match first with DRAW _ => 2%nat | _ => 0%nat end.

(** Who starts, and in which direction, given the opening card. *)
Definition openingPlayer (first : Card) (dealer count : Z) : Z :=
  match first with
  | SKIP _ | DRAW _ => (dealer + 2) mod count
  | REVERSE _ => if count =? 2 then dealer else (dealer - 1) mod count
  | _ => (dealer + 1) mod count
  end.

Definition openingDirection (first : Card) : Z :=
  match first with REVERSE _ => -1 | _ => 1 end.

(** A small deck and a configuration for it. *)
Definition smallDeck : list Card :=
  [NUMBERED RED 1; NUMBERED RED 2; NUMBERED BLUE 3; NUMBERED BLUE 4;
   DRAW GREEN; SKIP RED; NUMBERED RED 7; WILD].

Definition smallConfig : RoundConfig :=
  {| cfg_players := ["ann"; "bob"]; cfg_dealer := Int 0; cfg_cardsPerPlayer := Some 2 |}.

Definition smallRound : RoundImpl :=
  mkRound 2 0 ["ann"; "bob"] [] [false; false]
    [[NUMBERED RED 1; NUMBERED BLUE 3];
     [NUMBERED RED 2; NUMBERED BLUE 4; SKIP RED; NUMBERED RED 7]]
    [WILD] [DRAW GREEN] 1 (Some 0) None None false None None [] 1 [].


(** Nobody but [player] can be caught: the pending window, if there is one,
    is [player]'s or closed. *)
Definition quietExcept (player : Z) (s : RoundImpl) : Prop :=
  match pendingUno s with
  | Some p => uno_player p = player \/ windowOpen p = false
  | None => True
  end.

(** The cards a played card makes the next player draw. *)
Definition penaltyOf (card : Card) : nat :=
  match card with
  | DRAW _ => 2%nat
  | WILD_DRAW => 4%nat
  | _ => 0%nat
  end.

(** How the round ended and whom it told: what only [finishRound], [score]
    and [onEnd] write. *)
Definition ending_of (s : RoundImpl) :=
  (listeners s, notified s, cachedScore s, winnerIndex s, ended s).

(** The points of all the cards the players hold. *)
Definition pointsHeld (s : RoundImpl) : Z :=
  foldr Z.add 0 (map cardPoints (concat (hands s))).

(** A cached score is the winner's score for the hands as they are. *)
Definition scored (s : RoundImpl) : Prop :=
  match cachedScore s with
  | Some v => exists w, winnerIndex s = Some w /\ v = computeScore w s
  | None => True
  end.

(** A pending accusation names a player of the round. *)
Definition pendingIn (s : RoundImpl) : Prop :=
  forall q, pendingUno s = Some q -> 0 <= uno_player q < playerCount s.

(** A round whose first player holds a last card, with a listener; and the
    same round after that card was played. *)
Definition lastCardMemento : RoundMemento :=
  {| m_players := ["ann"; "bob"];
     m_hands := [[NUMBERED RED 1]; [NUMBERED BLUE 2; SKIP GREEN]];
     m_drawPile := [NUMBERED GREEN 7];
     m_discardPile := [NUMBERED RED 5];
     m_currentColor := RED;
     m_currentDirection := clockwise;
     m_dealer := Int 0;
     m_playerInTurn := Some (Int 0) |}.

Definition lastCardRound : RoundImpl :=
  mkRound 2 0 ["ann"; "bob"] [] [false; false]
    [[NUMBERED RED 1]; [NUMBERED BLUE 2; SKIP GREEN]]
    [NUMBERED GREEN 7] [NUMBERED RED 5] 1 (Some 0) None None false None None [] 0 [].

Definition listenedRound : RoundImpl := state_of (onEnd 7 lastCardRound).

Definition wonRound : RoundImpl :=
  state_of (play uno_canPlay identityShuffler 0 None listenedRound).

(** A round whose draw pile is used up, and the same round after a draw. *)
Definition refillMemento : RoundMemento :=
  {| m_players := ["ann"; "bob"];
     m_hands := [[NUMBERED BLUE 2; NUMBERED BLUE 3]; [NUMBERED GREEN 1; WILD]];
     m_drawPile := [];
     m_discardPile := [NUMBERED RED 5; NUMBERED RED 7; NUMBERED RED 9];
     m_currentColor := RED;
     m_currentDirection := clockwise;
     m_dealer := Int 0;
     m_playerInTurn := Some (Int 0) |}.

Definition refillRound : RoundImpl :=
  mkRound 2 0 ["ann"; "bob"] [] [false; false]
    [[NUMBERED BLUE 2; NUMBERED BLUE 3]; [NUMBERED GREEN 1; WILD]]
    [] [NUMBERED RED 5; NUMBERED RED 7; NUMBERED RED 9] 1 (Some 0) None None false
    None None [] 0 [].

Definition afterRefill : RoundImpl :=
  state_of (draw uno_canPlay identityShuffler refillRound).

(** The sample round after its first player declared UNO, and after the red
    one was then played. *)
Definition declaredRound : RoundImpl := state_of (sayUno (Int 0) sampleRound).

Definition afterDeclaredRedOne : RoundImpl :=
  state_of (play uno_canPlay identityShuffler 1 None declaredRound).

(** ** What a caller can reach *)



Section Using.

Variable canPlay : Card -> Card -> option Color -> bool.
Variable shuffler : nat -> list Card -> list Card.
Variable createInitialDeck : list Card.



End Using.

(** [Number.MAX_SAFE_INTEGER]: up to it, in absolute value, the numbers of
    the source that are integers are the integers of the model, and so are
    their remainders and sums. *)
Definition MAX_SAFE_INTEGER : Z := 2 ^ 53 - 1.
(** * Properties *)

(** ** Reasoning about methods *)

Lemma bind_Return {A B} (m : M A) (f : A -> M B) s b s2 :
  bind m f s = Return b s2 ->
  exists a s1, m s = Return a s1 /\ f a s1 = Return b s2.
Proof.
  unfold bind. destruct (m s) as [a s1|msg s1]; [eauto | discriminate].
Qed.

Lemma bind_Throw {A B} (m : M A) (f : A -> M B) s msg s2 :
  bind m f s = Throw msg s2 ->
  m s = Throw msg s2 \/ exists a s1, m s = Return a s1 /\ f a s1 = Throw msg s2.
Proof.
  unfold bind. destruct (m s) as [a s1|msg' s1]; naive_solver.
Qed.

Lemma bind_eq {A B} (m : M A) (f : A -> M B) s a s1 :
  m s = Return a s1 -> bind m f s = f a s1.
Proof. unfold bind. by intros ->. Qed.

Lemma defined_Return {A} (o : option A) s a s' :
  defined o s = Return a s' -> o = Some a /\ s' = s.
Proof. destruct o; unfold defined, ret, throw; naive_solver. Qed.

Lemma keeps_bind {X A B} (f : RoundImpl -> X) (m : M A) (k : A -> M B) :
  keeps f m -> (forall a, keeps f (k a)) -> keeps f (bind m k).
Proof.
  intros Hm Hk s. unfold bind. specialize (Hm s).
  destruct (m s) as [a s1|msg s1]; simpl in *; [by rewrite Hk | done].
Qed.

Lemma keeps_ret {X A} (f : RoundImpl -> X) (a : A) : keeps f (ret a).
Proof. by intros s. Qed.

Lemma keeps_throw {X A} (f : RoundImpl -> X) msg : keeps f (@throw A msg).
Proof. by intros s. Qed.

Lemma keeps_gets {X A} (f : RoundImpl -> X) (g : RoundImpl -> A) : keeps f (gets g).
Proof. by intros s. Qed.

Lemma keeps_lift {X A} (f : RoundImpl -> X) (r : res A) : keeps f (lift r).
Proof. intros s. unfold lift. by destruct r. Qed.

Lemma keeps_defined {X A} (f : RoundImpl -> X) (o : option A) : keeps f (defined o).
Proof. intros s. by destruct o. Qed.

Lemma keeps_modify {X} (f : RoundImpl -> X) (g : RoundImpl -> RoundImpl) :
  (forall s, f (g s) = f s) -> keeps f (modify g).
Proof. intros H s. apply H. Qed.

Lemma keeps_Return {X A} (f : RoundImpl -> X) (m : M A) s a s' :
  keeps f m -> m s = Return a s' -> f s' = f s.
Proof. intros H E. specialize (H s). by rewrite E in H. Qed.

Lemma keeps_Throw {X A} (f : RoundImpl -> X) (m : M A) s msg s' :
  keeps f m -> m s = Throw msg s' -> f s' = f s.
Proof. intros H E. specialize (H s). by rewrite E in H. Qed.

Create HintDb keeps.

#[global] Hint Resolve keeps_ret keeps_throw keeps_gets keeps_lift keeps_defined : keeps.

Ltac keeps_step :=
  match goal with
  | |- keeps _ (bind _ _) => apply keeps_bind; [| intros ?]
  | |- keeps _ (modify _) =>
    apply keeps_modify; intros ?; repeat case_match; reflexivity
  | |- keeps _ (if ?b then _ else _) => destruct b
  | |- keeps _ (match ?x with _ => _ end) => destruct x
  | |- keeps _ _ => solve [eauto with keeps]
  end.

Ltac keeps_tac := repeat keeps_step.

Section Frames.

Variable canPlay : Card -> Card -> option Color -> bool.
Variable shuffler : nat -> list Card -> list Card.

Lemma keeps_ensureActiveRound {X} (f : RoundImpl -> X) : keeps f ensureActiveRound.
Proof. unfold ensureActiveRound. keeps_tac. Qed.

Lemma keeps_ensurePlayerIndex {X} (f : RoundImpl -> X) i : keeps f (ensurePlayerIndex i).
Proof. unfold ensurePlayerIndex. keeps_tac. Qed.

Lemma keeps_handOf {X} (f : RoundImpl -> X) p : keeps f (handOf p).
Proof. unfold handOf. keeps_tac. Qed.

Lemma keeps_ensureCardIndex {X} (f : RoundImpl -> X) p i : keeps f (ensureCardIndex p i).
Proof. unfold ensureCardIndex. pose proof (@keeps_handOf X). keeps_tac. Qed.

Lemma keeps_ensureCurrentPlayer {X} (f : RoundImpl -> X) : keeps f ensureCurrentPlayer.
Proof. unfold ensureCurrentPlayer. keeps_tac. Qed.

Lemma keeps_topCard {X} (f : RoundImpl -> X) : keeps f topCard.
Proof. unfold topCard. keeps_tac. Qed.

Lemma keeps_currentColor {X} (f : RoundImpl -> X) : keeps f currentColor.
Proof. unfold currentColor. pose proof (@keeps_topCard X). keeps_tac. Qed.

Lemma keeps_nextIndexFromCurrent {X} (f : RoundImpl -> X) o :
  keeps f (nextIndexFromCurrent o).
Proof. unfold nextIndexFromCurrent. pose proof (@keeps_ensureCurrentPlayer X). keeps_tac. Qed.

Lemma keeps_canPlayIndex {X} (f : RoundImpl -> X) i : keeps f (canPlayIndex canPlay i).
Proof.
  unfold canPlayIndex. pose proof (@keeps_handOf X). pose proof (@keeps_topCard X).
  keeps_tac.
Qed.

Hint Resolve keeps_ensureActiveRound keeps_ensurePlayerIndex keeps_handOf
  keeps_ensureCardIndex keeps_ensureCurrentPlayer keeps_topCard
  keeps_currentColor keeps_nextIndexFromCurrent keeps_canPlayIndex : keeps.

Lemma turn_setHand p h : keeps turn_of (setHand p h).
Proof. unfold setHand. keeps_tac. Qed.

Lemma turn_markActionBy p : keeps turn_of (markActionBy p).
Proof. unfold markActionBy. keeps_tac. Qed.

Lemma turn_clearPendingOf p : keeps turn_of (clearPendingOf p).
Proof. unfold clearPendingOf. keeps_tac. Qed.

Lemma turn_setDeclared p v : keeps turn_of (setDeclared p v).
Proof. unfold setDeclared. keeps_tac. Qed.

Hint Resolve turn_setHand turn_markActionBy turn_clearPendingOf turn_setDeclared : keeps.

Lemma turn_updateUnoStateFor p : keeps turn_of (updateUnoStateFor p).
Proof. unfold updateUnoStateFor. keeps_tac. Qed.

Lemma turn_refillDrawPile : keeps turn_of (refillDrawPile shuffler).
Proof. unfold refillDrawPile. keeps_tac. Qed.

Hint Resolve turn_updateUnoStateFor turn_refillDrawPile : keeps.

Lemma turn_takeFromDrawPile : keeps turn_of (takeFromDrawPile shuffler).
Proof. unfold takeFromDrawPile. keeps_tac. Qed.

Hint Resolve turn_takeFromDrawPile : keeps.

Lemma turn_drawCards n p : keeps turn_of (drawCards shuffler n p).
Proof. induction n; simpl; keeps_tac. Qed.

Hint Resolve turn_drawCards : keeps.

Lemma turn_applyPenalty p n : keeps turn_of (applyPenalty shuffler p n).
Proof. unfold applyPenalty, drawCardsForPlayer. keeps_tac. Qed.

End Frames.

#[global] Hint Resolve keeps_ensureActiveRound keeps_ensurePlayerIndex keeps_handOf
  keeps_ensureCardIndex keeps_ensureCurrentPlayer keeps_topCard
  keeps_currentColor keeps_nextIndexFromCurrent keeps_canPlayIndex
  turn_setHand turn_markActionBy turn_clearPendingOf turn_setDeclared
  turn_updateUnoStateFor turn_refillDrawPile turn_takeFromDrawPile
  turn_drawCards turn_applyPenalty : keeps.

(** ** Small facts about the helpers *)

Ltac munfold :=
  unfold defined in *; unfold bind, ret, gets, modify, throw, lift in *.

Lemma len_nil_iff {A} (l : list A) : (len l =? 0) = true <-> l = [].
Proof.
  unfold len. destruct l; simpl; [done|]. split; done.
Qed.

Lemma len_app {A} (l k : list A) : len (l ++ k) = len l + len k.
Proof. unfold len. rewrite length_app. lia. Qed.

Lemma item_Some {A} (l : list A) i x :
  item l i = Some x <-> 0 <= i /\ l !! Z.to_nat i = Some x.
Proof.
  unfold item. destruct (i <? 0) eqn:E.
  - apply Z.ltb_lt in E. split; [done | lia].
  - apply Z.ltb_ge in E. split; [intros H; split; [lia | done] | by intros [_ H]].
Qed.

Lemma item_lt {A} (l : list A) i x : item l i = Some x -> 0 <= i < len l.
Proof.
  intros [H0 H]%item_Some. apply lookup_lt_Some in H. unfold len. lia.
Qed.

Lemma item_is_Some {A} (l : list A) i : 0 <= i < len l -> is_Some (item l i).
Proof.
  intros [H0 H1]. unfold item, len in *.
  destruct (i <? 0) eqn:E; [apply Z.ltb_lt in E; lia|].
  apply lookup_lt_is_Some. lia.
Qed.

Lemma map_cloneCard cards : map cloneCard cards = cards.
Proof. unfold cloneCard. apply map_id. Qed.

Lemma map_serialize cards : map serialize cards = cards.
Proof. unfold serialize. apply map_id. Qed.

Lemma last_take_app {A} (l : list A) top :
  last l = Some top -> l = take (length l - 1) l ++ [top].
Proof.
  intros H. apply last_Some in H as [l' ->].
  rewrite length_app. simpl.
  replace (length l' + 1 - 1)%nat with (length l') by lia.
  by rewrite take_app_length.
Qed.

Section Piles.

Variable shuffler : nat -> list Card -> list Card.

Lemma takeFromDrawPile_stocked s card rest :
  drawPileCards s = card :: rest ->
  takeFromDrawPile shuffler s = Return card (set_drawPileCards rest s).
Proof.
  intros H. unfold takeFromDrawPile. munfold. rewrite H. simpl. by rewrite H.
Qed.

Lemma refillDrawPile_empty s top :
  drawPileCards s = [] -> 1 < len (discardPileCards s) ->
  last (discardPileCards s) = Some top ->
  refillDrawPile shuffler s =
    Return tt
      (set_shuffles (S (shuffles s))
        (set_discardPileCards [top]
          (set_drawPileCards
            (shuffler (shuffles s)
               (take (length (discardPileCards s) - 1) (discardPileCards s)))
            (set_retired (retired s ++ [([], discardPileCards s)]) s)))).
Proof.
  intros Hd Hl Ht. unfold refillDrawPile. munfold. rewrite Hd. simpl.
  destruct (len (discardPileCards s) <=? 1) eqn:E; [apply Z.leb_le in E; lia|].
  rewrite Ht. by rewrite map_cloneCard.
Qed.

Lemma refillDrawPile_exhausted s :
  drawPileCards s = [] -> len (discardPileCards s) <= 1 ->
  refillDrawPile shuffler s = Throw "Cannot replenish draw pile" s.
Proof.
  intros Hd Hl. unfold refillDrawPile. munfold. rewrite Hd. simpl.
  destruct (len (discardPileCards s) <=? 1) eqn:E; [done | apply Z.leb_gt in E; lia].
Qed.

Lemma takeFromDrawPile_exhausted s :
  drawPileCards s = [] -> len (discardPileCards s) <= 1 ->
  takeFromDrawPile shuffler s = Throw "Cannot replenish draw pile" s.
Proof.
  intros Hd Hl. unfold takeFromDrawPile.
  unfold bind at 1. unfold gets at 1. rewrite Hd. simpl.
  unfold bind. by rewrite refillDrawPile_exhausted.
Qed.

(** C6: taking a card from an empty draw pile.  With more than one card on
    the discard pile, every card but the top goes, shuffled, to a fresh
    draw pile, the top stays alone on the discard pile and the card taken
    is the first of the fresh pile; the hands and the turn are untouched.
    With only the top card on the discard pile the call throws, changing
    nothing. *)
Theorem C6_take_from_empty_draw_pile s :
  (forall n cards, shuffler n cards ≡ₚ cards) ->
  drawPileCards s = [] ->
  (1 < len (discardPileCards s) ->
   exists top card s',
     last (discardPileCards s) = Some top /\
     takeFromDrawPile shuffler s = Return card s' /\
     discardPileCards s' = [top] /\
     card :: drawPileCards s' =
       shuffler (shuffles s) (take (length (discardPileCards s) - 1) (discardPileCards s)) /\
     (card :: drawPileCards s') ++ [top] ≡ₚ discardPileCards s /\
     hands s' = hands s /\ turn_of s' = turn_of s) /\
  (len (discardPileCards s) = 1 ->
   takeFromDrawPile shuffler s = Throw "Cannot replenish draw pile" s).
Proof.
  intros Hperm Hd. split.
  - intros Hl.
    destruct (last (discardPileCards s)) as [top|] eqn:Ht.
    2:{ apply last_None in Ht. rewrite Ht in Hl. unfold len in Hl. simpl in Hl. lia. }
    pose proof (refillDrawPile_empty s top Hd Hl Ht) as Hr.
    remember (take (length (discardPileCards s) - 1) (discardPileCards s)) as rest eqn:Hrest.
    assert (Hlen : length rest = (length (discardPileCards s) - 1)%nat).
    { subst rest. rewrite length_take. lia. }
    destruct (shuffler (shuffles s) rest) as [|card pile] eqn:Es.
    { pose proof (Permutation_length (Hperm (shuffles s) rest)) as Hp.
      rewrite Es in Hp. simpl in Hp. unfold len in Hl. lia. }
    exists top, card. eexists. split; [done|]. split.
    { unfold takeFromDrawPile. unfold bind at 1. unfold gets at 1. rewrite Hd. simpl.
      unfold bind at 1. rewrite Hr. munfold. simpl. reflexivity. }
    simpl. repeat split; try done.
    rewrite app_comm_cons, <- Es, (Hperm (shuffles s) rest).
    subst rest. by rewrite <- last_take_app.
  - intros Hl. apply takeFromDrawPile_exhausted; [done | lia].
Qed.

End Piles.

(** Witness of C6: the sample round after its first card was played. *)
Lemma C6_take_from_empty_draw_pile_witness :
  let s := set_discardPileCards [NUMBERED RED 5; NUMBERED RED 1] sampleRound in
  exists card s',
    takeFromDrawPile identityShuffler s = Return card s' /\
    discardPileCards s' = [NUMBERED RED 1] /\ card = NUMBERED RED 5.
Proof.
  intros s.
  destruct (C6_take_from_empty_draw_pile identityShuffler s) as [H _].
  - intros n cards. reflexivity.
  - reflexivity.
  - destruct H as (top & card & s' & Ht & Hr & Hd & Hc & _); [reflexivity|].
    exists card, s'. split; [exact Hr|]. simpl in Ht. inversion Ht; subst top.
    split; [exact Hd|]. simpl in Hc. unfold identityShuffler in Hc. by inversion Hc.
Defined.

(** ** Empty hands *)

Lemma winnersFrom_elem k (hs : list (list Card)) x :
  x ∈ winnersFrom k hs <-> exists i : nat, x = k + Z.of_nat i /\ hs !! i = Some [].
Proof.
  revert k. induction hs as [|h hs IH]; intros k; simpl.
  - split; [by intros ?%elem_of_nil | by intros (i & _ & ?)].
  - assert (Hrest : x ∈ winnersFrom (k + 1) hs <->
                    exists i : nat, x = k + Z.of_nat (S i) /\ hs !! i = Some []).
    { rewrite IH. split; intros (i & -> & Hi); exists i; split; (lia || done). }
    destruct (len h =? 0) eqn:E.
    + apply len_nil_iff in E. subst h. rewrite elem_of_cons, Hrest. split.
      * intros [-> | (i & -> & Hi)]; [exists 0%nat | exists (S i)]; split; (done || lia).
      * intros ([|i] & -> & Hi); [left; lia | right; eauto].
    + rewrite Hrest. split.
      * intros (i & -> & Hi). exists (S i). done.
      * intros ([|i] & -> & Hi); [| eauto].
        simpl in Hi. inversion Hi; subst h. done.
Qed.

Lemma winnersFrom_none k (hs : list (list Card)) :
  winnersFrom k hs = [] <-> forall (i : nat) h, hs !! i = Some h -> h <> [].
Proof.
  split.
  - intros H i h Hi ->.
    assert (k + Z.of_nat i ∈ winnersFrom k hs) as Hin by (apply winnersFrom_elem; eauto).
    rewrite H in Hin. by apply elem_of_nil in Hin.
  - intros H. destruct (winnersFrom k hs) as [|x l] eqn:E; [done|].
    assert (x ∈ winnersFrom k hs) as Hin by (rewrite E; left).
    apply winnersFrom_elem in Hin as (i & _ & Hi). by specialize (H i [] Hi).
Qed.

Lemma winnersFrom_one k (hs : list (list Card)) (c : nat) :
  hs !! c = Some [] ->
  (forall (i : nat) h, hs !! i = Some h -> i <> c -> h <> []) ->
  winnersFrom k hs = [k + Z.of_nat c].
Proof.
  revert k c. induction hs as [|h hs IH]; intros k c Hc Ho; [done|].
  destruct c as [|c]; simpl in *.
  - inversion Hc; subst h. simpl.
    replace (winnersFrom (k + 1) hs) with (@nil Z); [f_equal; lia|].
    symmetry. apply winnersFrom_none. intros i h Hi. by apply (Ho (S i)).
  - destruct (len h =? 0) eqn:E.
    { apply len_nil_iff in E. by specialize (Ho 0%nat h eq_refl ltac:(lia)). }
    rewrite (IH (k + 1) c Hc); [f_equal; lia|].
    intros i h' Hi Hne. apply (Ho (S i) h' Hi). lia.
Qed.


(** ** Mementos *)

Lemma cloneCardsWithValidation_ok cards cards' :
  cloneCardsWithValidation cards = ok cards' ->
  cards' = cards /\ Forall (fun c => validCard c = true) cards.
Proof.
  unfold cloneCardsWithValidation. rewrite map_serialize.
  destruct (forallb validCard cards) eqn:E; [|done].
  intros [= <-]. split; [done|]. apply Forall_forall. intros c Hc.
  rewrite forallb_forall in E. apply E. by apply list_elem_of_In.
Qed.

Lemma cloneCardsWithValidation_valid cards :
  Forall (fun c => validCard c = true) cards ->
  cloneCardsWithValidation cards = ok cards.
Proof.
  intros H. unfold cloneCardsWithValidation. rewrite map_serialize.
  replace (forallb validCard cards) with true; [done|].
  symmetry. apply forallb_forall. intros c Hc%list_elem_of_In.
  by rewrite Forall_forall in H; apply H.
Qed.

Lemma res_map_clone_ok hs hs' :
  res_map cloneCardsWithValidation hs = ok hs' ->
  hs' = hs /\ Forall (Forall (fun c => validCard c = true)) hs.
Proof.
  revert hs'. induction hs as [|h hs IH]; intros hs'; simpl.
  - by intros [= <-].
  - destruct (cloneCardsWithValidation h) as [h'|] eqn:Eh; [|done]. simpl.
    destruct (res_map cloneCardsWithValidation hs) as [t|] eqn:Et; [|done]. simpl.
    intros [= <-]. apply cloneCardsWithValidation_ok in Eh as [-> Hv].
    destruct (IH t eq_refl) as [-> Hvs]. split; [done | by constructor].
Qed.

Lemma res_map_clone_valid hs :
  Forall (Forall (fun c => validCard c = true)) hs ->
  res_map cloneCardsWithValidation hs = ok hs.
Proof.
  induction 1 as [|h hs Hh Hhs IH]; simpl; [done|].
  rewrite (cloneCardsWithValidation_valid h Hh). simpl. by rewrite IH.
Qed.

(** C8, as the code has it: a memento with exactly one empty hand is the
    memento of a finished round, and [createRoundFromMemento] does not look
    at its [playerInTurn]: the outcome is that of the same memento without
    one, and a round it builds has ended, has nobody in turn and has the
    owner of the empty hand as winner. *)
Theorem C8_ended_memento_ignores_playerInTurn memento w :
  winnersFrom 0 (m_hands memento) = [w] ->
  createRoundFromMemento memento = createRoundFromMemento (without_playerInTurn memento) /\
  forall s, createRoundFromMemento memento = ok s ->
    ended s = true /\ currentPlayerIndex s = None /\ winnerIndex s = Some w /\
    hands s = m_hands memento.
Proof.
  intros Hw. unfold createRoundFromMemento, without_playerInTurn. simpl.
  destruct (validatePlayers (m_players memento)); simpl; [|done].
  destruct (ensureIndex (m_dealer memento) _ _); simpl; [|done].
  destruct (toDirection _); simpl; [|done].
  destruct (ensureColorValue _); simpl; [|done].
  destruct (negb _); [done|].
  destruct (res_map _ _) as [hs|] eqn:Eh; simpl; [|done].
  apply res_map_clone_ok in Eh as [-> _].
  destruct (cloneCardsWithValidation (m_drawPile memento)); simpl; [|done].
  destruct (cloneCardsWithValidation (m_discardPile memento)) as [dp|]; simpl; [|done].
  destruct (len dp =? 0) eqn:Edp; [done|].
  rewrite Hw. simpl. split; [done|].
  destruct (last dp) as [top|]; [|done].
  intros s. destruct (if isWild top then _ else _); simpl; [|done].
  unfold new_RoundImpl. simpl. rewrite Edp, Hw. simpl. by intros [= <-].
Qed.

Lemma C8_ended_memento_ignores_playerInTurn_witness :
  createRoundFromMemento endedMemento =
  createRoundFromMemento (without_playerInTurn endedMemento).
Proof.
  apply (C8_ended_memento_ignores_playerInTurn endedMemento 0). reflexivity.
Defined.

(** C8 as stated fails: [endedMemento] has exactly one empty hand and a
    [playerInTurn], and a round is built from it. *)
Lemma C8_counterexample :
  ~ (forall memento w,
       winnersFrom 0 (m_hands memento) = [w] ->
       is_Some (m_playerInTurn memento) ->
       exists msg, createRoundFromMemento memento = raise msg).
Proof.
  intros H. destruct (H endedMemento 0) as [msg Hm]; [reflexivity | by eexists |].
  vm_compute in Hm. discriminate.
Qed.

(** ** Pile views *)

(** C9, as the code has it: a view is a window on the round's own array.
    On the view handed out by [drawPile()], [deal()] takes the front card off
    the round's draw pile and [shuffle(f)] leaves the round's draw pile as
    [f] arranged it; [discardPile()] does the same to the discard pile.  In
    each case no other field of the round changes, and [size], [peek],
    [top], [filter] and [toMemento] change nothing at all. *)
Theorem C9_views_write_through s :
  let dv := {| ref_field := DrawField; ref_binding := length (retired s) |} in
  let cv := {| ref_field := DiscardField; ref_binding := length (retired s) |} in
  drawPile s = Return dv s /\ discardPile s = Return cv s /\
  DrawPileView.deal dv s =
    match drawPileCards s with
    | [] => Return None s
    | card :: rest => Return (Some card) (set_drawPileCards rest s)
    end /\
  DiscardPileView.deal cv s =
    match discardPileCards s with
    | [] => Return None s
    | card :: rest => Return (Some card) (set_discardPileCards rest s)
    end /\
  (forall f, DrawPileView.shuffle dv f s =
             Return tt (set_drawPileCards (f (drawPileCards s)) s)) /\
  (forall f, DiscardPileView.shuffle cv f s =
             Return tt (set_discardPileCards (f (discardPileCards s)) s)) /\
  DrawPileView.size dv s = Return (len (drawPileCards s)) s /\
  DiscardPileView.size cv s = Return (len (discardPileCards s)) s /\
  DrawPileView.peek dv s = Return (head (drawPileCards s)) s /\
  DiscardPileView.top cv s = Return (last (discardPileCards s)) s /\
  DrawPileView.toMemento dv s = Return (drawPileCards s) s /\
  DiscardPileView.toMemento cv s = Return (discardPileCards s) s /\
  (forall pred, state_of (DrawPileView.filter dv pred s) = s) /\
  (forall pred, state_of (DiscardPileView.filter cv pred s) = s).
Proof.
  intros dv cv.
  assert (Hd : readArray dv s = drawPileCards s).
  { unfold readArray. simpl. by rewrite decide_True. }
  assert (Hc : readArray cv s = discardPileCards s).
  { unfold readArray. simpl. by rewrite decide_True. }
  assert (Hwd : forall cards, writeArray dv cards s = set_drawPileCards cards s).
  { intros cards. unfold writeArray. simpl. by rewrite decide_True. }
  assert (Hwc : forall cards, writeArray cv cards s = set_discardPileCards cards s).
  { intros cards. unfold writeArray. simpl. by rewrite decide_True. }
  repeat split.
  - unfold DrawPileView.deal. munfold. rewrite Hd. destruct (drawPileCards s); [done|].
    by rewrite Hwd.
  - unfold DiscardPileView.deal. munfold. rewrite Hc. destruct (discardPileCards s); [done|].
    by rewrite Hwc.
  - intros f. unfold DrawPileView.shuffle. munfold. by rewrite Hd, Hwd.
  - intros f. unfold DiscardPileView.shuffle. munfold. by rewrite Hc, Hwc.
  - unfold DrawPileView.size. munfold. by rewrite Hd.
  - unfold DiscardPileView.size. munfold. by rewrite Hc.
  - unfold DrawPileView.peek. munfold. by rewrite Hd.
  - unfold DiscardPileView.top. munfold. by rewrite Hc.
  - unfold DrawPileView.toMemento. munfold. by rewrite Hd, map_serialize.
  - unfold DiscardPileView.toMemento. munfold. by rewrite Hc, map_serialize.
  - intros pred. unfold DrawPileView.filter. munfold. by destruct (cloneCardsWithValidation _).
  - intros pred. unfold DiscardPileView.filter. munfold. by destruct (cloneCardsWithValidation _).
Qed.

(** Once [refillDrawPile] has bound the fields to fresh arrays, a view
    handed out before it no longer reaches the round's piles. *)
Lemma stale_view_detached (v : ArrayRef) cards s :
  ref_binding v <> length (retired s) ->
  drawPileCards (writeArray v cards s) = drawPileCards s /\
  discardPileCards (writeArray v cards s) = discardPileCards s /\
  hands (writeArray v cards s) = hands s.
Proof.
  intros H. unfold writeArray. rewrite decide_False by done. repeat split.
Qed.

(** C9 as stated fails: dealing from the view of the draw pile removes a card
    of the round's draw pile, and dealing from the view of a one-card discard
    pile leaves the round without a top card. *)
Lemma C9_counterexample :
  ~ (forall s dv cv,
       drawPile s = Return dv s -> discardPile s = Return cv s ->
       drawPileCards (state_of (DrawPileView.deal dv s)) = drawPileCards s /\
       discardPileCards (state_of (DiscardPileView.deal cv s)) = discardPileCards s).
Proof.
  intros H.
  destruct (H stockedRound _ _ eq_refl eq_refl) as [Hd Hc].
  vm_compute in Hd. discriminate.
Qed.

Lemma view_empties_discard_pile :
  exists cv, discardPile sampleRound = Return cv sampleRound /\
    discardPileCards (state_of (DiscardPileView.deal cv sampleRound)) = [].
Proof. eexists. split; reflexivity. Qed.

(** ** Throwing after writing *)

Section Atomicity.

Variable canPlay : Card -> Card -> option Color -> bool.
Variable shuffler : nat -> list Card -> list Card.

Lemma marked_fields player s :
  hands (marked player s) = hands s /\
  discardPileCards (marked player s) = discardPileCards s /\
  drawPileCards (marked player s) = drawPileCards s /\
  unoDeclared (marked player s) = unoDeclared s /\
  turn_of (marked player s) = turn_of s.
Proof.
  unfold marked, markActionBy, modify. simpl.
  destruct (pendingUno s) as [p|]; [|done]. by destruct (negb _).
Qed.

(** The start of [play], up to the moment the card leaves the hand. *)
Lemma play_moves_card s c hand card i top color :
  ended s = false -> currentPlayerIndex s = Some c ->
  item (hands s) c = Some hand -> item hand i = Some card ->
  last (discardPileCards s) = Some top ->
  canPlay card top (enforcedColor s) = true ->
  play canPlay shuffler i color s =
    (playColor card color;;;
     let* advanceSteps := playEffect shuffler card in
     updateUnoStateFor c;;;
     let* hand' := handOf c in
     if len hand' =? 0 then
       modify (set_pendingUno None);;; finishRound c;;; ret card
     else
       let* e := gets ended in
       (if negb e then advance advanceSteps else ret tt);;; ret card)
    (set_discardPileCards (discardPileCards s ++ [card])
       (set_hands (<[Z.to_nat c := delete (Z.to_nat i) hand]> (hands s))
          (marked c s))).
Proof.
  intros He Hc Hh Hi Ht Hp.
  destruct (marked_fields c s) as (Mh & Md & _ & _ & Mt).
  unfold turn_of in Mt. injection Mt as M1 M2 M3 M4 M5 M6 M7 M8 M9 M10 M11.
  pose proof (item_lt _ _ _ Hi) as Hr.
  unfold play.
  rewrite (bind_eq ensureActiveRound _ s tt s).
  2:{ unfold ensureActiveRound. munfold. by rewrite He. }
  rewrite (bind_eq ensureCurrentPlayer _ s c s).
  2:{ unfold ensureCurrentPlayer. munfold. by rewrite Hc. }
  rewrite (bind_eq (ensureCardIndex c i) _ s tt s).
  2:{ unfold ensureCardIndex, handOf. munfold. rewrite Hh. simpl.
      destruct (i <? 0) eqn:E1; [apply Z.ltb_lt in E1; lia|].
      destruct (len hand <=? i) eqn:E2; [apply Z.leb_le in E2; lia|]. reflexivity. }
  rewrite (bind_eq (markActionBy c) _ s tt (marked c s)).
  2:{ reflexivity. }
  rewrite (bind_eq (handOf c) _ (marked c s) hand (marked c s)).
  2:{ unfold handOf. munfold. by rewrite Mh, Hh. }
  rewrite (bind_eq (defined (item hand i)) _ (marked c s) card (marked c s)).
  2:{ by rewrite Hi. }
  rewrite (bind_eq (canPlayIndex canPlay i) _ (marked c s) true (marked c s)).
  2:{ unfold canPlayIndex, handOf, topCard. munfold. rewrite M8, He, M6, Hc, Mh, Hh.
      destruct (i <? 0) eqn:E1; [apply Z.ltb_lt in E1; lia|].
      destruct (len hand <=? i) eqn:E2; [apply Z.leb_le in E2; lia|]. simpl.
      by rewrite Hi, Md, Ht, M7, Hp. }
  simpl.
  rewrite (bind_eq (setHand c _) _ (marked c s) tt
             (set_hands (<[Z.to_nat c := delete (Z.to_nat i) hand]> (hands s)) (marked c s))).
  2:{ unfold setHand, modify. by rewrite Mh. }
  rewrite (bind_eq (modify _) _ _ tt
             (set_discardPileCards (discardPileCards s ++ [card])
                (set_hands (<[Z.to_nat c := delete (Z.to_nat i) hand]> (hands s))
                   (marked c s)))).
  2:{ unfold modify. simpl. by rewrite Md. }
  reflexivity.
Qed.

(** C1, where the code departs from it: a playable wild card played without
    a colour.  The call throws, but by then the card has left the hand and
    lies on the discard pile. *)
Theorem C1_play_wild_without_color_is_not_atomic s c hand card i top :
  ended s = false -> currentPlayerIndex s = Some c ->
  item (hands s) c = Some hand -> item hand i = Some card ->
  last (discardPileCards s) = Some top ->
  canPlay card top (enforcedColor s) = true ->
  isWild card = true ->
  exists s',
    play canPlay shuffler i None s =
      Throw "Color must be specified when playing a wild card" s' /\
    hands s' = <[Z.to_nat c := delete (Z.to_nat i) hand]> (hands s) /\
    discardPileCards s' = discardPileCards s ++ [card] /\
    observable s' <> observable s.
Proof.
  intros He Hc Hh Hi Ht Hp Hw.
  rewrite (play_moves_card s c hand card i top None He Hc Hh Hi Ht Hp).
  eexists. split.
  { unfold bind at 1. unfold playColor. rewrite Hw. reflexivity. }
  simpl. repeat split.
  unfold observable. simpl. intros [= _ _ H _].
  apply (f_equal length) in H. rewrite length_app in H. simpl in H. lia.
Qed.

(** The same on the other branch: a playable card that is not wild, played
    with a colour. *)
Lemma play_colored_with_color_is_not_atomic s c hand card i top color :
  ended s = false -> currentPlayerIndex s = Some c ->
  item (hands s) c = Some hand -> item hand i = Some card ->
  last (discardPileCards s) = Some top ->
  canPlay card top (enforcedColor s) = true ->
  isWild card = false ->
  exists s',
    play canPlay shuffler i (Some color) s =
      Throw "Color can only be provided for wild cards" s' /\
    hands s' = <[Z.to_nat c := delete (Z.to_nat i) hand]> (hands s) /\
    discardPileCards s' = discardPileCards s ++ [card].
Proof.
  intros He Hc Hh Hi Ht Hp Hw.
  rewrite (play_moves_card s c hand card i top (Some color) He Hc Hh Hi Ht Hp).
  eexists. split.
  { unfold bind at 1. unfold playColor. rewrite Hw. reflexivity. }
  simpl. done.
Qed.

End Atomicity.

(** Witness of C1: the first player of the sample round plays the wild card
    without naming a colour. *)
Lemma C1_play_wild_without_color_is_not_atomic_witness :
  exists s',
    play uno_canPlay identityShuffler 0 None sampleRound =
      Throw "Color must be specified when playing a wild card" s' /\
    hands s' = [[NUMBERED RED 1]; [NUMBERED BLUE 2; NUMBERED BLUE 3]] /\
    discardPileCards s' = [NUMBERED RED 5; WILD] /\
    observable s' <> observable sampleRound.
Proof.
  apply (C1_play_wild_without_color_is_not_atomic uno_canPlay identityShuffler
           sampleRound 0 [WILD; NUMBERED RED 1] WILD 0 (NUMBERED RED 5));
    reflexivity.
Defined.

(** After that throw the round is no longer in order: a wild card lies on
    top of the discard pile with no enforced colour, and [toMemento] throws. *)
Lemma throw_leaves_wild_without_color :
  let s' := state_of (play uno_canPlay identityShuffler 0 None sampleRound) in
  last (discardPileCards s') = Some WILD /\ enforcedColor s' = None /\
  toMemento s' = Throw "Current color is undefined" s'.
Proof. repeat split. Qed.

(** ** What the helpers return *)

Ltac bind_inv H :=
  let a := fresh "a" in
  let s1 := fresh "s" in
  let H1 := fresh "H" in
  apply bind_Return in H as (a & s1 & H1 & H).

Tactic Notation "bind_open" hyp(H) "as" ident(a) ident(s1) ident(H1) :=
  apply bind_Return in H as (a & s1 & H1 & H).

Lemma mod_modulo v n : 0 < n -> mod_ v n = v mod n.
Proof.
  intros Hn. unfold mod_. destruct (0 <=? Z.rem v n) eqn:E.
  - apply Z.leb_le in E. pose proof (Z.rem_bound_abs v n). 
    apply (Z.mod_unique_pos v n (Z.quot v n)); [|apply Z.quot_rem'].
    pose proof (Z.quot_rem' v n). lia.
  - apply Z.leb_gt in E. pose proof (Z.rem_bound_abs v n).
    apply (Z.mod_unique_pos v n (Z.quot v n - 1)); [lia|].
    pose proof (Z.quot_rem' v n). lia.
Qed.

Lemma mod_range v n : 0 < n -> 0 <= mod_ v n < n.
Proof. intros Hn. rewrite mod_modulo by done. by apply Z.mod_pos_bound. Qed.

Lemma ensureActiveRound_Return s u s' :
  ensureActiveRound s = Return u s' -> s' = s /\ ended s = false.
Proof.
  unfold ensureActiveRound. munfold. destruct (ended s); [done|]. by intros [= <-].
Qed.

Lemma ensureCurrentPlayer_Return s c s' :
  ensureCurrentPlayer s = Return c s' -> s' = s /\ currentPlayerIndex s = Some c.
Proof.
  unfold ensureCurrentPlayer. munfold. destruct (currentPlayerIndex s); [|done].
  by intros [= <- <-].
Qed.

Lemma handOf_Return p s h s' :
  handOf p s = Return h s' -> s' = s /\ item (hands s) p = Some h.
Proof.
  unfold handOf. munfold. destruct (item (hands s) p); [|done]. by intros [= <- <-].
Qed.

Lemma handOf_eq p s h : item (hands s) p = Some h -> handOf p s = Return h s.
Proof. intros H. unfold handOf. munfold. by rewrite H. Qed.

Lemma topCard_Return s top s' :
  topCard s = Return top s' -> s' = s /\ last (discardPileCards s) = Some top.
Proof.
  unfold topCard. munfold. destruct (last (discardPileCards s)); [|done].
  by intros [= <- <-].
Qed.

Lemma ensureCardIndex_Return p i s u s' :
  ensureCardIndex p i s = Return u s' ->
  s' = s /\ exists hand, item (hands s) p = Some hand /\ 0 <= i < len hand.
Proof.
  unfold ensureCardIndex. intros H. bind_inv H. apply handOf_Return in H0 as [-> Hh].
  destruct (i <? 0) eqn:E1; [done|]. destruct (len a <=? i) eqn:E2; [done|].
  simpl in H. injection H as <-. split; [done|]. exists a. split; [done|].
  apply Z.ltb_ge in E1. apply Z.leb_gt in E2. lia.
Qed.

Lemma ensureIndex_ok index count label i :
  ensureIndex index count label = ok i <-> index = Int i /\ 0 <= i < count.
Proof.
  unfold ensureIndex. destruct index as [z|].
  - destruct (z <? 0) eqn:E1; destruct (count <=? z) eqn:E2; simpl;
      try apply Z.ltb_lt in E1; try apply Z.ltb_ge in E1;
      try apply Z.leb_le in E2; try apply Z.leb_gt in E2;
      (split; [intros [= <-] | intros [[= <-] ?]]);
      (done || lia || (split; [done | lia])).
  - split; [done | by intros [? _]].
Qed.

Lemma ensurePlayerIndex_Return index s i s' :
  ensurePlayerIndex index s = Return i s' ->
  s' = s /\ index = Int i /\ 0 <= i < playerCount s.
Proof.
  unfold ensurePlayerIndex. munfold.
  destruct (ensureIndex index (playerCount s) "player") as [j|] eqn:E; [|done].
  intros [= <- <-]. by apply ensureIndex_ok in E.
Qed.

Lemma ensurePlayerIndex_eq s i :
  0 <= i < playerCount s -> ensurePlayerIndex (Int i) s = Return i s.
Proof.
  intros H. unfold ensurePlayerIndex. munfold.
  by rewrite (proj2 (ensureIndex_ok (Int i) (playerCount s) "player" i)).
Qed.

Lemma ensurePlayerIndex_Throw index s msg s' :
  ensurePlayerIndex index s = Throw msg s' ->
  s' = s /\
  (index = NonInt /\ msg = "player must be an integer" \/
   exists i, index = Int i /\ ~ 0 <= i < playerCount s /\ msg = "player is out of bounds").
Proof.
  unfold ensurePlayerIndex, ensureIndex. munfold. destruct index as [z|].
  - destruct (z <? 0) eqn:E1; destruct (playerCount s <=? z) eqn:E2; simpl;
      try apply Z.ltb_lt in E1; try apply Z.ltb_ge in E1;
      try apply Z.leb_le in E2; try apply Z.leb_gt in E2;
      intros [= <- <-]; (split; [done|]); right; exists z; (split; [done|]);
      (split; [lia | done]).
  - intros [= <- <-]. split; [done|]. by left.
Qed.

Section Returns.

Variable canPlay : Card -> Card -> option Color -> bool.
Variable shuffler : nat -> list Card -> list Card.

Lemma canPlayIndex_true i s s' :
  canPlayIndex canPlay i s = Return true s' ->
  s' = s /\ ended s = false /\
  exists c hand card top,
    currentPlayerIndex s = Some c /\ item (hands s) c = Some hand /\
    item hand i = Some card /\ last (discardPileCards s) = Some top /\
    canPlay card top (enforcedColor s) = true.
Proof.
  unfold canPlayIndex. intros H. unfold bind at 1, gets at 1 in H.
  destruct (ended s) eqn:He; [done|].
  unfold bind at 1, gets at 1 in H.
  destruct (currentPlayerIndex s) as [c|] eqn:Hc; [|done].
  bind_inv H. apply handOf_Return in H0 as [-> Hh].
  destruct (_ || _); [done|].
  bind_inv H. apply defined_Return in H0 as [Hi ->].
  bind_inv H. apply topCard_Return in H0 as [-> Ht].
  munfold. injection H as Hp <-. split; [done|]. split; [done|].
  by exists c, a, a0, a1.
Qed.

Lemma keeps_cards_markActionBy p : keeps cards_of (markActionBy p).
Proof. unfold markActionBy. keeps_tac. Qed.

Lemma keeps_cards_clearPendingOf p : keeps cards_of (clearPendingOf p).
Proof. unfold clearPendingOf. keeps_tac. Qed.

Lemma keeps_cards_setDeclared p v : keeps cards_of (setDeclared p v).
Proof. unfold setDeclared. keeps_tac. Qed.

Hint Resolve keeps_cards_markActionBy keeps_cards_clearPendingOf
  keeps_cards_setDeclared : keeps.

Lemma keeps_cards_updateUnoStateFor p : keeps cards_of (updateUnoStateFor p).
Proof. unfold updateUnoStateFor. keeps_tac. Qed.

Lemma keeps_cards_advance n : keeps cards_of (advance n).
Proof. unfold advance. keeps_tac. Qed.

Lemma keeps_cards_finishRound w : keeps cards_of (finishRound w).
Proof. unfold finishRound. keeps_tac. Qed.

Lemma keeps_cards_playColor card color : keeps cards_of (playColor card color).
Proof. unfold playColor. keeps_tac. Qed.

(** A card taken from the draw pile: the first of [drawSource]; the top of
    the discard pile, the hands and the turn stay. *)
Lemma takeFromDrawPile_Return s card s' :
  takeFromDrawPile shuffler s = Return card s' ->
  card :: drawPileCards s' = drawSource shuffler s /\
  last (discardPileCards s') = last (discardPileCards s) /\
  (drawPileCards s <> [] -> discardPileCards s' = discardPileCards s) /\
  (drawPileCards s = [] ->
   exists top, last (discardPileCards s) = Some top /\ discardPileCards s' = [top] /\
               1 < len (discardPileCards s)) /\
  hands s' = hands s /\ unoDeclared s' = unoDeclared s /\
  pendingUno s' = pendingUno s /\ turn_of s' = turn_of s.
Proof.
  unfold drawSource. destruct (drawPileCards s) as [|c pile] eqn:Hd.
  - destruct (Z_le_gt_dec (len (discardPileCards s)) 1) as [Hl|Hl].
    { by rewrite takeFromDrawPile_exhausted. }
    destruct (last (discardPileCards s)) as [top|] eqn:Ht.
    2:{ apply last_None in Ht. rewrite Ht in Hl. unfold len in Hl. simpl in Hl. lia. }
    unfold takeFromDrawPile. unfold bind at 1, gets at 1. rewrite Hd. simpl.
    unfold bind at 1. rewrite (refillDrawPile_empty shuffler s top Hd ltac:(lia) Ht).
    munfold. simpl.
    destruct (shuffler _ _) as [|c pile]; [done|]. intros [= <- <-]. simpl.
    repeat split; try done. intros _. exists top. repeat split. lia.
  - rewrite (takeFromDrawPile_stocked shuffler s c pile Hd).
    intros [= <- <-]. simpl. repeat split; try done.
Qed.

Lemma advance_Return steps s u s' c :
  currentPlayerIndex s = Some c ->
  advance steps s = Return u s' ->
  s' = set_currentPlayerIndex
         (Some (mod_ (c + steps * direction s) (playerCount s))) s.
Proof.
  intros Hc. unfold advance. munfold. rewrite Hc. by intros [= <-].
Qed.

End Returns.

#[global] Hint Resolve keeps_cards_markActionBy keeps_cards_clearPendingOf
  keeps_cards_setDeclared keeps_cards_updateUnoStateFor keeps_cards_advance
  keeps_cards_finishRound keeps_cards_playColor : keeps.

(** ** Drawing and playing *)

Section Turns.

Variable canPlay : Card -> Card -> option Color -> bool.
Variable shuffler : nat -> list Card -> list Card.

Lemma step_moves c d n :
  2 <= n -> d = 1 \/ d = -1 -> Some ((c + d) mod n) <> Some c.
Proof.
  intros Hn Hd [= H].
  assert (0 <= c < n) as Hc by (rewrite <- H; apply Z.mod_pos_bound; lia).
  destruct Hd as [-> | ->].
  - destruct (Z.eq_dec (c + 1) n) as [E|E].
    + rewrite E, Z.mod_same in H by lia. lia.
    + rewrite Z.mod_small in H by lia. lia.
  - destruct (Z.eq_dec c 0) as [E|E].
    + subst c. replace (0 + -1) with (-1 + 1 * 0) in H by lia.
      change (-1 + 1 * 0) with (-1) in H.
      assert (-1 mod n = n - 1) as E1.
      { symmetry. apply (Z.mod_unique_pos (-1) n (-1)); lia. }
      lia.
    + rewrite Z.mod_small in H by lia. lia.
Qed.

(** C5: a call of [draw()] that returns has put the first card of the draw
    pile (refilled from the discard pile if it was empty) at the end of the
    hand of the player in turn and nowhere else.  If that card can be played
    on the top card and enforced colour the same player stays in turn; if it
    cannot, the turn moves one seat on, to another player. *)
Theorem C5_draw_takes_one_card s card s' :
  2 <= playerCount s -> direction s = 1 \/ direction s = -1 ->
  draw canPlay shuffler s = Return card s' ->
  exists c hand top,
    currentPlayerIndex s = Some c /\ item (hands s) c = Some hand /\
    last (discardPileCards s) = Some top /\
    card :: drawPileCards s' = drawSource shuffler s /\
    hands s' = <[Z.to_nat c := hand ++ [card]]> (hands s) /\
    last (discardPileCards s') = Some top /\
    enforcedColor s' = enforcedColor s /\ direction s' = direction s /\
    (canPlay card top (enforcedColor s) = true -> currentPlayerIndex s' = Some c) /\
    (canPlay card top (enforcedColor s) = false ->
     currentPlayerIndex s' = Some ((c + direction s) mod playerCount s) /\
     currentPlayerIndex s' <> Some c).
Proof.
  intros Hn Hdir H. unfold draw in H.
  bind_open H as u0 s0 B0. apply ensureActiveRound_Return in B0 as [-> He].
  bind_open H as c s0 B0. apply ensureCurrentPlayer_Return in B0 as [-> Hc].
  bind_open H as u1 s1 B1.
  assert (s1 = marked c s) as -> by (unfold marked; by rewrite B1).
  destruct (marked_fields c s) as (Mh & Md & Mp & _ & Mt).
  bind_open H as card' s2 B2.
  apply takeFromDrawPile_Return in B2 as (Tsrc & Ttop & _ & _ & Th & _ & _ & Tt).
  bind_open H as hand s3 B3. apply handOf_Return in B3 as [-> Hh].
  bind_open H as u4 s4 B4. unfold setHand, modify in B4. injection B4 as _ <-.
  bind_open H as u5 s5 B5.
  pose proof (keeps_Return _ _ _ _ _ (turn_updateUnoStateFor c) B5) as Ut.
  pose proof (keeps_Return _ _ _ _ _ (keeps_cards_updateUnoStateFor c) B5) as Uc.
  bind_open H as top s6 B6. apply topCard_Return in B6 as [-> Htop].
  bind_open H as enforced s7 B7. unfold gets in B7. injection B7 as <- <-.
  unfold cards_of in Uc. simpl in Uc. injection Uc as U1 U2 U3 U4 U5.
  unfold turn_of in Ut, Tt, Mt. simpl in Ut.
  injection Ut as ? ? ? ? ? ? ? ? ? ? ?.
  injection Tt as ? ? ? ? ? ? ? ? ? ? ?.
  injection Mt as ? ? ? ? ? ? ? ? ? ? ?.
  assert (Hsrc : drawSource shuffler (marked c s) = drawSource shuffler s).
  { unfold drawSource. rewrite Mp, Md.
    assert (shuffles (marked c s) = shuffles s) as ->; [|done].
    pose proof (keeps_cards_markActionBy c s) as Hk.
    unfold cards_of in Hk. by injection Hk. }
  assert (Hcol : enforcedColor s5 = enforcedColor s) by congruence.
  assert (Hcur : currentPlayerIndex s5 = Some c) by congruence.
  exists c, hand, top.
  assert (Hlast : last (discardPileCards s) = Some top) by congruence.
  rewrite Hcol in H.
  destruct (canPlay card' top (enforcedColor s)) eqn:Hp; simpl in H.
  - munfold. injection H as <- <-.
    repeat split; try congruence;
      try (rewrite U2; congruence); try (rewrite U1; congruence).
  - bind_open H as u8 s8 Hadv. apply (advance_Return _ _ _ _ c Hcur) in Hadv as ->.
    unfold ret in H. injection H as <- <-. simpl.
    assert (direction s5 = direction s) as -> by congruence.
    assert (playerCount s5 = playerCount s) as -> by congruence.
    rewrite mod_modulo by lia. rewrite Z.mul_1_l.
    repeat split; try congruence;
      try (rewrite U2; congruence); try (rewrite U1; congruence).
    by apply step_moves.
Qed.

(** What a call of [play] that returns went through before the card left
    the hand. *)
Lemma play_Return_start s i color card s' :
  play canPlay shuffler i color s = Return card s' ->
  ended s = false /\
  exists c hand card0 top,
    currentPlayerIndex s = Some c /\ item (hands s) c = Some hand /\
    item hand i = Some card0 /\ last (discardPileCards s) = Some top /\
    canPlay card0 top (enforcedColor s) = true.
Proof.
  intros H. unfold play in H.
  bind_open H as u0 s0 H0. apply ensureActiveRound_Return in H0 as [-> He].
  bind_open H as c s0 H0. apply ensureCurrentPlayer_Return in H0 as [-> Hc].
  bind_open H as u1 s1 H1. apply ensureCardIndex_Return in H1 as [-> _].
  bind_open H as u2 s2 H2.
  assert (s2 = marked c s) as -> by (unfold marked; by rewrite H2).
  destruct (marked_fields c s) as (Mh & Md & Mp & _ & Mt).
  unfold turn_of in Mt. injection Mt as _ _ _ _ _ Mc Me Mn _ _ _.
  bind_open H as hand s3 H3. apply handOf_Return in H3 as [-> Hh].
  bind_open H as card0 s4 H4. apply defined_Return in H4 as [Hi ->].
  bind_open H as playable s5 H5.
  destruct playable; [|done].
  apply canPlayIndex_true in H5 as (-> & _ & c' & hand' & card' & top & P1 & P2 & P3 & P4 & P5).
  split; [done|]. exists c, hand, card0, top.
  assert (c' = c) as -> by congruence.
  assert (hand' = hand) as -> by congruence.
  assert (card' = card0) as -> by congruence.
  repeat split; congruence.
Qed.

Lemma playColor_Return card color s u s' :
  playColor card color s = Return u s' ->
  exists v, s' = set_enforcedColor v s /\
    (if isWild card then is_Some v /\ v = color else v = None /\ color = None).
Proof.
  unfold playColor. destruct (isWild card).
  - destruct color as [col|]; [|done]. unfold ensureColorValue. munfold.
    destruct (bool_decide _); [|done]. intros [= <-]. by exists (Some col).
  - destruct color as [col|]; [done|]. munfold. intros [= <-]. by exists None.
Qed.

Lemma turn_penalty n :
  keeps turn_of
    (let* victim := nextIndexFromCurrent 1 in
     applyPenalty shuffler victim n;;; markActionBy victim;;; ret 2).
Proof. keeps_tac. Qed.

Lemma penalty_steps n s steps s' :
  (let* victim := nextIndexFromCurrent 1 in
   applyPenalty shuffler victim n;;; markActionBy victim;;; ret 2) s = Return steps s' ->
  steps = 2.
Proof.
  intros H. bind_open H as v s1 H1. bind_open H as u2 s2 H2.
  bind_open H as u3 s3 H3. by injection H as <-.
Qed.

Lemma playEffect_Return card s steps s' :
  playEffect shuffler card s = Return steps s' ->
  steps = stepsOf card (playerCount s) /\
  direction s' = directionAfter card (direction s) /\
  playerCount s' = playerCount s /\
  currentPlayerIndex s' = currentPlayerIndex s /\ ended s' = ended s.
Proof.
  destruct card; simpl; intros H.
  1,2,5: munfold; by injection H as <- <-.
  - munfold. destruct (playerCount s =? 2); injection H as <- <-; simpl;
      repeat split; lia.
  - pose proof (keeps_Return _ _ _ _ _ (turn_penalty 2) H) as Ht.
    apply penalty_steps in H. unfold turn_of in Ht. by injection Ht as -> _ _ _ -> -> _ -> _ _ _.
  - pose proof (keeps_Return _ _ _ _ _ (turn_penalty 4) H) as Ht.
    apply penalty_steps in H. unfold turn_of in Ht. by injection Ht as -> _ _ _ -> -> _ -> _ _ _.
Qed.

Lemma finishRound_Return w s u s' :
  finishRound w s = Return u s' -> ended s' = true /\ pendingUno s' = pendingUno s.
Proof.
  unfold finishRound. munfold.
  destruct (ended s) eqn:E; simpl; intros ?; simplify_eq; simpl; auto.
Qed.

(** C4: a call of [play] that returns and leaves the round running has moved
    the turn from seat [c] to seat [(c + steps * direction) mod playerCount],
    which lies in [0, playerCount); [steps] is 1 for a numbered or wild card,
    2 for skip, draw-two and wild-draw-four, and for a reverse card, which
    flips the direction first, 1 among more than two players and 2 between
    two, where the turn thus comes back to the same seat as after a skip. *)
Theorem C4_play_advances_turn s i color card s' :
  0 < playerCount s ->
  play canPlay shuffler i color s = Return card s' ->
  ended s' = false ->
  exists c,
    currentPlayerIndex s = Some c /\
    playerCount s' = playerCount s /\
    direction s' = directionAfter card (direction s) /\
    currentPlayerIndex s' =
      Some ((c + stepsOf card (playerCount s) * direction s') mod playerCount s) /\
    0 <= (c + stepsOf card (playerCount s) * direction s') mod playerCount s < playerCount s /\
    (playerCount s = 2 -> stepsOf card (playerCount s) = 2 ->
     currentPlayerIndex s' = Some (c mod 2)).
Proof.
  intros Hn H He'.
  pose proof H as Hstart.
  apply play_Return_start in Hstart
    as (He & c & hand & card0 & top & Hc & Hh & Hi & Ht & Hp).
  rewrite (play_moves_card canPlay shuffler s c hand card0 i top color He Hc Hh Hi Ht Hp) in H.
  destruct (marked_fields c s) as (_ & _ & _ & _ & Mt).
  unfold turn_of in Mt. injection Mt as Mn _ _ _ Md Mc _ Me _ _ _.
  bind_open H as u1 s1 H1.
  apply playColor_Return in H1 as (v & -> & _).
  bind_open H as steps s2 H2.
  apply playEffect_Return in H2 as (-> & Hd2 & Hn2 & Hc2 & He2). simpl in *.
  bind_open H as u3 s3 H3.
  pose proof (keeps_Return _ _ _ _ _ (turn_updateUnoStateFor c) H3) as Ut.
  unfold turn_of in Ut. injection Ut as Un _ _ _ Ud Uc _ Ue _ _ _.
  bind_open H as hand' s4 H4. apply handOf_Return in H4 as [-> Hh'].
  destruct (len hand' =? 0).
  { bind_open H as u5 s5 H5. bind_open H as u6 s6 H6.
    apply finishRound_Return in H6 as [H6 _]. unfold ret in H. injection H as _ <-.
    congruence. }
  bind_open H as e s5 H5. unfold gets in H5. injection H5 as <- <-.
  assert (ended s3 = false) as E3 by congruence. rewrite E3 in H. simpl in H.
  bind_open H as u6 s6 H6.
  assert (currentPlayerIndex s3 = Some c) as C3 by congruence.
  apply (advance_Return _ _ _ _ c C3) in H6 as ->.
  unfold ret in H. injection H as <- <-. simpl.
  assert (playerCount s3 = playerCount s) as -> by congruence.
  assert (direction s3 = directionAfter card0 (direction s)) as -> by congruence.
  rewrite Mn. rewrite mod_modulo by done.
  exists c. repeat split; try done; try (apply Z.mod_pos_bound; lia).
  intros H2 ->. rewrite H2. f_equal.
  rewrite Z.mul_comm, Z.mod_add; [done | lia].
Qed.

End Turns.

(** Witness of C4: the first player of the sample round plays the red one. *)
Lemma C4_play_advances_turn_witness :
  exists c,
    currentPlayerIndex sampleRound = Some c /\
    playerCount afterRedOne = playerCount sampleRound /\
    direction afterRedOne = directionAfter (NUMBERED RED 1) (direction sampleRound) /\
    currentPlayerIndex afterRedOne =
      Some ((c + stepsOf (NUMBERED RED 1) (playerCount sampleRound) * direction afterRedOne)
            mod playerCount sampleRound) /\
    0 <= (c + stepsOf (NUMBERED RED 1) (playerCount sampleRound) * direction afterRedOne)
         mod playerCount sampleRound < playerCount sampleRound /\
    (playerCount sampleRound = 2 ->
     stepsOf (NUMBERED RED 1) (playerCount sampleRound) = 2 ->
     currentPlayerIndex afterRedOne = Some (c mod 2)).
Proof.
  apply (C4_play_advances_turn uno_canPlay identityShuffler sampleRound 1 None
           (NUMBERED RED 1) afterRedOne); [simpl; lia | reflexivity | reflexivity].
Defined.

(** Witness of C5: the first player of the stocked sample round draws a green
    seven, which cannot be played on the red five. *)
Lemma C5_draw_takes_one_card_witness :
  exists c hand top,
    currentPlayerIndex stockedRound = Some c /\ item (hands stockedRound) c = Some hand /\
    last (discardPileCards stockedRound) = Some top /\
    NUMBERED GREEN 7 :: drawPileCards afterDraw = drawSource identityShuffler stockedRound /\
    hands afterDraw = <[Z.to_nat c := hand ++ [NUMBERED GREEN 7]]> (hands stockedRound) /\
    last (discardPileCards afterDraw) = Some top /\
    enforcedColor afterDraw = enforcedColor stockedRound /\
    direction afterDraw = direction stockedRound /\
    (uno_canPlay (NUMBERED GREEN 7) top (enforcedColor stockedRound) = true ->
     currentPlayerIndex afterDraw = Some c) /\
    (uno_canPlay (NUMBERED GREEN 7) top (enforcedColor stockedRound) = false ->
     currentPlayerIndex afterDraw =
       Some ((c + direction stockedRound) mod playerCount stockedRound) /\
     currentPlayerIndex afterDraw <> Some c).
Proof.
  apply (C5_draw_takes_one_card uno_canPlay identityShuffler stockedRound
           (NUMBERED GREEN 7) afterDraw); [simpl; lia | by left | reflexivity].
Defined.

(** ** Penalty draws *)

Section Penalties.

Variable shuffler : nat -> list Card -> list Card.
Hypothesis shuffler_perm : forall n cards, shuffler n cards ≡ₚ cards.

Lemma takeFromDrawPile_available s :
  (0 < available s)%nat ->
  exists card s',
    takeFromDrawPile shuffler s = Return card s' /\
    available s' = (available s - 1)%nat.
Proof.
  unfold available. intros Ha.
  destruct (drawPileCards s) as [|c pile] eqn:Hd.
  - simpl in Ha.
    destruct (last (discardPileCards s)) as [top|] eqn:Ht.
    2:{ apply last_None in Ht. rewrite Ht in Ha. simpl in Ha. lia. }
    assert (1 < len (discardPileCards s)) as Hl by (unfold len; lia).
    pose proof (refillDrawPile_empty shuffler s top Hd Hl Ht) as Hr.
    remember (take (length (discardPileCards s) - 1) (discardPileCards s)) as rest eqn:Hrest.
    assert (length rest = (length (discardPileCards s) - 1)%nat) as Hlen.
    { subst rest. rewrite length_take. lia. }
    pose proof (Permutation_length (shuffler_perm (shuffles s) rest)) as Hp.
    destruct (shuffler (shuffles s) rest) as [|card pile] eqn:Es; simpl in Hp; [lia|].
    exists card. eexists. split.
    { unfold takeFromDrawPile. unfold bind at 1, gets at 1. rewrite Hd. simpl.
      unfold bind at 1. rewrite Hr. munfold. simpl. reflexivity. }
    simpl. lia.
  - exists c. eexists. split; [by apply takeFromDrawPile_stocked|]. simpl. lia.
Qed.

Lemma takeFromDrawPile_unavailable s :
  available s = 0%nat ->
  takeFromDrawPile shuffler s = Throw "Cannot replenish draw pile" s.
Proof.
  unfold available. intros Ha. apply takeFromDrawPile_exhausted.
  - destruct (drawPileCards s); [done | simpl in Ha; lia].
  - unfold len. lia.
Qed.

(** The loop of a penalty draw: [n] cards go to the end of the hand. *)
Lemma drawCards_Return n p s u s' hand :
  item (hands s) p = Some hand ->
  drawCards shuffler n p s = Return u s' ->
  exists cards,
    length cards = n /\ hands s' = <[Z.to_nat p := hand ++ cards]> (hands s) /\
    available s' = (available s - n)%nat /\ (n <= available s)%nat /\
    last (discardPileCards s') = last (discardPileCards s) /\
    unoDeclared s' = unoDeclared s /\ pendingUno s' = pendingUno s.
Proof.
  revert s hand. induction n as [|n IH]; intros s hand Hh H; simpl in H.
  - unfold ret in H. simplify_eq. exists []. rewrite app_nil_r.
    apply item_Some in Hh as [_ Hh]. rewrite list_insert_id by done.
    repeat split; (lia || done).
  - bind_open H as h0 s0 B0. apply handOf_Return in B0 as [-> _].
    bind_open H as card s1 B1.
    destruct (Nat.eq_dec (available s) 0%nat) as [Ha|Ha].
    { by rewrite takeFromDrawPile_unavailable in B1. }
    destruct (takeFromDrawPile_available s ltac:(lia)) as (card' & s1' & Et & Ea).
    rewrite B1 in Et. injection Et as <- <-.
    apply takeFromDrawPile_Return in B1 as (_ & Tl & _ & _ & Th & Tu & Tp & _).
    bind_open H as h1 s2 B2. apply handOf_Return in B2 as [-> Hh1].
    rewrite Th, Hh in Hh1. injection Hh1 as <-.
    bind_open H as u3 s3 B3. unfold setHand, modify in B3. simplify_eq.
    pose proof Hh as [Hp0 Hl]%item_Some. apply lookup_lt_Some in Hl.
    apply (IH _ (hand ++ [card])) in H as (cards & Hc & Hs & Hav & Hle & Hla & Hu & Hpu).
    2:{ simpl. apply item_Some. split; [done|]. rewrite Th.
        by apply list_lookup_insert_eq. }
    simpl in *. exists (card :: cards). simpl.
    rewrite Hs, Th, list_insert_insert_eq, <- app_assoc. simpl.
    unfold available in *. simpl in *.
    repeat split; (lia || congruence).
Qed.

Lemma drawCards_enough n p s hand :
  item (hands s) p = Some hand -> (n <= available s)%nat ->
  exists s', drawCards shuffler n p s = Return tt s'.
Proof.
  revert s hand. induction n as [|n IH]; intros s hand Hh Hn; simpl.
  - by eexists.
  - rewrite (bind_eq _ _ _ _ _ (handOf_eq p s hand Hh)).
    destruct (takeFromDrawPile_available s ltac:(lia)) as (card & s1 & Et & Ea).
    rewrite (bind_eq _ _ _ _ _ Et).
    apply takeFromDrawPile_Return in Et as (_ & _ & _ & _ & Th & _ & _ & _).
    rewrite <- Th in Hh.
    rewrite (bind_eq _ _ _ _ _ (handOf_eq p s1 hand Hh)).
    unfold setHand. unfold bind at 1, modify at 1.
    pose proof Hh as [Hp0 Hl]%item_Some. apply lookup_lt_Some in Hl.
    apply (IH _ (hand ++ [card])).
    + simpl. apply item_Some. split; [done|]. by apply list_lookup_insert_eq.
    + unfold available in *. simpl. lia.
Qed.

Lemma drawCards_short n p s hand :
  item (hands s) p = Some hand -> (available s < n)%nat ->
  exists s', drawCards shuffler n p s = Throw "Cannot replenish draw pile" s'.
Proof.
  revert s hand. induction n as [|n IH]; intros s hand Hh Hn; simpl; [lia|].
  rewrite (bind_eq _ _ _ _ _ (handOf_eq p s hand Hh)).
  destruct (Nat.eq_dec (available s) 0%nat) as [Ha|Ha].
  { unfold bind. rewrite takeFromDrawPile_unavailable by done. by eexists. }
  destruct (takeFromDrawPile_available s ltac:(lia)) as (card & s1 & Et & Ea).
  rewrite (bind_eq _ _ _ _ _ Et).
  apply takeFromDrawPile_Return in Et as (_ & _ & _ & _ & Th & _ & _ & _).
  rewrite <- Th in Hh.
  rewrite (bind_eq _ _ _ _ _ (handOf_eq p s1 hand Hh)).
  unfold setHand. unfold bind at 1, modify at 1.
  pose proof Hh as [Hp0 Hl]%item_Some. apply lookup_lt_Some in Hl.
  apply (IH _ (hand ++ [card])).
  + simpl. apply item_Some. split; [done|]. by apply list_lookup_insert_eq.
  + unfold available in *. simpl. lia.
Qed.

End Penalties.

(** ** Accusations *)

Lemma indexError_None index count :
  indexError index count = None <-> exists i, index = Int i /\ 0 <= i < count.
Proof.
  unfold indexError.
  destruct (ensureIndex index count "player") as [i|msg] eqn:E.
  - apply ensureIndex_ok in E. split; [eauto | done].
  - split; [done|]. intros (i & Hi & Hr).
    by rewrite (proj2 (ensureIndex_ok index count "player" i)) in E.
Qed.

Lemma indexError_Some index count msg :
  indexError index count = Some msg ->
  msg = "player must be an integer" \/ msg = "player is out of bounds".
Proof.
  unfold indexError, ensureIndex. destruct index as [i|]; [|intros [= <-]; by left].
  destruct (_ || _); [intros [= <-]; by right | done].
Qed.

Lemma ensurePlayerIndex_error index s msg :
  indexError index (playerCount s) = Some msg ->
  ensurePlayerIndex index s = Throw msg s.
Proof.
  unfold indexError, ensurePlayerIndex. munfold.
  destruct (ensureIndex _ _ _); [done | by intros [= ->]].
Qed.

Lemma updateUnoStateFor_grown p s hand :
  item (hands s) p = Some hand -> len hand <> 1 -> pendingUno s = None ->
  updateUnoStateFor p s =
    Return tt (set_unoDeclared (assign false (unoDeclared s) p false) s).
Proof.
  intros Hh Hl Hp. unfold updateUnoStateFor.
  rewrite (bind_eq _ _ _ _ _ (handOf_eq p s hand Hh)).
  destruct (len hand =? 1) eqn:E; [apply Z.eqb_eq in E; done|].
  unfold setDeclared, clearPendingOf. munfold. simpl. rewrite Hp. simpl. by rewrite Hp.
Qed.

Section Accusations.

Variable shuffler : nat -> list Card -> list Card.
Hypothesis shuffler_perm : forall n cards, shuffler n cards ≡ₚ cards.

Lemma catchable_true s b :
  catchable s b = true ->
  exists p card,
    pendingUno s = Some p /\ uno_player p = b /\ windowOpen p = true /\
    declared s b = false /\ item (hands s) b = Some [card].
Proof.
  unfold catchable. destruct (pendingUno s) as [p|]; [|done].
  intros H. apply andb_prop in H as [H H4]. apply andb_prop in H as [H H3].
  apply andb_prop in H as [H1 H2]. apply Z.eqb_eq in H1.
  destruct (item (hands s) b) as [hand|]; [|done].
  apply Z.eqb_eq in H4. unfold len in H4.
  destruct hand as [|card [|c2 hand]]; simpl in H4; try lia.
  exists p, card. apply negb_true_iff in H3. done.
Qed.

Lemma catchUnoFailure_false s a b :
  0 <= a < playerCount s -> 0 <= b < playerCount s ->
  len (hands s) = playerCount s ->
  catchable s b = false ->
  catchUnoFailure shuffler (Int a) (Int b) s = Return false s.
Proof.
  intros Ha Hb Hs Hc. unfold catchUnoFailure.
  rewrite (bind_eq _ _ _ _ _ (ensurePlayerIndex_eq s a Ha)).
  rewrite (bind_eq _ _ _ _ _ (ensurePlayerIndex_eq s b Hb)).
  unfold bind at 1, gets at 1. unfold catchable in Hc.
  destruct (pendingUno s) as [p|]; [|done].
  destruct (uno_player p =? b); [|done]. destruct (windowOpen p); [|done]. simpl in *.
  unfold bind at 1, gets at 1. destruct (declared s b); [done|]. simpl in *.
  destruct (item_is_Some (hands s) b ltac:(lia)) as [hand Hh].
  rewrite Hh in Hc. rewrite (bind_eq _ _ _ _ _ (handOf_eq b s hand Hh)).
  by rewrite Hc.
Qed.

Lemma catchUnoFailure_true s a b :
  0 <= a < playerCount s -> 0 <= b < playerCount s ->
  catchable s b = true ->
  catchUnoFailure shuffler (Int a) (Int b) s =
    (applyPenalty shuffler b 4;;; setDeclared b false;;; ret true)
      (set_pendingUno None s).
Proof.
  intros Ha Hb Hc. unfold catchUnoFailure.
  apply catchable_true in Hc as (p & card & Hp & H1 & H2 & H3 & H4).
  rewrite (bind_eq _ _ _ _ _ (ensurePlayerIndex_eq s a Ha)).
  rewrite (bind_eq _ _ _ _ _ (ensurePlayerIndex_eq s b Hb)).
  unfold bind at 1, gets at 1. rewrite Hp, H1, Z.eqb_refl, H2. simpl.
  unfold bind at 1, gets at 1. rewrite H3.
  rewrite (bind_eq _ _ _ _ _ (handOf_eq b s [card] H4)). simpl.
  reflexivity.
Qed.

(** C7, as the code has it.  With both indices in bounds: if the conditions
    of an accusation are not all met the call returns false and the round is
    as before; if they are met and four cards can still be handed out, the
    call returns true, the accused's hand is the old hand followed by four
    cards, the other hands are untouched and no window is pending; if they
    are met and fewer than four cards can be handed out, the call throws.
    With an index that is not an integer or out of bounds the call throws
    the index error and the round is as before. *)
Theorem C7_catchUnoFailure s accuser accused :
  len (hands s) = playerCount s ->
  (forall a b, accuser = Int a -> accused = Int b ->
     0 <= a < playerCount s -> 0 <= b < playerCount s ->
     (catchable s b = false ->
      catchUnoFailure shuffler accuser accused s = Return false s) /\
     (catchable s b = true -> (4 <= available s)%nat ->
      exists hand cards s',
        catchUnoFailure shuffler accuser accused s = Return true s' /\
        item (hands s) b = Some hand /\ length hand = 1%nat /\ length cards = 4%nat /\
        hands s' = <[Z.to_nat b := hand ++ cards]> (hands s) /\
        pendingUno s' = None /\ turn_of s' = turn_of s) /\
     (catchable s b = true -> (available s < 4)%nat ->
      exists s',
        catchUnoFailure shuffler accuser accused s =
          Throw "Cannot replenish draw pile" s')) /\
  (forall msg, indexError accuser (playerCount s) = Some msg ->
     catchUnoFailure shuffler accuser accused s = Throw msg s) /\
  (forall msg, indexError accuser (playerCount s) = None ->
     indexError accused (playerCount s) = Some msg ->
     catchUnoFailure shuffler accuser accused s = Throw msg s).
Proof.
  intros Hs. split; [|split].
  - intros a b -> -> Ha Hb. split; [|split].
    + by apply catchUnoFailure_false.
    + intros Hc Hav. rewrite (catchUnoFailure_true s a b Ha Hb Hc).
      apply catchable_true in Hc as (p & card & Hp & H1 & H2 & H3 & H4).
      set (s0 := set_pendingUno None s).
      assert (item (hands s0) b = Some [card]) as Hh0 by done.
      destruct (drawCards_enough shuffler shuffler_perm 4 b s0 [card] Hh0 Hav) as [s1 Hd].
      pose proof (drawCards_Return shuffler shuffler_perm 4 b s0 tt s1 [card] Hh0 Hd)
        as (cards & Hl & Hhs & _ & _ & _ & _ & Hpu).
      pose proof (keeps_Return _ _ _ _ _ (turn_drawCards shuffler 4 b) Hd) as Ht.
      exists [card], cards. eexists. split.
      { unfold applyPenalty, drawCardsForPlayer. change (Z.to_nat 4) with 4%nat.
        unfold bind at 1. unfold bind at 1. rewrite Hd.
        rewrite (updateUnoStateFor_grown b s1 ([card] ++ cards)).
        - unfold setDeclared. munfold. reflexivity.
        - rewrite Hhs. apply item_Some. split; [lia|].
          apply list_lookup_insert_eq. apply item_Some in Hh0 as [_ Hh0].
          by apply lookup_lt_Some in Hh0.
        - unfold len. rewrite length_app, Hl. simpl. lia.
        - by rewrite Hpu. }
      simpl. repeat split; done.
    + intros Hc Hav. rewrite (catchUnoFailure_true s a b Ha Hb Hc).
      apply catchable_true in Hc as (p & card & Hp & H1 & H2 & H3 & H4).
      set (s0 := set_pendingUno None s).
      assert (item (hands s0) b = Some [card]) as Hh0 by done.
      destruct (drawCards_short shuffler shuffler_perm 4 b s0 [card] Hh0 Hav) as [s1 Hd].
      exists s1. unfold applyPenalty, drawCardsForPlayer. change (Z.to_nat 4) with 4%nat.
      unfold bind at 1. unfold bind at 1. by rewrite Hd.
  - intros msg He. unfold catchUnoFailure. unfold bind at 1.
    by rewrite (ensurePlayerIndex_error accuser s msg He).
  - intros msg Ha He. apply indexError_None in Ha as (a & -> & Ha).
    unfold catchUnoFailure.
    rewrite (bind_eq _ _ _ _ _ (ensurePlayerIndex_eq s a Ha)).
    unfold bind at 1. by rewrite (ensurePlayerIndex_error accused s msg He).
Qed.

End Accusations.

(** Witness of C7: in the accusable round the second player catches the
    first, who then holds five cards. *)
Lemma C7_catchUnoFailure_witness :
  exists hand cards s',
    catchUnoFailure identityShuffler (Int 1) (Int 0) accusableRound = Return true s' /\
    item (hands accusableRound) 0 = Some hand /\ length hand = 1%nat /\
    length cards = 4%nat /\
    hands s' = <[Z.to_nat 0 := hand ++ cards]> (hands accusableRound) /\
    pendingUno s' = None /\ turn_of s' = turn_of accusableRound.
Proof.
  destruct (C7_catchUnoFailure identityShuffler ltac:(by intros n cards)
              accusableRound (Int 1) (Int 0) eq_refl) as [H _].
  destruct (H 1 0 eq_refl eq_refl ltac:(by vm_compute) ltac:(by vm_compute)) as (_ & Hok & _).
  apply Hok; [reflexivity | vm_compute; lia].
Defined.

(** C7 as stated fails: after the red one was played from the sample memento
    the first player can be caught, but only one card can be handed out, and
    the accusation throws instead of returning true. *)
Lemma C7_counterexample :
  ~ (forall s a b,
       reachable uno_canPlay identityShuffler [] s ->
       0 <= a < playerCount s -> 0 <= b < playerCount s ->
       catchable s b = true ->
       exists s', catchUnoFailure identityShuffler (Int a) (Int b) s = Return true s').
Proof.
  intros H.
  destruct (H afterRedOne 1 0) as [s' Hs'].
  - apply (reachable_call _ _ _ sampleRound (Play 1 None)).
    + by apply (reachable_memento _ _ _ sampleMemento).
    + reflexivity.
  - by vm_compute.
  - by vm_compute.
  - reflexivity.
  - vm_compute in Hs'. discriminate.
Qed.

(** ** Shape *)

Lemma assign_length {A} (hole : A) l p v :
  0 <= p < len l -> length (assign hole l p v) = length l.
Proof.
  intros [H0 H1]. unfold assign, len in *.
  destruct (p <? 0) eqn:E1; [done|].
  destruct (p <? Z.of_nat (length l)) eqn:E2; [by rewrite length_insert|].
  apply Z.ltb_ge in E2. lia.
Qed.

Section Shapes.

Variable shuffler : nat -> list Card -> list Card.

Lemma keeps_turn_ended {A} (m : M A) : keeps turn_of m -> keeps ended m.
Proof. intros H s. specialize (H s). unfold turn_of in H. by injection H. Qed.

Lemma count_setHand p h : keeps handCount (setHand p h).
Proof.
  unfold setHand. apply keeps_modify. intros s. unfold handCount. simpl.
  by rewrite length_insert.
Qed.

Lemma count_markActionBy p : keeps handCount (markActionBy p).
Proof. unfold markActionBy. keeps_tac. Qed.

Lemma count_clearPendingOf p : keeps handCount (clearPendingOf p).
Proof. unfold clearPendingOf. keeps_tac. Qed.

Lemma count_setDeclared p v : keeps handCount (setDeclared p v).
Proof. unfold setDeclared. keeps_tac. Qed.

Hint Resolve count_setHand count_markActionBy count_clearPendingOf
  count_setDeclared : keeps.

Lemma count_updateUnoStateFor p : keeps handCount (updateUnoStateFor p).
Proof. unfold updateUnoStateFor. keeps_tac. Qed.

Lemma count_refillDrawPile : keeps handCount (refillDrawPile shuffler).
Proof. unfold refillDrawPile. keeps_tac. Qed.

Hint Resolve count_updateUnoStateFor count_refillDrawPile : keeps.

Lemma count_takeFromDrawPile : keeps handCount (takeFromDrawPile shuffler).
Proof. unfold takeFromDrawPile. keeps_tac. Qed.

Hint Resolve count_takeFromDrawPile : keeps.

Lemma count_drawCards n p : keeps handCount (drawCards shuffler n p).
Proof. induction n; simpl; keeps_tac. Qed.

Hint Resolve count_drawCards : keeps.

Lemma count_applyPenalty p n : keeps handCount (applyPenalty shuffler p n).
Proof. unfold applyPenalty, drawCardsForPlayer. keeps_tac. Qed.

Lemma declared_markActionBy p : keeps unoDeclared (markActionBy p).
Proof. unfold markActionBy. keeps_tac. Qed.

Lemma declared_clearPendingOf p : keeps unoDeclared (clearPendingOf p).
Proof. unfold clearPendingOf. keeps_tac. Qed.

Hint Resolve declared_markActionBy declared_clearPendingOf : keeps.

(** [updateUnoStateFor] needs the player's hand, and writes at most the
    player's own flag. *)
Lemma updateUnoStateFor_declared p s u s' :
  updateUnoStateFor p s = Return u s' ->
  is_Some (item (hands s) p) /\
  (unoDeclared s' = unoDeclared s \/
   unoDeclared s' = assign false (unoDeclared s) p false).
Proof.
  unfold updateUnoStateFor. intros H.
  bind_open H as hand s0 B0. apply handOf_Return in B0 as [-> Hh].
  split; [by eexists|].
  bind_open H as u1 s1 B1.
  assert (unoDeclared s' = unoDeclared s1) as ->.
  { revert H. apply keeps_Return. keeps_tac. }
  destruct (len hand =? 1).
  - left. revert B1. apply keeps_Return. keeps_tac.
  - right. bind_open B1 as u2 s2 B2. unfold setDeclared, modify in B2. simplify_eq.
    revert B1. apply (keeps_Return unoDeclared). keeps_tac.
Qed.

Lemma updateUnoStateFor_length p s u s' :
  len (unoDeclared s) = len (hands s) ->
  updateUnoStateFor p s = Return u s' ->
  length (unoDeclared s') = length (unoDeclared s).
Proof.
  intros Hl H. apply updateUnoStateFor_declared in H as [[hand Hh] [-> | ->]]; [done|].
  apply assign_length. apply item_lt in Hh. lia.
Qed.

(** A round stays in shape when its players, dealer and direction stay and
    its arrays keep their lengths. *)
Lemma Shaped_transfer s s' :
  Shaped s -> turn_of s' = turn_of s -> handCount s' = handCount s ->
  length (unoDeclared s') = length (unoDeclared s) -> Shaped s'.
Proof.
  intros [H1 H2 H3 H4 H5 H6] Ht Hh Hu. unfold turn_of in Ht. unfold handCount in Hh.
  injection Ht as E1 E2 E3 _ E5 _ _ _ _ _ _.
  unfold len in *. split; unfold len; congruence.
Qed.

Lemma Shaped_in_range s p :
  Shaped s -> 0 <= p < playerCount s ->
  0 <= p < len (unoDeclared s) /\ is_Some (item (hands s) p).
Proof.
  intros [H1 H2 H3 H4 H5 H6] Hp. split; [lia|]. apply item_is_Some. lia.
Qed.

Lemma nonempty_except_append c (hs : list (list Card)) (p : nat) hand cards :
  hs !! p = Some hand -> nonempty_except c hs ->
  nonempty_except c (<[p := hand ++ cards]> hs).
Proof.
  intros Hp Hn i h Hi Hc. destruct (decide (i = p)) as [->|Hne].
  - rewrite list_lookup_insert_eq in Hi by (by apply lookup_lt_Some in Hp).
    injection Hi as <-. intros [E _]%app_eq_nil. by apply (Hn p hand Hp Hc).
  - rewrite list_lookup_insert_ne in Hi by done. by apply (Hn i h Hi Hc).
Qed.

(** The loop of a penalty draw, whatever the shuffler does. *)
Lemma drawCards_hands n p s u s' hand :
  item (hands s) p = Some hand ->
  drawCards shuffler n p s = Return u s' ->
  exists cards,
    length cards = n /\ hands s' = <[Z.to_nat p := hand ++ cards]> (hands s) /\
    last (discardPileCards s') = last (discardPileCards s) /\
    unoDeclared s' = unoDeclared s /\ pendingUno s' = pendingUno s.
Proof.
  revert s hand. induction n as [|n IH]; intros s hand Hh H; simpl in H.
  - unfold ret in H. simplify_eq. exists []. rewrite app_nil_r.
    apply item_Some in Hh as [_ Hh]. rewrite list_insert_id by done. done.
  - bind_open H as h0 s0 B0. apply handOf_Return in B0 as [-> _].
    bind_open H as card s1 B1.
    apply takeFromDrawPile_Return in B1 as (_ & Tl & _ & _ & Th & Tu & Tp & _).
    bind_open H as h1 s2 B2. apply handOf_Return in B2 as [-> Hh1].
    rewrite Th, Hh in Hh1. injection Hh1 as <-.
    bind_open H as u3 s3 B3. unfold setHand, modify in B3. simplify_eq.
    pose proof Hh as [Hp0 Hl]%item_Some. apply lookup_lt_Some in Hl.
    apply (IH _ (hand ++ [card])) in H as (cards & Hc & Hs & Hla & Hu & Hpu).
    2:{ simpl. apply item_Some. split; [done|]. rewrite Th.
        by apply list_lookup_insert_eq. }
    simpl in *. exists (card :: cards). simpl.
    rewrite Hs, Th, list_insert_insert_eq, <- app_assoc. simpl.
    repeat split; congruence.
Qed.

Lemma applyPenalty_Return p n s u s' :
  Shaped s -> 0 <= p < playerCount s ->
  applyPenalty shuffler p n s = Return u s' ->
  Shaped s' /\ turn_of s' = turn_of s /\
  last (discardPileCards s') = last (discardPileCards s) /\
  forall c, nonempty_except c (hands s) -> nonempty_except c (hands s').
Proof.
  intros Hs Hp H.
  pose proof (keeps_Return _ _ _ _ _ (turn_applyPenalty shuffler p n) H) as Ht.
  pose proof (keeps_Return _ _ _ _ _ (count_applyPenalty p n) H) as Hc.
  destruct (Shaped_in_range s p Hs Hp) as [Hr [hand Hh]].
  unfold applyPenalty, drawCardsForPlayer in H.
  bind_open H as u1 s1 B1.
  apply (drawCards_hands _ _ _ _ _ hand Hh) in B1 as (cards & _ & Hhs & Hl & Hu1 & _).
  pose proof (keeps_Return _ _ _ _ _ (keeps_cards_updateUnoStateFor p) H) as Hk.
  unfold cards_of in Hk. injection Hk as K1 _ K3 _ _.
  assert (length (unoDeclared s') = length (unoDeclared s)) as Hu.
  { rewrite <- Hu1. apply (updateUnoStateFor_length p s1 u); [|done].
    unfold len. rewrite Hu1, Hhs, length_insert.
    destruct Hs as [_ _ H3 H4 _ _]. unfold len in *. lia. }
  split; [by apply (Shaped_transfer s)|]. split; [done|].
  split; [congruence|]. intros c Hn. rewrite K1, Hhs.
  apply item_Some in Hh as [_ Hh]. by apply nonempty_except_append.
Qed.

End Shapes.

#[global] Hint Resolve keeps_turn_ended count_setHand count_markActionBy
  count_clearPendingOf count_setDeclared count_updateUnoStateFor
  count_refillDrawPile count_takeFromDrawPile count_drawCards count_applyPenalty
  declared_markActionBy declared_clearPendingOf : keeps.

(** ** The invariant *)

Lemma Shaped_shape s s' : Shaped s -> shape_of s' = shape_of s -> Shaped s'.
Proof.
  intros [H1 H2 H3 H4 H5 H6] E. unfold shape_of, handCount in E.
  injection E as E1 E2 E3 E4 E5 E6.
  unfold len in *. split; unfold len; congruence.
Qed.

Lemma Shaped_reversed s :
  Shaped s -> Shaped (set_direction (direction s * -1) s).
Proof.
  intros [H1 H2 H3 H4 H5 H6]. split; simpl; try done. lia.
Qed.

Lemma shape_of_turn s s' :
  turn_of s' = turn_of s -> handCount s' = handCount s ->
  length (unoDeclared s') = length (unoDeclared s) -> shape_of s' = shape_of s.
Proof.
  unfold turn_of, shape_of. intros Ht Hc Hu.
  injection Ht as E1 E2 E3 _ E5 _ _ _ _ _ _. congruence.
Qed.

Lemma nonempty_all (hs : list (list Card)) :
  winnersFrom 0 hs = [] <-> nonempty_except None hs.
Proof.
  rewrite winnersFrom_none. unfold nonempty_except. split.
  - intros H i h Hi _. by apply (H i h).
  - intros H i h Hi. by apply (H i h).
Qed.

Lemma winnersFrom_one_except k (hs : list (list Card)) (c : nat) :
  hs !! c = Some [] -> nonempty_except (Some c) hs ->
  winnersFrom k hs = [k + Z.of_nat c].
Proof.
  intros Hc Hn. apply winnersFrom_one; [done|].
  intros i h Hi Hne. apply (Hn i h Hi). congruence.
Qed.

Lemma nonempty_weaken c (hs : list (list Card)) :
  nonempty_except None hs -> nonempty_except c hs.
Proof. intros H i h Hi _. by apply (H i h). Qed.

Section Invariant.

Variable canPlay : Card -> Card -> option Color -> bool.
Variable shuffler : nat -> list Card -> list Card.

Lemma nextIndexFromCurrent_Return offset s v s' :
  nextIndexFromCurrent offset s = Return v s' ->
  s' = s /\ exists c, currentPlayerIndex s = Some c /\
    v = mod_ (c + offset * direction s) (playerCount s).
Proof.
  unfold nextIndexFromCurrent. intros H. bind_open H as c s0 B0.
  apply ensureCurrentPlayer_Return in B0 as [-> Hc]. unfold gets in H.
  injection H as <- <-. eauto.
Qed.

Lemma penalty_Mid n s steps s' :
  Shaped s ->
  (let* victim := nextIndexFromCurrent 1 in
   applyPenalty shuffler victim n;;; markActionBy victim;;; ret 2) s = Return steps s' ->
  Shaped s' /\ last (discardPileCards s') = last (discardPileCards s) /\
  forall c, nonempty_except c (hands s) -> nonempty_except c (hands s').
Proof.
  intros Hs H.
  bind_open H as victim s0 B0.
  apply nextIndexFromCurrent_Return in B0 as (-> & c & Hc & ->).
  bind_open H as u1 s1 B1.
  apply applyPenalty_Return in B1 as (Hs1 & _ & Hl & Hn); [|done|].
  2:{ apply mod_range. destruct Hs. lia. }
  bind_open H as u2 s2 B2. unfold ret in H. injection H as _ <-.
  match type of B2 with markActionBy ?v _ = _ =>
    assert (s2 = marked v s1) as -> by (unfold marked; by rewrite B2);
    destruct (marked_fields v s1) as (Mh & Md & _ & Mu & Mt)
  end.
  split.
  { apply (Shaped_shape s1); [done|]. apply shape_of_turn; [done| |by rewrite Mu].
    unfold handCount. by rewrite Mh. }
  split; [by rewrite Md|]. intros c0 H0. rewrite Mh. by apply Hn.
Qed.

Lemma playEffect_Mid card s steps s' :
  Shaped s ->
  playEffect shuffler card s = Return steps s' ->
  Shaped s' /\ last (discardPileCards s') = last (discardPileCards s) /\
  enforcedColor s' = enforcedColor s /\ winnerIndex s' = winnerIndex s /\
  forall c, nonempty_except c (hands s) -> nonempty_except c (hands s').
Proof.
  intros Hs H. destruct card; simpl in H.
  1,2,5: munfold; by injection H as _ <-.
  - munfold. destruct (playerCount s =? 2); injection H as _ <-; simpl;
      (split; [by apply Shaped_reversed | done]).
  - pose proof (keeps_Return _ _ _ _ _ (turn_penalty shuffler 2) H) as Ht.
    unfold turn_of in Ht. injection Ht as _ _ _ _ _ _ E7 _ E9 _ _.
    apply penalty_Mid in H as (H1 & H2 & H3); done.
  - pose proof (keeps_Return _ _ _ _ _ (turn_penalty shuffler 4) H) as Ht.
    unfold turn_of in Ht. injection Ht as _ _ _ _ _ _ E7 _ E9 _ _.
    apply penalty_Mid in H as (H1 & H2 & H3); done.
Qed.

Lemma finishRound_active w s :
  ended s = false ->
  finishRound w s =
    Return tt
      (set_notified (notified s ++ map (fun l => (l, w)) (listeners s))
        (set_cachedScore (Some (computeScore w s))
          (set_currentPlayerIndex None
            (set_winnerIndex (Some w) (set_ended true s))))).
Proof. intros He. unfold finishRound. munfold. by rewrite He. Qed.

Lemma play_Inv s i color card s' :
  Inv s -> play canPlay shuffler i color s = Return card s' -> Inv s'.
Proof.
  intros [Hs Hcol Hturn] H.
  pose proof H as Hstart.
  apply play_Return_start in Hstart
    as (He & c & hand & card0 & top & Hc & Hh & Hi & Ht & Hp).
  rewrite (play_moves_card canPlay shuffler s c hand card0 i top color He Hc Hh Hi Ht Hp) in H.
  unfold turnConsistent in Hturn. rewrite He in Hturn.
  destruct Hturn as ((c0 & Hc0 & Hr) & Hw & Hwin).
  rewrite Hc in Hc0. injection Hc0 as <-.
  apply nonempty_all in Hw.
  destruct (marked_fields c s) as (Mh & Md & _ & Mu & Mt).
  pose proof Hh as [_ Hhn]%item_Some.
  set (X := set_discardPileCards _ _) in H.
  assert (HsX : Shaped X).
  { apply (Shaped_shape s); [done|]. subst X. apply shape_of_turn.
    - exact Mt.
    - unfold handCount. simpl. by rewrite length_insert.
    - simpl. by rewrite Mu. }
  assert (HnX : nonempty_except (Some (Z.to_nat c)) (hands X)).
  { simpl. intros j h Hj Hne. rewrite list_lookup_insert_ne in Hj by congruence.
    by apply (Hw j h). }
  unfold turn_of in Mt. injection Mt as M1 _ _ _ M5 M6 M7 M8 M9 _ _.
  bind_open H as u1 s1 B1.
  apply playColor_Return in B1 as (v & -> & Hv).
  bind_open H as steps s2 B2.
  pose proof B2 as B2'.
  apply playEffect_Return in B2' as (-> & Hd2 & Hn2 & Hc2 & He2).
  apply playEffect_Mid in B2 as (Hs2 & Hl2 & Hcol2 & Hw2 & Hne2).
  2:{ by apply (Shaped_shape X). }
  specialize (Hne2 _ HnX). simpl in *.
  bind_open H as u3 s3 B3.
  pose proof (keeps_Return _ _ _ _ _ (turn_updateUnoStateFor c) B3) as Ut.
  pose proof (keeps_Return _ _ _ _ _ (keeps_cards_updateUnoStateFor c) B3) as Uc.
  pose proof (updateUnoStateFor_length c s2 u3 s3) as Ul.
  unfold cards_of in Uc. injection Uc as U1 _ U3 _ _.
  assert (Hs3 : Shaped s3).
  { apply (Shaped_shape s2); [done|]. apply shape_of_turn; [done| |].
    - unfold handCount. by rewrite U1.
    - apply Ul; [|done]. destruct Hs2. lia. }
  unfold turn_of in Ut. injection Ut as T1 _ _ _ T5 T6 T7 T8 T9 _ _.
  assert (Hcol3 : colorConsistent s3).
  { unfold colorConsistent. rewrite U3, Hl2, last_snoc, T7, Hcol2.
    destruct (isWild card0); by destruct Hv. }
  bind_open H as hand' s4 B4. apply handOf_Return in B4 as [-> Hh'].
  pose proof Hh' as [_ Hh'n]%item_Some. rewrite U1 in Hh'n.
  destruct (len hand' =? 0) eqn:El.
  - apply len_nil_iff in El. subst hand'.
    bind_open H as u5 s5 B5. unfold modify in B5. injection B5 as _ <-.
    bind_open H as u6 s6 B6. unfold ret in H. injection H as <- <-.
    assert (ended s3 = false) as E3 by congruence.
    rewrite finishRound_active in B6 by exact E3. injection B6 as _ <-.
    split.
    + by apply (Shaped_shape s3).
    + done.
    + unfold turnConsistent. simpl. repeat split. exists c. split; [done|].
      rewrite U1. rewrite (winnersFrom_one_except 0 (hands s2) (Z.to_nat c) Hh'n Hne2).
      f_equal. lia.
  - bind_open H as e s5 B5. unfold gets in B5. injection B5 as <- <-.
    assert (ended s3 = false) as E3 by congruence. rewrite E3 in H. simpl in H.
    bind_open H as u6 s6 B6.
    assert (currentPlayerIndex s3 = Some c) as C3 by congruence.
    apply (advance_Return _ _ _ _ c C3) in B6 as ->.
    unfold ret in H. injection H as <- <-.
    split.
    + by apply (Shaped_shape s3).
    + done.
    + unfold turnConsistent. simpl. rewrite E3. split; [|split].
      * eexists. split; [done|]. apply mod_range. destruct Hs3. lia.
      * rewrite U1. apply nonempty_all. intros j h Hj _.
        destruct (decide (j = Z.to_nat c)) as [->|Hne].
        -- rewrite Hh'n in Hj. injection Hj as <-. intros ->. done.
        -- apply (Hne2 j h Hj). congruence.
      * congruence.
Qed.

Lemma Inv_transfer s s' : Inv s -> inv_of s' = inv_of s -> Inv s'.
Proof.
  intros [Hs Hc Ht] E. unfold inv_of in E.
  injection E as S1 S2 S3 S4 S5 S6 E2 E3 E4 E5 E6 E7 E8.
  split.
  - apply (Shaped_shape s); [done|]. unfold shape_of. congruence.
  - unfold colorConsistent in *. by rewrite E2, E3.
  - unfold turnConsistent in *. by rewrite E4, E5, E6, E7, E8, S1.
Qed.

Lemma score_Inv s v s' : Inv s -> score s = Return v s' -> Inv s'.
Proof.
  intros Hi H. apply (Inv_transfer s); [done|].
  revert H. apply keeps_Return. unfold score. keeps_tac.
Qed.

Lemma onEnd_Inv handler s u s' : Inv s -> onEnd handler s = Return u s' -> Inv s'.
Proof.
  intros Hi H. apply (Inv_transfer s); [done|].
  revert H. apply keeps_Return. unfold onEnd. keeps_tac.
Qed.

Lemma sayUno_Inv index s u s' : Inv s -> sayUno index s = Return u s' -> Inv s'.
Proof.
  intros [Hs Hc Ht] H. unfold sayUno in H.
  bind_open H as i s0 B0. apply ensurePlayerIndex_Return in B0 as (-> & _ & Hi).
  bind_open H as e s0 B0. unfold gets in B0. injection B0 as <- <-.
  destruct (ended s) eqn:He; [done|].
  bind_open H as hand s0 B0. apply handOf_Return in B0 as [-> Hh].
  destruct (2 <? len hand); [done|].
  bind_open H as u1 s1 B1. unfold setDeclared, modify in B1. injection B1 as _ <-.
  pose proof (keeps_Return _ _ _ _ _ (turn_clearPendingOf i) H) as Kt.
  pose proof (keeps_Return _ _ _ _ _ (keeps_cards_clearPendingOf i) H) as Kc.
  pose proof (keeps_Return _ _ _ _ _ (declared_clearPendingOf i) H) as Kd.
  unfold cards_of in Kc. injection Kc as K1 _ K3 _ _. simpl in *.
  destruct (Shaped_in_range s i Hs Hi) as [Hr _].
  unfold turn_of in Kt. injection Kt as T1 T2 T3 _ T5 T6 T7 T8 T9 _ _. simpl in *.
  split.
  - apply (Shaped_shape s); [done|]. unfold shape_of, handCount.
    rewrite T1, T2, T3, T5, K1, Kd. by rewrite assign_length.
  - unfold colorConsistent. by rewrite K3, T7.
  - unfold turnConsistent in *. rewrite T8, T6, T1, K1, T9. by rewrite He in *.
Qed.

Lemma draw_Inv s card s' : Inv s -> draw canPlay shuffler s = Return card s' -> Inv s'.
Proof.
  intros [Hs Hcol Hturn] H. unfold draw in H.
  bind_open H as u0 s0 B0. apply ensureActiveRound_Return in B0 as [-> He].
  bind_open H as c s0 B0. apply ensureCurrentPlayer_Return in B0 as [-> Hc].
  bind_open H as u1 s1 B1.
  assert (s1 = marked c s) as -> by (unfold marked; by rewrite B1).
  destruct (marked_fields c s) as (Mh & Md & _ & Mu & Mt).
  bind_open H as card' s2 B2.
  apply takeFromDrawPile_Return in B2 as (_ & Ttop & _ & _ & Th & Tu & _ & Tt).
  bind_open H as hand s3 B3. apply handOf_Return in B3 as [-> Hh].
  bind_open H as u4 s4 B4. unfold setHand, modify in B4. injection B4 as _ <-.
  bind_open H as u5 s5 B5.
  pose proof (keeps_Return _ _ _ _ _ (turn_updateUnoStateFor c) B5) as Ut.
  pose proof (keeps_Return _ _ _ _ _ (keeps_cards_updateUnoStateFor c) B5) as Uc.
  pose proof (fun Hl => updateUnoStateFor_length c _ u5 s5 Hl B5) as Ul.
  unfold cards_of in Uc. simpl in Uc. injection Uc as U1 _ U3 _ _.
  unfold turnConsistent in Hturn. rewrite He in Hturn.
  destruct Hturn as ((c0 & Hc0 & Hr) & Hw & Hwin).
  rewrite Hc in Hc0. injection Hc0 as <-.
  apply nonempty_all in Hw.
  pose proof Hh as [_ Hhn]%item_Some. rewrite Th, Mh in Hhn.
  assert (Hsh : shape_of s5 = shape_of s).
  { apply shape_of_turn.
    - rewrite Ut. simpl. change (turn_of s2 = turn_of s). by rewrite Tt, Mt.
    - unfold handCount. rewrite U1, length_insert. by rewrite Th, Mh.
    - rewrite Ul; simpl; [by rewrite Tu, Mu|].
      unfold len. rewrite length_insert, Tu, Mu, Th, Mh.
      destruct Hs as [_ _ H3 H4 _ _]. unfold len in *. lia. }
  assert (Hs5 : Shaped s5) by (by apply (Shaped_shape s)).
  unfold turn_of in Ut, Tt, Mt. simpl in Ut.
  injection Ut as A1 _ _ _ A5 A6 A7 A8 A9 _ _.
  injection Tt as B1' _ _ _ B5' B6 B7 B8 B9 _ _.
  injection Mt as C1 _ _ _ C5 C6 C7 C8 C9 _ _.
  assert (Hcol5 : colorConsistent s5).
  { unfold colorConsistent in *. by rewrite U3, Ttop, Md, A7, B7, C7. }
  assert (Hne : winnersFrom 0 (hands s5) = []).
  { apply nonempty_all. rewrite U1, Th, Mh. by apply nonempty_except_append. }
  assert (Hwin5 : winnerIndex s5 = None) by congruence.
  assert (He5 : ended s5 = false) by congruence.
  assert (Hc5 : currentPlayerIndex s5 = Some c) by congruence.
  bind_open H as top s6 B6'. apply topCard_Return in B6' as [-> Htop].
  bind_open H as enforced s7 B7'. unfold gets in B7'. injection B7' as <- <-.
  destruct (negb _).
  - bind_open H as u8 s8 B8'. apply (advance_Return _ _ _ _ c Hc5) in B8' as ->.
    unfold ret in H. injection H as _ <-.
    split; [by apply (Shaped_shape s5) | done |].
    unfold turnConsistent. simpl. rewrite He5. split; [|done].
    eexists. split; [done|]. apply mod_range. destruct Hs5. lia.
  - munfold. injection H as _ <-.
    split; [done | done |].
    unfold turnConsistent. rewrite He5. split; [|done].
    exists c. split; [done|]. congruence.
Qed.

Lemma catchUnoFailure_Inv accuser accused s v s' :
  Inv s -> catchUnoFailure shuffler accuser accused s = Return v s' -> Inv s'.
Proof.
  intros Hinv H. pose proof Hinv as [Hs Hcol Hturn].
  pose proof H as H'. unfold catchUnoFailure in H'.
  bind_open H' as a s0 B0. apply ensurePlayerIndex_Return in B0 as (-> & -> & Ha).
  bind_open H' as b s0 B0. apply ensurePlayerIndex_Return in B0 as (-> & -> & Hb).
  clear H'.
  destruct (catchable s b) eqn:Hc.
  2:{ rewrite catchUnoFailure_false in H; try done.
      - by injection H as _ <-.
      - by destruct Hs. }
  rewrite (catchUnoFailure_true shuffler s a b Ha Hb Hc) in H.
  apply catchable_true in Hc as (p & card & Hp & _).
  assert (He : ended s = false).
  { unfold turnConsistent in Hturn. destruct (ended s); [|done].
    destruct Hturn as (_ & Hn & _). congruence. }
  unfold turnConsistent in Hturn. rewrite He in Hturn.
  destruct Hturn as (Hcur & Hw & Hwin). apply nonempty_all in Hw.
  bind_open H as u1 s1 B1.
  apply applyPenalty_Return in B1 as (Hs1 & Ht1 & Hl1 & Hn1); [| by apply (Shaped_shape s) | done].
  specialize (Hn1 None Hw).
  bind_open H as u2 s2 B2. unfold setDeclared, modify in B2. injection B2 as _ <-.
  unfold ret in H. injection H as _ <-.
  destruct (Shaped_in_range s1 b Hs1) as [Hr _].
  { destruct Hs1, Hs. unfold turn_of in Ht1. injection Ht1 as -> _ _ _ _ _ _ _ _ _ _. done. }
  unfold turn_of in Ht1. simpl in Ht1. injection Ht1 as T1 T2 T3 _ T5 T6 T7 T8 T9 _ _.
  split.
  - apply (Shaped_shape s1); [done|]. unfold shape_of, handCount. simpl.
    by rewrite assign_length.
  - unfold colorConsistent in *. simpl in *. by rewrite Hl1, T7.
  - unfold turnConsistent. simpl. rewrite T8, He, T6, T1, T9.
    split; [done|]. split; [|done]. by apply nonempty_all.
Qed.

(** Every call that returns keeps the invariant. *)
Lemma perform_Inv c s s' :
  Inv s -> perform canPlay shuffler c s = Return tt s' -> Inv s'.
Proof.
  intros Hi H. destruct c; simpl in H; unfold forget in H.
  - destruct (play _ _ _ _ _) as [card s1|] eqn:E; [|done]. injection H as <-.
    by apply (play_Inv s cardIndex color card).
  - destruct (draw _ _ _) as [card s1|] eqn:E; [|done]. injection H as <-.
    by apply (draw_Inv s card).
  - destruct (sayUno _ _) as [u s1|] eqn:E; [|done]. injection H as <-.
    by apply (sayUno_Inv playerIndex s u).
  - destruct (catchUnoFailure _ _ _ _) as [v s1|] eqn:E; [|done]. injection H as <-.
    by apply (catchUnoFailure_Inv accuser accused s v).
  - destruct (score _) as [v s1|] eqn:E; [|done]. injection H as <-.
    by apply (score_Inv s v).
  - destruct (onEnd _ _) as [u s1|] eqn:E; [|done]. injection H as <-.
    by apply (onEnd_Inv handler s u).
Qed.

End Invariant.

(** ** New rounds *)

Lemma validatePlayers_ok players u :
  validatePlayers players = ok u -> 2 <= len players <= 10.
Proof.
  unfold validatePlayers.
  destruct (len players <? 2) eqn:E1; [done|].
  destruct (10 <? len players) eqn:E2; [done|].
  apply Z.ltb_ge in E1, E2. lia.
Qed.

Lemma toDirection_ok label d : toDirection label = ok d -> d = 1 \/ d = -1.
Proof. destruct label; intros [= <-]; auto. Qed.

(** What the constructor builds is in order as soon as its argument is. *)
Lemma new_RoundImpl_Inv calls state s :
  new_RoundImpl calls state = ok s ->
  2 <= len (st_players state) <= 10 ->
  0 <= st_dealer state < len (st_players state) ->
  len (st_hands state) = len (st_players state) ->
  st_direction state = 1 \/ st_direction state = -1 ->
  (forall c, st_currentPlayer state = Some c -> 0 <= c < len (st_players state)) ->
  match last (st_discardPile state) with
  | Some top =>
    if isWild top then is_Some (st_enforcedColor state)
    else st_enforcedColor state = None
  | None => True
  end ->
  Inv s /\ pendingUno s = None /\
  cards_of s = (st_hands state, st_drawPile state, st_discardPile state, calls, []).
Proof.
  intros H Hp Hd Hh Hdir Hc Hcol. unfold new_RoundImpl in H. simpl in H.
  destruct (len (st_discardPile state) =? 0) eqn:Ed; [done|].
  assert (Hlast : is_Some (last (st_discardPile state))).
  { apply last_is_Some. intros E. rewrite E in Ed. done. }
  destruct Hlast as [top Htop]. rewrite Htop in Hcol.
  assert (Hrep : len (replicate (length (st_players state)) false) = len (st_players state)).
  { unfold len. by rewrite length_replicate. }
  destruct (1 <? len (winnersFrom 0 (st_hands state))) eqn:Ew; [done|].
  destruct (winnersFrom 0 (st_hands state)) as [|w [|w2 ws]] eqn:Hw.
  - destruct (st_currentPlayer state) as [c|] eqn:Ec; [|done]. injection H as <-.
    split; [|done]. split.
    + split; simpl; done.
    + unfold colorConsistent. simpl. by rewrite Htop.
    + unfold turnConsistent. simpl. split; [|done]. exists c. split; [done|]. by apply Hc.
  - injection H as <-. split; [|done]. split.
    + split; simpl; done.
    + unfold colorConsistent. simpl. by rewrite Htop.
    + unfold turnConsistent. simpl. repeat split. by exists w.
  - unfold len in Ew. simpl in Ew. apply Z.ltb_ge in Ew. lia.
Qed.

Lemma createRoundFromMemento_Inv memento s :
  createRoundFromMemento memento = ok s ->
  Inv s /\ pendingUno s = None /\ validCards s.
Proof.
  unfold createRoundFromMemento. intros H.
  destruct (validatePlayers (m_players memento)) as [u|] eqn:Ep; simpl in H; [|done].
  apply validatePlayers_ok in Ep.
  destruct (ensureIndex (m_dealer memento) _ _) as [d|] eqn:Ed; simpl in H; [|done].
  apply ensureIndex_ok in Ed as [_ Ed].
  destruct (toDirection _) as [dir|] eqn:Edir; simpl in H; [|done].
  apply toDirection_ok in Edir.
  destruct (ensureColorValue _) as [color|]; simpl in H; [|done].
  destruct (len (m_hands memento) =? len (m_players memento)) eqn:El; simpl in H; [|done].
  apply Z.eqb_eq in El.
  destruct (res_map _ _) as [hs|] eqn:Eh; simpl in H; [|done].
  apply res_map_clone_ok in Eh as [-> Vh].
  destruct (cloneCardsWithValidation (m_drawPile memento)) as [dp|] eqn:Edp; simpl in H; [|done].
  apply cloneCardsWithValidation_ok in Edp as [-> Vd].
  destruct (cloneCardsWithValidation (m_discardPile memento)) as [cp|] eqn:Ecp; simpl in H; [|done].
  apply cloneCardsWithValidation_ok in Ecp as [-> Vc].
  destruct (len (m_discardPile memento) =? 0); [done|].
  destruct (1 <? len (winnersFrom 0 (m_hands memento))); [done|].
  match type of H with res_bind ?r _ = _ => destruct r as [cur|] eqn:Ecur end;
    simpl in H; [|done].
  destruct (last (m_discardPile memento)) as [top|] eqn:Etop; [|done].
  match type of H with res_bind ?r _ = _ => destruct r as [enf|] eqn:Eenf end;
    simpl in H; [|done].
  apply new_RoundImpl_Inv in H as (Hi & Hp & Hc); simpl; try done.
  - split; [done|]. split; [done|]. unfold cards_of in Hc. unfold validCards.
    injection Hc as -> -> -> _ _. done.
  - intros c ->.
    destruct (len (winnersFrom 0 (m_hands memento)) =? 1); [done|].
    destruct (m_playerInTurn memento) as [p|]; [|done].
    destruct (ensureIndex p _ _) as [i|] eqn:Ei; simpl in Ecur; [|done].
    injection Ecur as <-. by apply ensureIndex_ok in Ei as [_ Ei].
  - rewrite Etop. destruct (isWild top).
    + injection Eenf as <-. by eexists.
    + destruct (bool_decide _); [by injection Eenf as <- | done].
Qed.

Lemma dealRow_length hs cards hs' rest :
  dealRow hs cards = ok (hs', rest) -> length hs' = length hs.
Proof.
  revert cards hs' rest. induction hs as [|h hs IH]; intros cards hs' rest; simpl.
  - by intros [= <- _].
  - destruct cards as [|card cards]; [done|].
    destruct (dealRow hs cards) as [[t r]|] eqn:E; simpl; [|done].
    intros [= <- _]. simpl. f_equal. by apply (IH cards t r).
Qed.

Lemma dealRows_length n hs cards hs' rest :
  dealRows n hs cards = ok (hs', rest) -> length hs' = length hs.
Proof.
  revert hs cards. induction n as [|n IH]; intros hs cards; simpl.
  - by intros [= <- _].
  - destruct (dealRow hs cards) as [[t r]|] eqn:E; simpl; [|done].
    intros H. apply IH in H. apply dealRow_length in E. congruence.
Qed.

Local Arguments drawIntoHand : simpl nomatch.

Section Dealing.

Variable shuffler : nat -> list Card -> list Card.
Variable createInitialDeck : list Card.

Lemma buildInitialState_ok fuel calls players dealer cardsPerPlayer setup calls' :
  buildInitialState shuffler createInitialDeck fuel calls players dealer cardsPerPlayer
    = Some (ok (setup, calls')) ->
  2 <= len players -> 0 <= dealer < len players ->
  len (init_hands setup) = len players /\
  (init_direction setup = 1 \/ init_direction setup = -1) /\
  0 <= init_currentPlayer setup < len players /\
  init_enforcedColor setup = None /\
  exists first, init_discardPile setup = [first] /\ isWild first = false.
Proof.
  intros H Hp Hd. revert calls H.
  induction fuel as [|fuel IH]; intros calls H; simpl in H; [done|].
  destruct (dealRows _ _ _) as [[hs cards]|] eqn:Er; [|done].
  apply dealRows_length in Er. rewrite length_map in Er.
  destruct cards as [|first cards]; [done|].
  destruct (isWild first) eqn:Ew; [by apply (IH (S calls))|].
  assert (Hl : len hs = len players) by (unfold len; congruence).
  injection H as H.
  destruct first as [col n|col|col|col| |]; try done.
  - injection H as <- _. simpl.
    split; [done|]. split; [by left|]. split; [apply mod_range; lia|].
    split; [done|]. by exists (NUMBERED col n).
  - injection H as <- _. simpl.
    split; [done|]. split; [by left|]. split; [apply mod_range; lia|].
    split; [done|]. by exists (SKIP col).
  - injection H as <- _. simpl. split; [done|]. split; [by right|]. split.
    + destruct (len players =? 2); [done | apply mod_range; lia].
    + split; [done|]. by exists (REVERSE col).
  - destruct (item hs _) as [hand|]; [|done].
    destruct (drawIntoHand hand cards 2) as [r|]; simpl in H; [|done].
    injection H as <- _. simpl.
    split; [unfold len in *; by rewrite length_insert|].
    split; [by left|]. split; [apply mod_range; lia|].
    split; [done|]. by exists (DRAW col).
Qed.

Lemma createRound_Inv fuel config s :
  createRound shuffler createInitialDeck fuel config = Some (ok s) ->
  Inv s /\ pendingUno s = None.
Proof.
  unfold createRound. intros H.
  destruct (validatePlayers _) as [u|] eqn:Ep; [|done].
  apply validatePlayers_ok in Ep.
  destruct (_ <=? 0); [done|].
  destruct (ensureIndex _ _ _) as [d|] eqn:Ed; [|done].
  apply ensureIndex_ok in Ed as [_ Ed].
  destruct (buildInitialState _ _ _ _ _ _ _) as [[[setup calls]|]|] eqn:Eb; try done.
  apply buildInitialState_ok in Eb as (B1 & B2 & B3 & B4 & first & B5 & B6); [|lia|done].
  injection H as H.
  apply new_RoundImpl_Inv in H as (Hi & Hpu & _); simpl; try done.
  - intros c [= <-]. done.
  - rewrite B5. simpl. by rewrite B6, B4.
Qed.

End Dealing.

Section Reach.

Variable canPlay : Card -> Card -> option Color -> bool.
Variable shuffler : nat -> list Card -> list Card.
Variable createInitialDeck : list Card.

Lemma reachable_Inv s :
  reachable canPlay shuffler createInitialDeck s -> Inv s.
Proof.
  induction 1 as [memento s H | fuel config s H | s c s' _ IH H].
  - by apply createRoundFromMemento_Inv in H as [H _].
  - by apply createRound_Inv in H as [H _].
  - by apply (perform_Inv canPlay shuffler c s).
Qed.


End Reach.



(** The same claim fails after a call that threw, for another reason: the
    [play(0)] of a wild card without a colour leaves the card on top of the
    discard pile, and [sayUno(0)] then returns on a round whose top card is
    wild with no colour enforced. *)
Lemma invariants_fail_after_a_throw :
  let s := state_of (perform uno_canPlay identityShuffler (Play 0 None) sampleRound) in
  exists s',
    reachable_any uno_canPlay identityShuffler [] s /\
    perform uno_canPlay identityShuffler (SayUno (Int 0)) s = Return tt s' /\
    last (discardPileCards s') = Some WILD /\ enforcedColor s' = None.
Proof.
  eexists. split; [|split; [by vm_compute|split; by vm_compute]].
  apply any_call. by apply (any_memento _ _ _ sampleMemento).
Qed.

(** ** After the end *)

Section AfterEnd.

Variable canPlay : Card -> Card -> option Color -> bool.
Variable shuffler : nat -> list Card -> list Card.
Variable createInitialDeck : list Card.

Lemma ended_advance n : keeps ended (advance n).
Proof. unfold advance. keeps_tac. Qed.

Lemma ended_playColor card color : keeps ended (playColor card color).
Proof. unfold playColor. keeps_tac. Qed.

Lemma ended_playEffect card : keeps ended (playEffect shuffler card).
Proof. unfold playEffect. keeps_tac. Qed.

Hint Resolve ended_advance ended_playColor ended_playEffect : keeps.

Lemma ended_draw : keeps ended (draw canPlay shuffler).
Proof. unfold draw. keeps_tac. Qed.

Lemma ended_sayUno index : keeps ended (sayUno index).
Proof. unfold sayUno. keeps_tac. Qed.

Lemma ended_catchUnoFailure a b : keeps ended (catchUnoFailure shuffler a b).
Proof. unfold catchUnoFailure. keeps_tac. Qed.

Lemma ended_score : keeps ended score.
Proof. unfold score. keeps_tac. Qed.

Lemma ended_onEnd handler : keeps ended (onEnd handler).
Proof. unfold onEnd. keeps_tac. Qed.

Lemma pending_score : keeps pendingUno score.
Proof. unfold score. keeps_tac. Qed.

Lemma pending_onEnd handler : keeps pendingUno (onEnd handler).
Proof. unfold onEnd. keeps_tac. Qed.

Lemma play_ended i color s :
  ended s = true -> play canPlay shuffler i color s = Throw "Round has finished" s.
Proof. intros He. unfold play, ensureActiveRound. munfold. by rewrite He. Qed.

Lemma draw_ended s :
  ended s = true -> draw canPlay shuffler s = Throw "Round has finished" s.
Proof. intros He. unfold draw, ensureActiveRound. munfold. by rewrite He. Qed.

Lemma sayUno_ended index s :
  ended s = true -> state_of (sayUno index s) = s /\ returned (sayUno index s) = false.
Proof.
  intros He. unfold sayUno, ensurePlayerIndex. munfold.
  destruct (ensureIndex _ _ _); simpl; [by rewrite He | done].
Qed.

Lemma sayUno_ended_in_bounds p s :
  ended s = true -> 0 <= p < playerCount s ->
  sayUno (Int p) s = Throw "Round has finished" s.
Proof.
  intros He Hp. unfold sayUno.
  rewrite (bind_eq _ _ _ _ _ (ensurePlayerIndex_eq s p Hp)). munfold. by rewrite He.
Qed.

Lemma catchUnoFailure_no_pending a b s :
  pendingUno s = None -> state_of (catchUnoFailure shuffler a b s) = s.
Proof.
  intros Hp. unfold catchUnoFailure, ensurePlayerIndex. munfold.
  destruct (ensureIndex a _ _); simpl; [|done].
  destruct (ensureIndex b _ _); simpl; [|done]. by rewrite Hp.
Qed.

Lemma catchUnoFailure_no_pending_in_bounds a b s :
  pendingUno s = None -> 0 <= a < playerCount s -> 0 <= b < playerCount s ->
  catchUnoFailure shuffler (Int a) (Int b) s = Return false s.
Proof.
  intros Hp Ha Hb. unfold catchUnoFailure.
  rewrite (bind_eq _ _ _ _ _ (ensurePlayerIndex_eq s a Ha)).
  rewrite (bind_eq _ _ _ _ _ (ensurePlayerIndex_eq s b Hb)).
  munfold. by rewrite Hp.
Qed.

(** A step that cannot end the round, followed by steps that leave it
    settled, leaves it settled. *)
Lemma settled_bind {A B} (m : M A) (k : A -> M B) s :
  keeps ended m ->
  (forall a s1, ended s1 = false -> settled (state_of (k a s1))) ->
  ended s = false -> settled (state_of (bind m k s)).
Proof.
  intros Hm Hk He. unfold bind. specialize (Hm s).
  destruct (m s) as [a s1|msg s1]; simpl in *.
  - apply Hk. congruence.
  - left. congruence.
Qed.

Lemma settled_keeps {A} (m : M A) s :
  keeps ended m -> ended s = false -> settled (state_of (m s)).
Proof. intros Hm He. left. by rewrite Hm. Qed.

Lemma play_settled i color s :
  ended s = false -> settled (state_of (play canPlay shuffler i color s)).
Proof.
  unfold play.
  do 7 (apply settled_bind; [solve [keeps_tac] | clear s; intros ? s]).
  destruct (negb _); [by left|].
  do 6 (apply settled_bind; [solve [keeps_tac] | clear s; intros ? s]).
  destruct (len _ =? 0).
  - intros He. right. munfold. simpl.
    rewrite finishRound_active by done. reflexivity.
  - apply settled_keeps. keeps_tac.
Qed.

Lemma perform_settled c s :
  (ended s = true -> pendingUno s = None) ->
  ended (state_of (perform canPlay shuffler c s)) = true ->
  pendingUno (state_of (perform canPlay shuffler c s)) = None.
Proof.
  assert (Hf : forall A (o : outcome A), state_of (forget o) = state_of o)
    by (by intros A []).
  intros Hj. destruct c; simpl; rewrite Hf.
  - destruct (ended s) eqn:He.
    + rewrite play_ended by done. simpl. auto.
    + intros He'. destruct (play_settled cardIndex color s He); congruence.
  - rewrite ended_draw. intros He. rewrite draw_ended by done. auto.
  - rewrite ended_sayUno. intros He.
    destruct (sayUno_ended playerIndex s He) as [-> _]. auto.
  - rewrite ended_catchUnoFailure. intros He.
    rewrite catchUnoFailure_no_pending; auto.
  - rewrite ended_score, pending_score. auto.
  - rewrite ended_onEnd, pending_onEnd. auto.
Qed.

Lemma reachable_any_settled s :
  reachable_any canPlay shuffler createInitialDeck s ->
  ended s = true -> pendingUno s = None.
Proof.
  induction 1 as [memento s H | fuel config s H | s c _ IH].
  - by apply createRoundFromMemento_Inv in H as (_ & H & _).
  - by apply createRound_Inv in H as [_ H].
  - by apply perform_settled.
Qed.

(** C10: on a round that has ended, however it got there, calls that threw
    included, an accusation with both indices in bounds returns false and
    leaves the round as it is, because no accusation window is pending once a
    round has ended; [play], [draw] and [sayUno] throw instead. *)
Theorem C10_catchUnoFailure_after_the_end s a b :
  reachable_any canPlay shuffler createInitialDeck s ->
  ended s = true ->
  0 <= a < playerCount s -> 0 <= b < playerCount s ->
  pendingUno s = None /\
  catchUnoFailure shuffler (Int a) (Int b) s = Return false s /\
  (forall i color, play canPlay shuffler i color s = Throw "Round has finished" s) /\
  draw canPlay shuffler s = Throw "Round has finished" s /\
  sayUno (Int b) s = Throw "Round has finished" s.
Proof.
  intros Hr He Ha Hb.
  pose proof (reachable_any_settled s Hr He) as Hp.
  split; [done|]. split; [by apply catchUnoFailure_no_pending_in_bounds|].
  split; [intros i color; by apply play_ended|].
  split; [by apply draw_ended | by apply sayUno_ended_in_bounds].
Qed.

End AfterEnd.

(** Witness of C10: the round built from the memento of a finished round. *)
Lemma C10_catchUnoFailure_after_the_end_witness :
  pendingUno endedRound = None /\
  catchUnoFailure identityShuffler (Int 1) (Int 0) endedRound = Return false endedRound /\
  (forall i color,
     play uno_canPlay identityShuffler i color endedRound =
       Throw "Round has finished" endedRound) /\
  draw uno_canPlay identityShuffler endedRound = Throw "Round has finished" endedRound /\
  sayUno (Int 0) endedRound = Throw "Round has finished" endedRound.
Proof.
  apply (C10_catchUnoFailure_after_the_end uno_canPlay identityShuffler [] endedRound 1 0).
  - by apply (any_memento _ _ _ endedMemento).
  - reflexivity.
  - by vm_compute.
  - by vm_compute.
Defined.

(** ** Well-formed cards *)

Lemma validCards_cards s s' : cards_of s' = cards_of s -> validCards s -> validCards s'.
Proof.
  unfold cards_of, validCards. intros E. by injection E as -> -> -> _ _.
Qed.

Lemma dealRow_valid hs cards hs' rest :
  dealRow hs cards = ok (hs', rest) ->
  Forall (Forall (fun c => validCard c = true)) hs ->
  Forall (fun c => validCard c = true) cards ->
  Forall (Forall (fun c => validCard c = true)) hs' /\
  Forall (fun c => validCard c = true) rest.
Proof.
  revert cards hs' rest. induction hs as [|h hs IH]; intros cards hs' rest; simpl.
  - by intros [= <- <-].
  - destruct cards as [|card cards]; [done|].
    destruct (dealRow hs cards) as [[t r]|] eqn:E; simpl; [|done].
    intros [= <- <-] Hh Hc. apply Forall_cons in Hh as [Hh Hhs].
    apply Forall_cons in Hc as [Hc Hcs].
    destruct (IH cards t r E Hhs Hcs) as [Ht Hr]. split; [|done].
    constructor; [|done]. apply Forall_app. split; [done | by constructor].
Qed.

Lemma dealRows_valid n hs cards hs' rest :
  dealRows n hs cards = ok (hs', rest) ->
  Forall (Forall (fun c => validCard c = true)) hs ->
  Forall (fun c => validCard c = true) cards ->
  Forall (Forall (fun c => validCard c = true)) hs' /\
  Forall (fun c => validCard c = true) rest.
Proof.
  revert hs cards. induction n as [|n IH]; intros hs cards; simpl.
  - by intros [= <- <-].
  - destruct (dealRow hs cards) as [[t r]|] eqn:E; simpl; [|done].
    intros H Hh Hc. destruct (dealRow_valid _ _ _ _ E Hh Hc) as [Ht Hr].
    by apply (IH t r).
Qed.

Lemma drawIntoHand_valid hand source n hand' rest :
  drawIntoHand hand source n = ok (hand', rest) ->
  Forall (fun c => validCard c = true) hand ->
  Forall (fun c => validCard c = true) source ->
  Forall (fun c => validCard c = true) hand' /\
  Forall (fun c => validCard c = true) rest.
Proof.
  revert hand source. induction n as [|n IH]; intros hand source; simpl.
  - by intros [= <- <-].
  - destruct source as [|next source]; simpl; [done|].
    intros H Hh Hs. apply Forall_cons in Hs as [Hn Hs].
    apply (IH _ _ H); [|done]. apply Forall_app. split; [done | by constructor].
Qed.

Section Validity.

Variable canPlay : Card -> Card -> option Color -> bool.
Variable shuffler : nat -> list Card -> list Card.
Variable createInitialDeck : list Card.
Hypothesis shuffler_perm : forall n cards, shuffler n cards ≡ₚ cards.
Hypothesis deck_valid : Forall (fun c => validCard c = true) createInitialDeck.

Lemma takeFromDrawPile_valid s card s' :
  validCards s -> takeFromDrawPile shuffler s = Return card s' ->
  validCard card = true /\ validCards s'.
Proof.
  intros (Vh & Vd & Vc) H.
  apply takeFromDrawPile_Return in H as (Hsrc & _ & Hne & He & Hh & _ & _ & _).
  unfold drawSource in Hsrc. unfold validCards. rewrite Hh.
  destruct (drawPileCards s) as [|c pile] eqn:Ed.
  - destruct (He eq_refl) as (top & Ht & -> & _).
    assert (Forall (fun c => validCard c = true) (card :: drawPileCards s')) as Hv.
    { rewrite Hsrc, shuffler_perm. by apply Forall_take. }
    apply Forall_cons in Hv as [Hc Hv]. repeat split; try done.
    constructor; [|done]. apply last_Some_elem_of in Ht.
    by rewrite Forall_forall in Vc; apply Vc.
  - simpl in Hsrc. injection Hsrc as -> ->. apply Forall_cons in Vd as [Hc Hv].
    rewrite Hne by done. done.
Qed.

Lemma drawCards_valid n p s u s' :
  validCards s -> drawCards shuffler n p s = Return u s' -> validCards s'.
Proof.
  revert s. induction n as [|n IH]; intros s Hv H; simpl in H.
  - unfold ret in H. by simplify_eq.
  - bind_open H as h0 s0 B0. apply handOf_Return in B0 as [-> _].
    bind_open H as card s1 B1. apply (takeFromDrawPile_valid s) in B1 as [Hc Hv1]; [|done].
    bind_open H as hand s2 B2. apply handOf_Return in B2 as [-> Hh].
    bind_open H as u3 s3 B3. unfold setHand, modify in B3. injection B3 as _ <-.
    apply IH in H; [done|]. destruct Hv1 as (Vh & Vd & Vc).
    split; [|done]. simpl. apply Forall_insert; [done|].
    apply Forall_app. split; [|by constructor].
    apply item_Some in Hh as [_ Hh]. by apply (Forall_lookup_1 _ _ _ _ Vh Hh).
Qed.

Lemma applyPenalty_valid p n s u s' :
  validCards s -> applyPenalty shuffler p n s = Return u s' -> validCards s'.
Proof.
  intros Hv H. unfold applyPenalty, drawCardsForPlayer in H.
  bind_open H as u1 s1 B1. apply drawCards_valid in B1; [|done].
  apply (validCards_cards s1); [|done].
  revert H. apply keeps_Return. apply keeps_cards_updateUnoStateFor.
Qed.

Lemma penalty_valid n s steps s' :
  validCards s ->
  (let* victim := nextIndexFromCurrent 1 in
   applyPenalty shuffler victim n;;; markActionBy victim;;; ret 2) s = Return steps s' ->
  validCards s'.
Proof.
  intros Hv H. bind_open H as victim s0 B0.
  apply nextIndexFromCurrent_Return in B0 as (-> & _).
  bind_open H as u1 s1 B1. apply applyPenalty_valid in B1; [|done].
  apply (validCards_cards s1); [|done].
  revert H. apply keeps_Return. keeps_tac.
Qed.

Lemma playEffect_valid card s steps s' :
  validCards s -> playEffect shuffler card s = Return steps s' -> validCards s'.
Proof.
  intros Hv H. destruct card; simpl in H.
  1,2,5: munfold; by injection H as _ <-.
  - munfold. by destruct (playerCount s =? 2); injection H as _ <-.
  - by apply penalty_valid in H.
  - by apply penalty_valid in H.
Qed.

Lemma play_valid s i color card s' :
  validCards s -> play canPlay shuffler i color s = Return card s' -> validCards s'.
Proof.
  intros (Vh & Vd & Vc) H.
  pose proof H as Hstart.
  apply play_Return_start in Hstart
    as (He & c & hand & card0 & top & Hc & Hh & Hi & Ht & Hp).
  rewrite (play_moves_card canPlay shuffler s c hand card0 i top color He Hc Hh Hi Ht Hp) in H.
  destruct (marked_fields c s) as (_ & _ & Mp & _ & _).
  apply item_Some in Hh as [_ Hh]. apply item_Some in Hi as [_ Hi].
  pose proof (Forall_lookup_1 _ _ _ _ Vh Hh) as Vhand.
  bind_open H as u1 s1 B1. apply playColor_Return in B1 as (v & -> & _).
  bind_open H as steps s2 B2. apply playEffect_valid in B2.
  - apply (validCards_cards s2); [|done].
    revert H. apply keeps_Return. keeps_tac.
  - split; [|split]; simpl.
    + apply Forall_insert; [done|]. by apply Forall_delete.
    + by rewrite Mp.
    + apply Forall_app. split; [done|]. constructor; [|done].
      by apply (Forall_lookup_1 _ _ _ _ Vhand Hi).
Qed.

Lemma draw_valid s card s' :
  validCards s -> draw canPlay shuffler s = Return card s' -> validCards s'.
Proof.
  intros Hv H. unfold draw in H.
  bind_open H as u0 s0 B0. apply ensureActiveRound_Return in B0 as [-> He].
  bind_open H as c s0 B0. apply ensureCurrentPlayer_Return in B0 as [-> Hc].
  bind_open H as u1 s1 B1.
  apply (keeps_Return _ _ _ _ _ (keeps_cards_markActionBy c)) in B1.
  apply (validCards_cards _ _ B1) in Hv.
  bind_open H as card' s2 B2. apply (takeFromDrawPile_valid s1) in B2 as [Hcv Hv2]; [|done].
  bind_open H as hand s3 B3. apply handOf_Return in B3 as [-> Hh].
  bind_open H as u4 s4 B4. unfold setHand, modify in B4. injection B4 as _ <-.
  match type of H with _ ?x = _ => apply (validCards_cards x) end.
  - revert H. apply keeps_Return. keeps_tac.
  - destruct Hv2 as (Vh & Vd & Vc). split; [|done]. simpl.
    apply Forall_insert; [done|]. apply Forall_app. split; [|by constructor].
    apply item_Some in Hh as [_ Hh]. by apply (Forall_lookup_1 _ _ _ _ Vh Hh).
Qed.

Lemma catchUnoFailure_valid a b s v s' :
  validCards s -> catchUnoFailure shuffler a b s = Return v s' -> validCards s'.
Proof.
  intros Hv H. unfold catchUnoFailure in H.
  bind_open H as a' s0 B0. apply ensurePlayerIndex_Return in B0 as (-> & _).
  bind_open H as b' s0 B0. apply ensurePlayerIndex_Return in B0 as (-> & _).
  bind_open H as pending s0 B0. unfold gets in B0. injection B0 as <- <-.
  destruct (pendingUno s) as [p|]; [|unfold ret in H; by injection H as _ <-].
  destruct (negb _); [unfold ret in H; by injection H as _ <-|].
  destruct (negb _); [unfold ret in H; by injection H as _ <-|].
  bind_open H as d s0 B0. unfold gets in B0. injection B0 as <- <-.
  destruct (declared s b'); [unfold ret in H; by injection H as _ <-|].
  bind_open H as hand s0 B0. apply handOf_Return in B0 as [-> _].
  destruct (negb _); [unfold ret in H; by injection H as _ <-|].
  bind_open H as u1 s1 B1. unfold modify in B1. injection B1 as _ <-.
  bind_open H as u2 s2 B2. apply applyPenalty_valid in B2; [|done].
  apply (validCards_cards s2); [|done].
  revert H. apply keeps_Return. keeps_tac.
Qed.

Lemma perform_valid c s s' :
  validCards s -> perform canPlay shuffler c s = Return tt s' -> validCards s'.
Proof.
  intros Hv H. destruct c; simpl in H; unfold forget in H.
  - destruct (play _ _ _ _ _) as [card s1|] eqn:E; [|done]. injection H as <-.
    by apply (play_valid s cardIndex color card).
  - destruct (draw _ _ _) as [card s1|] eqn:E; [|done]. injection H as <-.
    by apply (draw_valid s card).
  - destruct (sayUno _ _) as [u s1|] eqn:E; [|done]. injection H as <-.
    apply (validCards_cards s); [|done].
    revert E. apply keeps_Return. unfold sayUno. keeps_tac.
  - destruct (catchUnoFailure _ _ _ _) as [v s1|] eqn:E; [|done]. injection H as <-.
    by apply (catchUnoFailure_valid accuser accused s v).
  - destruct (score _) as [v s1|] eqn:E; [|done]. injection H as <-.
    apply (validCards_cards s); [|done].
    revert E. apply keeps_Return. unfold score. keeps_tac.
  - destruct (onEnd _ _) as [u s1|] eqn:E; [|done]. injection H as <-.
    apply (validCards_cards s); [|done].
    revert E. apply keeps_Return. unfold onEnd. keeps_tac.
Qed.

Lemma buildInitialState_valid fuel calls players dealer cardsPerPlayer setup calls' :
  buildInitialState shuffler createInitialDeck fuel calls players dealer cardsPerPlayer
    = Some (ok (setup, calls')) ->
  Forall (Forall (fun c => validCard c = true)) (init_hands setup) /\
  Forall (fun c => validCard c = true) (init_drawPile setup) /\
  Forall (fun c => validCard c = true) (init_discardPile setup).
Proof.
  revert calls. induction fuel as [|fuel IH]; intros calls H; simpl in H; [done|].
  destruct (dealRows _ _ _) as [[hs cards]|] eqn:Er; [|done].
  apply dealRows_valid in Er as [Vh Vc].
  2:{ apply Forall_forall. intros h Hh%list_elem_of_In. apply in_map_iff in Hh as (x & <- & _).
      constructor. }
  2:{ by rewrite shuffler_perm. }
  destruct cards as [|first cards]; [done|].
  apply Forall_cons in Vc as [Vf Vc].
  destruct (isWild first) eqn:Ew; [by apply (IH (S calls))|].
  injection H as H.
  destruct first as [col n|col|col|col| |]; try done;
    try (injection H as <- _; simpl; repeat split; try done; by constructor).
  destruct (item hs _) as [hand|] eqn:Eh; [|done].
  destruct (drawIntoHand hand cards 2) as [[hand' rest]|] eqn:Ed; simpl in H; [|done].
  injection H as <- _. simpl.
  apply item_Some in Eh as [_ Eh].
  apply drawIntoHand_valid in Ed as [V1 V2]; [| by apply (Forall_lookup_1 _ _ _ _ Vh Eh) | done].
  split; [by apply Forall_insert|]. split; [done | by constructor].
Qed.

Lemma createRound_valid fuel config s :
  createRound shuffler createInitialDeck fuel config = Some (ok s) -> validCards s.
Proof.
  unfold createRound. intros H.
  destruct (validatePlayers _) as [u|] eqn:Ep; [|done].
  apply validatePlayers_ok in Ep.
  destruct (_ <=? 0); [done|].
  destruct (ensureIndex _ _ _) as [d|] eqn:Ed; [|done].
  apply ensureIndex_ok in Ed as [_ Ed].
  destruct (buildInitialState _ _ _ _ _ _ _) as [[[setup calls]|]|] eqn:Eb; try done.
  pose proof Eb as Ev. apply buildInitialState_valid in Ev as (V1 & V2 & V3).
  apply buildInitialState_ok in Eb as (B1 & B2 & B3 & B4 & first & B5 & B6); [|lia|done].
  injection H as H.
  apply new_RoundImpl_Inv in H as (_ & _ & Hc); simpl; try done.
  - unfold cards_of in Hc. unfold validCards. by injection Hc as -> -> -> _ _.
  - intros c [= <-]. done.
  - rewrite B5. simpl. by rewrite B6, B4.
Qed.

Lemma reachable_valid s :
  reachable canPlay shuffler createInitialDeck s -> validCards s.
Proof.
  induction 1 as [memento s H | fuel config s H | s c s' _ IH H].
  - by apply createRoundFromMemento_Inv in H as (_ & _ & H).
  - by apply createRound_valid in H.
  - by apply (perform_valid c s).
Qed.

End Validity.

(** ** Mementos of reachable rounds *)

Lemma validatePlayers_range players :
  2 <= len players <= 10 -> validatePlayers players = ok tt.
Proof.
  intros H. unfold validatePlayers.
  destruct (len players <? 2) eqn:E1; [apply Z.ltb_lt in E1; lia|].
  destruct (10 <? len players) eqn:E2; [apply Z.ltb_lt in E2; lia|]. done.
Qed.

Lemma ensureColorValue_ok color : ensureColorValue color = ok color.
Proof. by destruct color. Qed.

Lemma toDirection_label d :
  d = 1 \/ d = -1 ->
  toDirection (if d =? 1 then clockwise else counterclockwise) = ok d.
Proof. by intros [-> | ->]. Qed.

Lemma map_map_cloneCard hs : map (map cloneCard) hs = hs.
Proof.
  induction hs as [|h hs IH]; simpl; [done|]. by rewrite map_cloneCard, IH.
Qed.

Lemma currentColor_consistent s :
  colorConsistent s ->
  exists top color,
    last (discardPileCards s) = Some top /\ currentColor s = Return color s /\
    if isWild top then enforcedColor s = Some color
    else enforcedColor s = None /\ colorOf top = Some color.
Proof.
  unfold colorConsistent, currentColor, topCard. munfold.
  destruct (last (discardPileCards s)) as [top|] eqn:Et; [|done].
  destruct (isWild top) eqn:Ew.
  - intros [color Hc]. exists top, color. rewrite Hc, Ew. done.
  - intros Hc. rewrite Hc. exists top.
    destruct top as [col n|col|col|col| |]; try done; exists col; simpl;
      by rewrite Et.
Qed.

Lemma effectiveColor_eq s s' :
  enforcedColor s' = enforcedColor s -> discardPileCards s' = discardPileCards s ->
  effectiveColor s' = effectiveColor s.
Proof.
  intros He Hd. unfold effectiveColor, currentColor, topCard. munfold. simpl.
  rewrite He. destruct (enforcedColor s); [done|]. rewrite Hd.
  destruct (last (discardPileCards s)) as [top|]; [|done].
  by destruct (colorOf top).
Qed.

(** The round trip through a memento, for a round that satisfies the
    invariant and holds well-formed cards. *)
Lemma memento_round_trip s :
  Inv s -> validCards s ->
  exists memento s',
    toMemento s = Return memento s /\
    createRoundFromMemento memento = ok s' /\
    observe s' = observe s.
Proof.
  intros [Hs Hcol Hturn] (Vh & Vd & Vc).
  destruct (currentColor_consistent s Hcol) as (top & color & Htop & Hcc & Henf).
  destruct Hs as [H1 H2 H3 H4 H5 H6].
  assert (Hne : (len (discardPileCards s) =? 0) = false).
  { destruct (discardPileCards s); [done|]. reflexivity. }
  assert (Henf' : (if isWild top then ok (Some color)
                   else if bool_decide (colorOf top = Some color) then ok None
                        else raise "currentColor must match the color of the top discard")
                  = ok (enforcedColor s)).
  { destruct (isWild top); [by rewrite Henf|]. destruct Henf as [-> ->].
    by rewrite bool_decide_eq_true_2. }
  assert (Hd : ensureIndex (Int (dealer s)) (len (players s)) "dealer" = ok (dealer s)).
  { apply ensureIndex_ok. split; [done | lia]. }
  assert (Hlen : (len (hands s) =? len (players s)) = true) by (apply Z.eqb_eq; lia).
  assert (Hwin : (length (winnersFrom 0 (hands s)) <= 1)%nat).
  { unfold turnConsistent in Hturn. destruct (ended s).
    - destruct Hturn as (_ & _ & w & _ & ->). simpl. lia.
    - destruct Hturn as (_ & -> & _). simpl. lia. }
  assert (Hcur : (if len (winnersFrom 0 (hands s)) =? 1 then ok None
                  else match Int <$> currentPlayerIndex s with
                       | None => raise "playerInTurn is required for unfinished rounds"
                       | Some p =>
                         try i := ensureIndex p (len (players s)) "playerInTurn" in ok (Some i)
                       end) = ok (currentPlayerIndex s)).
  { unfold turnConsistent in Hturn. destruct (ended s).
    - destruct Hturn as (-> & _ & w & _ & ->). reflexivity.
    - destruct Hturn as ((c & -> & Hr) & -> & _).
      change ((try i := ensureIndex (Int c) (len (players s)) "playerInTurn" in ok (Some i))
              = ok (Some c)).
      rewrite (proj2 (ensureIndex_ok (Int c) (len (players s)) "playerInTurn" c));
        [done | split; [done | lia]]. }
  eexists.
  assert (exists s', new_RoundImpl 0
            {| st_players := players s; st_dealer := dealer s; st_hands := hands s;
               st_drawPile := drawPileCards s; st_discardPile := discardPileCards s;
               st_direction := direction s; st_currentPlayer := currentPlayerIndex s;
               st_enforcedColor := enforcedColor s |} = ok s' /\
          observe s' = observe s) as (s' & Hnew & Hobs).
  { unfold new_RoundImpl.
    cbn [st_players st_dealer st_hands st_drawPile st_discardPile st_direction
         st_currentPlayer st_enforcedColor discardPileCards hands currentPlayerIndex].
    rewrite Hne. unfold turnConsistent in Hturn.
    destruct (ended s) eqn:He.
    - destruct Hturn as (Hc & Hpu & w & Hw & Hws). rewrite Hws. cbn.
      eexists. split; [reflexivity|].
      unfold observe. rewrite (effectiveColor_eq s) by reflexivity. cbn.
      by rewrite <- H1, Hc, Hw, He.
    - destruct Hturn as ((c & Hc & Hr) & Hws & Hw). rewrite Hws, Hc. cbn.
      eexists. split; [reflexivity|].
      unfold observe. rewrite (effectiveColor_eq s) by reflexivity. cbn.
      by rewrite <- H1, Hc, Hw, He. }
  exists s'. split; [|split; [|exact Hobs]].
  - unfold toMemento. munfold. rewrite Hcc. unfold id. reflexivity.
  - unfold createRoundFromMemento.
    cbn [m_players m_hands m_drawPile m_discardPile m_currentColor
         m_currentDirection m_dealer m_playerInTurn].
    rewrite validatePlayers_range by lia. cbn [res_bind].
    rewrite Hd. cbn [res_bind].
    rewrite toDirection_label by done. cbn [res_bind].
    rewrite ensureColorValue_ok. cbn [res_bind].
    rewrite map_map_cloneCard, !map_cloneCard, Hlen. cbn [negb].
    rewrite res_map_clone_valid by done. cbn [res_bind].
    rewrite !cloneCardsWithValidation_valid by done. cbn [res_bind].
    rewrite Hne.
    replace (1 <? len (winnersFrom 0 (hands s))) with false
      by (symmetry; apply Z.ltb_ge; unfold len; lia).
    assert (ended s = true -> currentPlayerIndex s = None) as Hend.
    { unfold turnConsistent in Hturn. destruct (ended s); [by destruct Hturn | done]. }
    destruct (ended s) eqn:He.
    + rewrite (Hend eq_refl) in *. cbn [fmap option_fmap option_map] in *.
      rewrite Hcur. cbn [res_bind]. rewrite Htop, Henf'. cbn [res_bind]. exact Hnew.
    + rewrite Hcur. cbn [res_bind]. rewrite Htop, Henf'. cbn [res_bind]. exact Hnew.
Qed.

Section RoundTrip.

Variable canPlay : Card -> Card -> option Color -> bool.
Variable shuffler : nat -> list Card -> list Card.
Variable createInitialDeck : list Card.

(** C3: for a round built by [createRound] or [createRoundFromMemento] and
    driven by calls that returned, [toMemento()] returns a memento from which
    [createRoundFromMemento] builds a round with the same players, dealer,
    hands, draw pile, discard pile, player in turn, colour in effect,
    direction, ended status and winner.  The shuffler is one that permutes
    its argument and the initial deck one of well-formed cards. *)
Theorem C3_memento_round_trip s :
  (forall n cards, shuffler n cards ≡ₚ cards) ->
  Forall (fun c => validCard c = true) createInitialDeck ->
  reachable canPlay shuffler createInitialDeck s ->
  exists memento s',
    toMemento s = Return memento s /\
    createRoundFromMemento memento = ok s' /\
    observe s' = observe s.
Proof.
  intros Hperm Hdeck Hr. apply memento_round_trip.
  - by apply (reachable_Inv canPlay shuffler createInitialDeck).
  - by apply (reachable_valid canPlay shuffler createInitialDeck).
Qed.

End RoundTrip.

(** Witness of C3: the sample round after the red one was played. *)
Lemma C3_memento_round_trip_witness :
  exists memento s',
    toMemento afterRedOne = Return memento afterRedOne /\
    createRoundFromMemento memento = ok s' /\
    observe s' = observe afterRedOne.
Proof.
  apply (C3_memento_round_trip uno_canPlay identityShuffler []).
  - by intros n cards.
  - constructor.
  - apply (reachable_call _ _ _ sampleRound (Play 1 None)).
    + by apply (reachable_memento _ _ _ sampleMemento).
    + reflexivity.
Defined.

(** * Further properties of the engine *)

(** ** Turn arithmetic *)

(** X1: [mod], on safe integers: for a value and a positive modulus that do
    not exceed [Number.MAX_SAFE_INTEGER] the normalised remainder is the
    mathematical one, and lies in [0, modulus); the remainder the code takes
    first, and the sum it forms when that is negative, are safe integers
    too, so that the doubles of the source compute what the integers of the
    model do. *)
Theorem mod_is_modulo value modulus :
  0 < modulus <= MAX_SAFE_INTEGER ->
  - MAX_SAFE_INTEGER <= value <= MAX_SAFE_INTEGER ->
  mod_ value modulus = value mod modulus /\ 0 <= mod_ value modulus < modulus /\
  - MAX_SAFE_INTEGER <= Z.rem value modulus <= MAX_SAFE_INTEGER /\
  (Z.rem value modulus < 0 ->
   0 < Z.rem value modulus + modulus <= MAX_SAFE_INTEGER).
Proof.
  intros [H Hm] Hv. split; [by apply mod_modulo|]. split; [by apply mod_range|].
  pose proof (Z.rem_bound_abs value modulus ltac:(lia)) as Hr.
  assert (MAX_SAFE_INTEGER = 9007199254740991) as E by reflexivity.
  rewrite E in *. lia.
Qed.

(** Witness of X1: the seat before seat 0 among four. *)
Lemma mod_is_modulo_witness :
  mod_ (-1) 4 = (-1) mod 4 /\ 0 <= mod_ (-1) 4 < 4 /\
  - MAX_SAFE_INTEGER <= Z.rem (-1) 4 <= MAX_SAFE_INTEGER /\
  (Z.rem (-1) 4 < 0 -> 0 < Z.rem (-1) 4 + 4 <= MAX_SAFE_INTEGER).
Proof. apply (mod_is_modulo (-1) 4); by vm_compute. Defined.

(** ** Conservation of cards *)

Lemma concat_insert_swap (hs : list (list Card)) (c : nat) h h' :
  hs !! c = Some h -> concat (<[c := h']> hs) ++ h ≡ₚ concat hs ++ h'.
Proof.
  revert c. induction hs as [|x hs IH]; intros c Hc; [done|].
  destruct c as [|c]; simpl in *.
  - injection Hc as ->. rewrite <- !app_assoc.
    rewrite (Permutation_app_comm (concat hs) h), (Permutation_app_comm (concat hs) h').
    rewrite !app_assoc. by rewrite (Permutation_app_comm h' h).
  - rewrite <- !app_assoc. by rewrite (IH c Hc).
Qed.

Lemma concat_insert_app (hs : list (list Card)) (c : nat) h xs :
  hs !! c = Some h -> concat (<[c := h ++ xs]> hs) ≡ₚ concat hs ++ xs.
Proof.
  intros Hc. apply (Permutation_app_inv_r h).
  rewrite (concat_insert_swap hs c h (h ++ xs) Hc).
  rewrite <- !app_assoc. by rewrite (Permutation_app_comm h xs).
Qed.

Lemma concat_insert_delete (hs : list (list Card)) (c i : nat) h x :
  hs !! c = Some h -> h !! i = Some x ->
  concat (<[c := delete i h]> hs) ++ [x] ≡ₚ concat hs.
Proof.
  intros Hc Hi. apply (Permutation_app_inv_r (delete i h)).
  rewrite <- app_assoc. simpl. rewrite <- (delete_Permutation h i x Hi).
  by apply concat_insert_swap.
Qed.

Section Conservation.

Variable canPlay : Card -> Card -> option Color -> bool.
Variable shuffler : nat -> list Card -> list Card.
Hypothesis shuffler_perm : forall n cards, shuffler n cards ≡ₚ cards.

Lemma allCards_cards s s' : cards_of s' = cards_of s -> allCards s' = allCards s.
Proof.
  unfold cards_of, allCards. intros E. by injection E as -> -> -> _ _.
Qed.

Lemma takeFromDrawPile_conserves s card s' :
  takeFromDrawPile shuffler s = Return card s' ->
  hands s' = hands s /\
  card :: drawPileCards s' ++ discardPileCards s' ≡ₚ drawPileCards s ++ discardPileCards s.
Proof.
  intros H.
  apply takeFromDrawPile_Return in H as (Hsrc & _ & Hne & He & Hh & _ & _ & _).
  split; [done|]. unfold drawSource in Hsrc.
  destruct (drawPileCards s) as [|c pile] eqn:Ed.
  - destruct (He eq_refl) as (top & Ht & -> & _). simpl.
    rewrite app_comm_cons, Hsrc, shuffler_perm. by rewrite <- last_take_app.
  - simpl in Hsrc. injection Hsrc as -> ->. by rewrite Hne.
Qed.

Lemma drawCards_conserves n p s u s' :
  drawCards shuffler n p s = Return u s' -> allCards s' ≡ₚ allCards s.
Proof.
  revert s. induction n as [|n IH]; intros s H; simpl in H.
  - unfold ret in H. by simplify_eq.
  - bind_open H as h0 s0 B0. apply handOf_Return in B0 as [-> _].
    bind_open H as card s1 B1. apply takeFromDrawPile_conserves in B1 as [Th Tc].
    bind_open H as hand s2 B2. apply handOf_Return in B2 as [-> Hh].
    bind_open H as u3 s3 B3. unfold setHand, modify in B3. injection B3 as _ <-.
    apply IH in H. rewrite H. unfold allCards. simpl.
    apply item_Some in Hh as [_ Hh].
    rewrite (concat_insert_app _ _ _ [card] Hh), Th, <- app_assoc. simpl.
    apply Permutation_app_head. exact Tc.
Qed.

Lemma applyPenalty_conserves p n s u s' :
  applyPenalty shuffler p n s = Return u s' -> allCards s' ≡ₚ allCards s.
Proof.
  intros H. unfold applyPenalty, drawCardsForPlayer in H.
  bind_open H as u1 s1 B1. apply drawCards_conserves in B1. rewrite <- B1.
  apply (keeps_Return _ _ _ _ _ (keeps_cards_updateUnoStateFor p)) in H.
  by rewrite (allCards_cards _ _ H).
Qed.

Lemma penalty_conserves n s steps s' :
  (let* victim := nextIndexFromCurrent 1 in
   applyPenalty shuffler victim n;;; markActionBy victim;;; ret 2) s = Return steps s' ->
  allCards s' ≡ₚ allCards s.
Proof.
  intros H. bind_open H as victim s0 B0.
  apply nextIndexFromCurrent_Return in B0 as (-> & _).
  bind_open H as u1 s1 B1. apply applyPenalty_conserves in B1. rewrite <- B1.
  assert (cards_of s' = cards_of s1) as E by (revert H; apply keeps_Return; keeps_tac).
  by rewrite (allCards_cards _ _ E).
Qed.

Lemma playEffect_conserves card s steps s' :
  playEffect shuffler card s = Return steps s' -> allCards s' ≡ₚ allCards s.
Proof.
  intros H. destruct card; simpl in H.
  1,2,5: munfold; by injection H as _ <-.
  - munfold. by destruct (playerCount s =? 2); injection H as _ <-.
  - by apply penalty_conserves in H.
  - by apply penalty_conserves in H.
Qed.

Lemma play_conserves s i color card s' :
  play canPlay shuffler i color s = Return card s' -> allCards s' ≡ₚ allCards s.
Proof.
  intros H. pose proof H as Hstart.
  apply play_Return_start in Hstart
    as (He & c & hand & card0 & top & Hc & Hh & Hi & Ht & Hp).
  rewrite (play_moves_card canPlay shuffler s c hand card0 i top color He Hc Hh Hi Ht Hp) in H.
  destruct (marked_fields c s) as (_ & _ & Mp & _ & _).
  apply item_Some in Hh as [_ Hh]. apply item_Some in Hi as [_ Hi].
  bind_open H as u1 s1 B1. apply playColor_Return in B1 as (v & -> & _).
  bind_open H as steps s2 B2. apply playEffect_conserves in B2.
  assert (cards_of s' = cards_of s2) as E by (revert H; apply keeps_Return; keeps_tac).
  rewrite (allCards_cards _ _ E), B2. unfold allCards. simpl. rewrite Mp.
  rewrite <- (concat_insert_delete (hands s) _ _ hand card0 Hh Hi).
  rewrite <- !app_assoc. apply Permutation_app_head.
  rewrite (Permutation_app_comm (discardPileCards s) [card0]).
  rewrite !app_assoc. apply Permutation_app_tail. apply Permutation_app_comm.
Qed.

Lemma draw_conserves s card s' :
  draw canPlay shuffler s = Return card s' -> allCards s' ≡ₚ allCards s.
Proof.
  intros H. unfold draw in H.
  bind_open H as u0 s0 B0. apply ensureActiveRound_Return in B0 as [-> He].
  bind_open H as c s0 B0. apply ensureCurrentPlayer_Return in B0 as [-> Hc].
  bind_open H as u1 s1 B1.
  apply (keeps_Return _ _ _ _ _ (keeps_cards_markActionBy c)) in B1.
  rewrite <- (allCards_cards _ _ B1).
  bind_open H as card' s2 B2. apply takeFromDrawPile_conserves in B2 as [Th Tc].
  bind_open H as hand s3 B3. apply handOf_Return in B3 as [-> Hh].
  bind_open H as u4 s4 B4. unfold setHand, modify in B4. injection B4 as _ <-.
  match type of H with _ ?x = _ =>
    assert (cards_of s' = cards_of x) as E by (revert H; apply keeps_Return; keeps_tac)
  end.
  rewrite (allCards_cards _ _ E). unfold allCards. simpl.
  apply item_Some in Hh as [_ Hh].
  rewrite (concat_insert_app _ _ _ [card'] Hh), Th, <- app_assoc. simpl.
  apply Permutation_app_head. exact Tc.
Qed.

Lemma catchUnoFailure_conserves a b s v s' :
  catchUnoFailure shuffler a b s = Return v s' -> allCards s' ≡ₚ allCards s.
Proof.
  intros H. unfold catchUnoFailure in H.
  bind_open H as a' s0 B0. apply ensurePlayerIndex_Return in B0 as (-> & _).
  bind_open H as b' s0 B0. apply ensurePlayerIndex_Return in B0 as (-> & _).
  bind_open H as pending s0 B0. unfold gets in B0. injection B0 as <- <-.
  destruct (pendingUno s) as [p|]; [|unfold ret in H; by injection H as _ <-].
  destruct (negb _); [unfold ret in H; by injection H as _ <-|].
  destruct (negb _); [unfold ret in H; by injection H as _ <-|].
  bind_open H as d s0 B0. unfold gets in B0. injection B0 as <- <-.
  destruct (declared s b'); [unfold ret in H; by injection H as _ <-|].
  bind_open H as hand s0 B0. apply handOf_Return in B0 as [-> _].
  destruct (negb _); [unfold ret in H; by injection H as _ <-|].
  bind_open H as u1 s1 B1. unfold modify in B1. injection B1 as _ <-.
  bind_open H as u2 s2 B2. apply applyPenalty_conserves in B2.
  assert (cards_of s' = cards_of s2) as E by (revert H; apply keeps_Return; keeps_tac).
  by rewrite (allCards_cards _ _ E), B2.
Qed.

(** X2: every call that returns leaves the round with the cards it had: no
    card is lost, made up or doubled, wherever the call moved it. The
    shuffler is one that permutes its argument. *)
Theorem calls_conserve_cards c s s' :
  perform canPlay shuffler c s = Return tt s' -> allCards s' ≡ₚ allCards s.
Proof.
  intros H. destruct c; simpl in H; unfold forget in H.
  - destruct (play _ _ _ _ _) as [card s1|] eqn:E; [|done]. injection H as <-.
    by apply (play_conserves s cardIndex color card).
  - destruct (draw _ _ _) as [card s1|] eqn:E; [|done]. injection H as <-.
    by apply (draw_conserves s card).
  - destruct (sayUno _ _) as [u s1|] eqn:E; [|done]. injection H as <-.
    assert (cards_of s1 = cards_of s) as Ec
      by (revert E; apply keeps_Return; unfold sayUno; keeps_tac).
    by rewrite (allCards_cards _ _ Ec).
  - destruct (catchUnoFailure _ _ _ _) as [v s1|] eqn:E; [|done]. injection H as <-.
    by apply (catchUnoFailure_conserves accuser accused s v).
  - destruct (score _) as [v s1|] eqn:E; [|done]. injection H as <-.
    assert (cards_of s1 = cards_of s) as Ec
      by (revert E; apply keeps_Return; unfold score; keeps_tac).
    by rewrite (allCards_cards _ _ Ec).
  - destruct (onEnd _ _) as [u s1|] eqn:E; [|done]. injection H as <-.
    assert (cards_of s1 = cards_of s) as Ec
      by (revert E; apply keeps_Return; unfold onEnd; keeps_tac).
    by rewrite (allCards_cards _ _ Ec).
Qed.

End Conservation.

(** Witness of X2. *)
Lemma calls_conserve_cards_witness :
  allCards afterRedOne ≡ₚ allCards sampleRound.
Proof.
  apply (calls_conserve_cards uno_canPlay identityShuffler ltac:(by intros n cards)
           (Play 1 None) sampleRound afterRedOne).
  reflexivity.
Defined.

(** ** The initial deal *)

Lemma dealRow_deal hs cards hs' rest :
  dealRow hs cards = ok (hs', rest) ->
  concat hs' ++ rest ≡ₚ concat hs ++ cards /\
  forall (i : nat) h', hs' !! i = Some h' ->
    exists h, hs !! i = Some h /\ length h' = S (length h).
Proof.
  revert cards hs' rest. induction hs as [|h hs IH]; intros cards hs' rest; simpl.
  - intros [= <- <-]. split; [done|]. by intros i h'.
  - destruct cards as [|card cards]; [done|].
    destruct (dealRow hs cards) as [[t r]|] eqn:E; simpl; [|done].
    intros [= <- <-]. destruct (IH cards t r E) as [Hp Hl]. split.
    + simpl. rewrite <- !app_assoc. apply Permutation_app_head.
      rewrite Hp. simpl. by rewrite Permutation_middle.
    + intros [|i] h' Hi; simpl in *.
      * injection Hi as <-. exists h. split; [done|]. rewrite length_app. simpl. lia.
      * by apply Hl.
Qed.

Lemma dealRows_deal n hs cards hs' rest :
  dealRows n hs cards = ok (hs', rest) ->
  concat hs' ++ rest ≡ₚ concat hs ++ cards /\
  forall (i : nat) h', hs' !! i = Some h' ->
    exists h, hs !! i = Some h /\ length h' = (n + length h)%nat.
Proof.
  revert hs cards. induction n as [|n IH]; intros hs cards; simpl.
  - intros [= <- <-]. split; [done|]. intros i h' Hi. by exists h'.
  - destruct (dealRow hs cards) as [[t r]|] eqn:E; simpl; [|done].
    intros H. apply IH in H as [Hp Hl]. apply dealRow_deal in E as [Hp1 Hl1].
    split; [by rewrite Hp|]. intros i h' Hi.
    destruct (Hl i h' Hi) as (h1 & H1 & L1). destruct (Hl1 i h1 H1) as (h & H0 & L0).
    exists h. split; [done | lia].
Qed.

Lemma drawIntoHand_deal hand source n hand' rest :
  drawIntoHand hand source n = ok (hand', rest) ->
  hand' ++ rest ≡ₚ hand ++ source /\ length hand' = (length hand + n)%nat.
Proof.
  revert hand source. induction n as [|n IH]; intros hand source; simpl.
  - intros [= <- <-]. split; [done | lia].
  - destruct source as [|next source]; simpl; [done|].
    intros H. apply IH in H as [Hp Hl]. rewrite length_app in Hl. simpl in Hl.
    split; [|lia]. rewrite Hp, <- app_assoc. done.
Qed.

Section DealAll.

Variable shuffler : nat -> list Card -> list Card.
Variable createInitialDeck : list Card.
Hypothesis shuffler_perm : forall n cards, shuffler n cards ≡ₚ cards.

Lemma buildInitialState_deal fuel calls players dealer cardsPerPlayer setup calls' :
  buildInitialState shuffler createInitialDeck fuel calls players dealer cardsPerPlayer
    = Some (ok (setup, calls')) ->
  2 <= len players ->
  exists first,
    init_discardPile setup = [first] /\ isWild first = false /\
    init_enforcedColor setup = None /\
    init_direction setup = openingDirection first /\
    init_currentPlayer setup = openingPlayer first dealer (len players) /\
    concat (init_hands setup) ++ init_drawPile setup ++ [first] ≡ₚ createInitialDeck /\
    length (init_hands setup) = length players /\
    forall (i : nat) h, init_hands setup !! i = Some h ->
      length h =
        (Z.to_nat cardsPerPlayer +
         if bool_decide (Z.of_nat i = (dealer + 1) mod len players)%Z
         then openingPenalty first else 0)%nat.
Proof.
  intros H Hp. revert calls H.
  induction fuel as [|fuel IH]; intros calls H; simpl in H; [done|].
  destruct (dealRows _ _ _) as [[hs cards]|] eqn:Er; [|done].
  pose proof Er as Hlen. apply dealRows_length in Hlen. rewrite length_map in Hlen.
  apply dealRows_deal in Er as [Hperm Hl].
  destruct cards as [|first cards]; [done|].
  destruct (isWild first) eqn:Ew; [by apply (IH (S calls))|].
  assert (Hall : concat hs ++ cards ++ [first] ≡ₚ createInitialDeck).
  { rewrite <- (shuffler_perm calls createInitialDeck).
    assert (concat (map (fun _ : string => @nil Card) players) = []) as E0.
    { clear. induction players as [|p ps IHp]; [done | by simpl]. }
    rewrite E0 in Hperm. simpl in Hperm. rewrite <- Hperm.
    apply Permutation_app_head. by rewrite <- Permutation_cons_append. }
  assert (Hsize : forall (i : nat) h, hs !! i = Some h ->
                    length h = (Z.to_nat cardsPerPlayer + 0)%nat).
  { intros i h Hi. destruct (Hl i h Hi) as (h0 & H0 & L0).
    rewrite list_lookup_fmap in H0. destruct (players !! i); [|done].
    injection H0 as <-. simpl in L0. lia. }
  injection H as H. exists first.
  destruct first as [col n|col|col|col| |]; try done.
  - injection H as <- _. simpl. rewrite mod_modulo by lia.
    repeat split; try done. intros i h Hi. rewrite (Hsize i h Hi). by destruct (bool_decide _).
  - injection H as <- _. simpl. rewrite mod_modulo by lia.
    repeat split; try done. intros i h Hi. rewrite (Hsize i h Hi). by destruct (bool_decide _).
  - injection H as <- _. simpl.
    split; [done|]. split; [done|]. split; [done|]. split; [done|].
    split; [destruct (len players =? 2); [done | by rewrite mod_modulo by lia]|].
    repeat split; try done. intros i h Hi. rewrite (Hsize i h Hi). by destruct (bool_decide _).
  - destruct (item hs _) as [hand|] eqn:Eh; [|done].
    destruct (drawIntoHand hand cards 2) as [[hand' rest]|] eqn:Ed; simpl in H; [|done].
    injection H as <- _. simpl. rewrite !mod_modulo by lia.
    rewrite mod_modulo in Eh by lia.
    apply item_Some in Eh as [Hv0 Eh].
    apply drawIntoHand_deal in Ed as [Pd Ld].
    split; [done|]. split; [done|]. split; [done|]. split; [done|]. split; [done|].
    split; [|split; [by rewrite length_insert|]].
    + apply (Permutation_app_inv_r hand).
      transitivity ((concat (<[Z.to_nat ((dealer + 1) mod len players) := hand']> hs) ++ hand)
                    ++ rest ++ [DRAW col]); [solve_Permutation|].
      rewrite (concat_insert_swap hs _ hand hand' Eh).
      transitivity (concat hs ++ (hand' ++ rest) ++ [DRAW col]); [solve_Permutation|].
      rewrite Pd, <- Hall. solve_Permutation.
    + intros i h Hi. destruct (decide (i = Z.to_nat ((dealer + 1) mod len players))) as [->|Hne].
      * rewrite list_lookup_insert_eq in Hi by (by apply lookup_lt_Some in Eh).
        injection Hi as <-. rewrite bool_decide_eq_true_2 by lia.
        rewrite Ld, (Hsize _ hand Eh). simpl. lia.
      * rewrite list_lookup_insert_ne in Hi by done.
        rewrite bool_decide_eq_false_2 by lia. by apply (Hsize i h).
Qed.

(** X3: what [createRound] hands over when it builds a round: the whole
    deck, each card once, spread over hands, draw pile and a one-card
    discard pile whose card is not wild; no enforced colour, no accusation
    pending, the round running; every hand holds [cardsPerPlayer] cards, the
    player after the dealer two more if the opening card is a draw-two. The
    shuffler is one that permutes its argument. *)
Theorem createRound_deals_the_deck fuel config s :
  createRound shuffler createInitialDeck fuel config = Some (ok s) ->
  allCards s ≡ₚ createInitialDeck /\
  ended s = false /\ pendingUno s = None /\ enforcedColor s = None /\
  players s = cfg_players config /\ cfg_dealer config = Int (dealer s) /\
  exists first,
    discardPileCards s = [first] /\ isWild first = false /\
    forall (i : nat) h, hands s !! i = Some h ->
      length h =
        (Z.to_nat (default 7%Z (cfg_cardsPerPlayer config)) +
         if bool_decide (Z.of_nat i = (dealer s + 1) mod playerCount s)%Z
         then openingPenalty first else 0)%nat.
Proof.
  unfold createRound. intros H.
  destruct (validatePlayers _) as [u|] eqn:Ep; [|done].
  apply validatePlayers_ok in Ep.
  destruct (_ <=? 0) eqn:Ecpp; [done|]. apply Z.leb_gt in Ecpp.
  destruct (ensureIndex _ _ _) as [d|] eqn:Ed; [|done].
  apply ensureIndex_ok in Ed as [Edi Ed].
  destruct (buildInitialState _ _ _ _ _ _ _) as [[[setup calls]|]|] eqn:Eb; try done.
  apply buildInitialState_deal in Eb
    as (first & B1 & B2 & B3 & B4 & B5 & B6 & B7 & B8); [|lia].
  injection H as H. unfold new_RoundImpl in H. simpl in H.
  rewrite B1 in H. simpl in H.
  assert (Hw : winnersFrom 0 (init_hands setup) = []).
  { apply winnersFrom_none. intros i h Hi ->. specialize (B8 i [] Hi). simpl in B8. lia. }
  rewrite Hw in H. simpl in H. injection H as <-. simpl.
  split.
  { unfold allCards. simpl. exact B6. }
  repeat split; try done. exists first. repeat split; try done.
Qed.

(** X4: how the opening card sets the table: the direction is reversed by a
    reverse card and clockwise otherwise; the first player is the one after
    the dealer, two seats after the dealer on a skip or a draw-two, and for
    a reverse card the dealer between two players and the one before the
    dealer among more. *)
Theorem createRound_opening fuel config s :
  createRound shuffler createInitialDeck fuel config = Some (ok s) ->
  exists first,
    discardPileCards s = [first] /\
    direction s = openingDirection first /\
    currentPlayerIndex s = Some (openingPlayer first (dealer s) (playerCount s)) /\
    0 <= openingPlayer first (dealer s) (playerCount s) < playerCount s.
Proof.
  intros H. pose proof H as Hi. apply createRound_Inv in Hi as [[Hs _ Ht] _].
  unfold createRound in H.
  destruct (validatePlayers _) as [u|] eqn:Ep; [|done].
  apply validatePlayers_ok in Ep.
  destruct (_ <=? 0) eqn:Ecpp; [done|]. apply Z.leb_gt in Ecpp.
  destruct (ensureIndex _ _ _) as [d|] eqn:Ed; [|done].
  destruct (buildInitialState _ _ _ _ _ _ _) as [[[setup calls]|]|] eqn:Eb; try done.
  apply buildInitialState_deal in Eb
    as (first & B1 & B2 & B3 & B4 & B5 & B6 & B7 & B8); [|lia].
  injection H as H. unfold new_RoundImpl in H. simpl in H.
  rewrite B1 in H. simpl in H.
  assert (Hw : winnersFrom 0 (init_hands setup) = []).
  { apply winnersFrom_none. intros i h Hi ->. specialize (B8 i [] Hi). simpl in B8. lia. }
  rewrite Hw in H. simpl in H. injection H as <-.
  unfold turnConsistent in Ht. simpl in *.
  destruct Ht as ((c & [= <-] & Hr) & _).
  exists first. rewrite <- B5. done.
Qed.

End DealAll.

(** Witness of X3. *)
Lemma createRound_deals_the_deck_witness :
  createRound identityShuffler smallDeck 1 smallConfig = Some (ok smallRound) /\
  allCards smallRound ≡ₚ smallDeck.
Proof.
  split; [reflexivity|].
  apply (createRound_deals_the_deck identityShuffler smallDeck ltac:(by intros n cards)
           1 smallConfig smallRound eq_refl).
Defined.

(** Witness of X4. *)
Lemma createRound_opening_witness :
  exists first,
    discardPileCards smallRound = [first] /\
    direction smallRound = openingDirection first /\
    currentPlayerIndex smallRound =
      Some (openingPlayer first (dealer smallRound) (playerCount smallRound)) /\
    0 <= openingPlayer first (dealer smallRound) (playerCount smallRound)
      < playerCount smallRound.
Proof.
  apply (createRound_opening identityShuffler smallDeck ltac:(by intros n cards)
           1 smallConfig smallRound eq_refl).
Defined.

(** ** Refused configurations *)

Lemma dealRow_short hs cards :
  (length cards < length hs)%nat ->
  dealRow hs cards = raise "Deck exhausted while dealing".
Proof.
  revert cards. induction hs as [|h hs IH]; intros cards Hl; simpl in *; [lia|].
  destruct cards as [|card cards]; [done|]. simpl in Hl.
  rewrite IH by lia. done.
Qed.

Lemma dealRow_enough hs cards :
  (length hs <= length cards)%nat ->
  exists hs' rest,
    dealRow hs cards = ok (hs', rest) /\ length hs' = length hs /\
    length rest = (length cards - length hs)%nat.
Proof.
  revert cards. induction hs as [|h hs IH]; intros cards Hl; simpl in *.
  - exists [], cards. repeat split. lia.
  - destruct cards as [|card cards]; simpl in Hl; [lia|].
    destruct (IH cards ltac:(lia)) as (hs' & rest & -> & L1 & L2). simpl.
    eexists _, rest. split; [done|]. simpl. split; [by rewrite L1 | done].
Qed.

Lemma dealRows_short n hs cards :
  (length cards < n * length hs)%nat ->
  dealRows n hs cards = raise "Deck exhausted while dealing".
Proof.
  revert hs cards. induction n as [|n IH]; intros hs cards Hl; simpl in *; [lia|].
  destruct (le_lt_dec (length hs) (length cards)) as [Hle|Hlt].
  - destruct (dealRow_enough hs cards Hle) as (hs' & rest & -> & L1 & L2). simpl.
    apply IH. rewrite L1, L2. lia.
  - by rewrite dealRow_short.
Qed.

Lemma dealRows_exact n hs cards :
  length cards = (n * length hs)%nat ->
  exists hs', dealRows n hs cards = ok (hs', []).
Proof.
  revert hs cards. induction n as [|n IH]; intros hs cards Hl; simpl in *.
  - destruct cards; [by eexists | done].
  - destruct (dealRow_enough hs cards ltac:(lia)) as (hs' & rest & -> & L1 & L2). simpl.
    apply IH. rewrite L1, L2. lia.
Qed.

Section Refusals.

Variable shuffler : nat -> list Card -> list Card.
Variable createInitialDeck : list Card.
Hypothesis shuffler_perm : forall n cards, shuffler n cards ≡ₚ cards.

(** X5: what [createRound] refuses, in the order it checks: fewer than two
    players; more than ten; a number of cards per player that is not
    positive; a dealer that is not an index of a player; and a deck that
    does not hold a card for every hand and one more to open the discard
    pile. The first four do not depend on how many deals are tried, the last
    shows as soon as one is. *)
Theorem createRound_refusals fuel config :
  let players := cfg_players config in
  let cardsPerPlayer := default 7 (cfg_cardsPerPlayer config) in
  (len players < 2 ->
   createRound shuffler createInitialDeck fuel config =
     Some (raise "A round requires at least two players")) /\
  (10 < len players ->
   createRound shuffler createInitialDeck fuel config =
     Some (raise "A round supports at most ten players")) /\
  (2 <= len players <= 10 -> cardsPerPlayer <= 0 ->
   createRound shuffler createInitialDeck fuel config =
     Some (raise "cardsPerPlayer must be positive")) /\
  (2 <= len players <= 10 -> 0 < cardsPerPlayer ->
   forall msg, indexError (cfg_dealer config) (len players) = Some msg ->
   exists msg', createRound shuffler createInitialDeck fuel config = Some (raise msg') /\
     (msg' = "dealer must be an integer" \/ msg' = "dealer is out of bounds")) /\
  (2 <= len players <= 10 -> 0 < cardsPerPlayer ->
   indexError (cfg_dealer config) (len players) = None ->
   len createInitialDeck < cardsPerPlayer * len players ->
   createRound shuffler createInitialDeck (S fuel) config =
     Some (raise "Deck exhausted while dealing")) /\
  (2 <= len players <= 10 -> 0 < cardsPerPlayer ->
   indexError (cfg_dealer config) (len players) = None ->
   len createInitialDeck = cardsPerPlayer * len players ->
   createRound shuffler createInitialDeck (S fuel) config =
     Some (raise "Deck exhausted before drawing discard card")).
Proof.
  intros players cardsPerPlayer. unfold createRound, validatePlayers.
  fold players. fold cardsPerPlayer.
  split; [|split; [|split; [|split; [|split]]]].
  - intros H. destruct (len players <? 2) eqn:E; [done | apply Z.ltb_ge in E; lia].
  - intros H. destruct (len players <? 2) eqn:E; [apply Z.ltb_lt in E; lia|].
    destruct (10 <? len players) eqn:E2; [done | apply Z.ltb_ge in E2; lia].
  - intros H Hc. destruct (len players <? 2) eqn:E; [apply Z.ltb_lt in E; lia|].
    destruct (10 <? len players) eqn:E2; [apply Z.ltb_lt in E2; lia|].
    destruct (cardsPerPlayer <=? 0) eqn:E3; [done | apply Z.leb_gt in E3; lia].
  - intros H Hc msg Hm. destruct (len players <? 2) eqn:E; [apply Z.ltb_lt in E; lia|].
    destruct (10 <? len players) eqn:E2; [apply Z.ltb_lt in E2; lia|].
    destruct (cardsPerPlayer <=? 0) eqn:E3; [apply Z.leb_le in E3; lia|].
    unfold indexError in Hm. unfold ensureIndex in *.
    destruct (cfg_dealer config) as [d|]; [|eexists; split; [done | by left]].
    destruct (_ || _); [|done]. eexists. split; [done | by right].
  - intros H Hc Hd Hl. destruct (len players <? 2) eqn:E; [apply Z.ltb_lt in E; lia|].
    destruct (10 <? len players) eqn:E2; [apply Z.ltb_lt in E2; lia|].
    destruct (cardsPerPlayer <=? 0) eqn:E3; [apply Z.leb_le in E3; lia|].
    apply indexError_None in Hd as (d & Hd & Hr). rewrite Hd.
    rewrite (proj2 (ensureIndex_ok (Int d) (len players) "dealer" d)) by done.
    simpl. rewrite dealRows_short; [done|].
    rewrite length_map, (Permutation_length (shuffler_perm 0 createInitialDeck)).
    unfold len in *. nia.
  - intros H Hc Hd Hl. destruct (len players <? 2) eqn:E; [apply Z.ltb_lt in E; lia|].
    destruct (10 <? len players) eqn:E2; [apply Z.ltb_lt in E2; lia|].
    destruct (cardsPerPlayer <=? 0) eqn:E3; [apply Z.leb_le in E3; lia|].
    apply indexError_None in Hd as (d & Hd & Hr). rewrite Hd.
    rewrite (proj2 (ensureIndex_ok (Int d) (len players) "dealer" d)) by done.
    simpl.
    destruct (dealRows_exact (Z.to_nat cardsPerPlayer) (map (fun _ => []) players)
                (shuffler 0 createInitialDeck)) as [hs' ->]; [|done].
    rewrite length_map, (Permutation_length (shuffler_perm 0 createInitialDeck)).
    unfold len in *. nia.
Qed.

End Refusals.

(** Witness of X5. *)
Lemma createRound_refusals_witness :
  createRound identityShuffler smallDeck 1
    {| cfg_players := ["ann"; "bob"]; cfg_dealer := Int 0; cfg_cardsPerPlayer := Some 5 |}
  = Some (raise "Deck exhausted while dealing").
Proof.
  destruct (createRound_refusals identityShuffler smallDeck ltac:(by intros n cards) 0
              {| cfg_players := ["ann"; "bob"]; cfg_dealer := Int 0;
                 cfg_cardsPerPlayer := Some 5 |})
    as (_ & _ & _ & _ & H & _).
  apply H; by vm_compute.
Defined.

(** ** The window for catching a missed UNO *)

Lemma assign_in_range {A} (hole : A) l p v :
  0 <= p < len l -> assign hole l p v = <[Z.to_nat p := v]> l.
Proof.
  intros [H0 H1]. unfold assign, len in *.
  destruct (p <? 0) eqn:E1; [apply Z.ltb_lt in E1; lia|].
  destruct (p <? Z.of_nat (length l)) eqn:E2; [done | apply Z.ltb_ge in E2; lia].
Qed.

Lemma declared_assign_ne s p c v :
  0 <= p < len (unoDeclared s) -> p <> c ->
  default false (item (assign false (unoDeclared s) p v) c) = declared s c.
Proof.
  intros Hp Hne. rewrite assign_in_range by done. unfold declared, item.
  destruct (c <? 0) eqn:E; [done|]. apply Z.ltb_ge in E.
  rewrite list_lookup_insert_ne; [done | lia].
Qed.

Lemma declared_assign_eq s p v :
  0 <= p < len (unoDeclared s) ->
  default false (item (assign false (unoDeclared s) p v) p) = v.
Proof.
  intros Hp. rewrite assign_in_range by done. unfold item, len in *.
  destruct (p <? 0) eqn:E; [apply Z.ltb_lt in E; lia|].
  rewrite list_lookup_insert_eq; [done | lia].
Qed.

Lemma quietExcept_catchable c s b : quietExcept c s -> b <> c -> catchable s b = false.
Proof.
  unfold quietExcept, catchable. destruct (pendingUno s) as [p|]; [|done].
  intros [<- | ->] Hne.
  - destruct (uno_player p =? b) eqn:E; [apply Z.eqb_eq in E; done | done].
  - by rewrite andb_false_r.
Qed.

Lemma marked_pendingUno c s :
  pendingUno (marked c s) =
    match pendingUno s with
    | Some p =>
      if uno_player p =? c then Some p
      else Some {| uno_player := uno_player p; windowOpen := false |}
    | None => None
    end.
Proof.
  unfold marked, markActionBy, modify. simpl.
  destruct (pendingUno s) as [p|] eqn:E; [|done].
  destruct (uno_player p =? c); simpl; done.
Qed.

Lemma marked_quiet c s : quietExcept c (marked c s).
Proof.
  unfold quietExcept. rewrite marked_pendingUno.
  destruct (pendingUno s) as [p|]; [|done].
  destruct (uno_player p =? c) eqn:E; [apply Z.eqb_eq in E; by left | by right].
Qed.

Lemma marked_keeps_quiet c v s : quietExcept c s -> quietExcept c (marked v s).
Proof.
  unfold quietExcept. rewrite marked_pendingUno.
  destruct (pendingUno s) as [p|]; [|done].
  destruct (uno_player p =? v); [done|]. simpl. by right.
Qed.

(** What [updateUnoStateFor] leaves: a window opens for a player who holds
    one card and has not declared; otherwise the player's declaration is
    dropped unless one card is held, and the pending window stays only if it
    is somebody else's. *)
Lemma updateUnoStateFor_Return p s u s' :
  updateUnoStateFor p s = Return u s' ->
  exists hand,
    item (hands s) p = Some hand /\ cards_of s' = cards_of s /\ turn_of s' = turn_of s /\
    if (len hand =? 1) && negb (declared s p) then
      pendingUno s' = Some {| uno_player := p; windowOpen := true |} /\
      unoDeclared s' = unoDeclared s
    else
      (pendingUno s' = None \/
       pendingUno s' = pendingUno s /\
       exists q, pendingUno s = Some q /\ uno_player q <> p) /\
      unoDeclared s' =
        if len hand =? 1 then unoDeclared s else assign false (unoDeclared s) p false.
Proof.
  intros H.
  pose proof (keeps_Return _ _ _ _ _ (keeps_cards_updateUnoStateFor p) H) as Hc.
  pose proof (keeps_Return _ _ _ _ _ (turn_updateUnoStateFor p) H) as Ht.
  unfold updateUnoStateFor in H.
  bind_open H as hand s0 B0. apply handOf_Return in B0 as [-> Hh].
  exists hand. split; [done|]. split; [done|]. split; [done|].
  unfold handOf, setDeclared, clearPendingOf in H. munfold.
  destruct (len hand =? 1) eqn:E1; simpl in *.
  - destruct (declared s p) eqn:Ed; simpl in *.
    + destruct (pendingUno s) as [q|] eqn:Eq; simpl in *.
      * destruct (uno_player q =? p) eqn:Eqp; simpl in *.
        -- simplify_eq. simpl. auto.
        -- rewrite Eq in H. destruct (item (hands s) (uno_player q)); [|done].
           apply Z.eqb_neq in Eqp.
           destruct (negb _); simplify_eq; simpl; split; eauto.
      * rewrite Eq in H. simplify_eq. auto.
    + rewrite Hh, E1 in H. simpl in H. by simplify_eq.
  - destruct (pendingUno s) as [q|] eqn:Eq; simpl in *.
    + destruct (uno_player q =? p) eqn:Eqp; simpl in *.
      * simplify_eq. simpl. auto.
      * rewrite Eq in H. simpl in H.
        destruct (item (hands s) (uno_player q)); [|done].
        apply Z.eqb_neq in Eqp.
        destruct (negb _); simplify_eq; simpl; split; eauto.
    + rewrite Eq in H. simplify_eq. auto.
Qed.

Lemma marked_pendingIn v s : pendingIn s -> pendingIn (marked v s).
Proof.
  unfold pendingIn. rewrite marked_pendingUno.
  destruct (marked_fields v s) as (_ & _ & _ & _ & Mt).
  unfold turn_of in Mt. injection Mt as -> _ _ _ _ _ _ _ _ _ _.
  destruct (pendingUno s) as [p|]; [|done].
  intros H q. destruct (uno_player p =? v); intros [= <-]; simpl; by apply (H p).
Qed.

Lemma updateUnoStateFor_pendingIn p s u s' :
  updateUnoStateFor p s = Return u s' ->
  0 <= p < playerCount s -> pendingIn s -> pendingIn s'.
Proof.
  intros H Hp Hin. apply updateUnoStateFor_Return in H as (hand & _ & _ & Ht & Hw).
  unfold turn_of in Ht. injection Ht as Hn _ _ _ _ _ _ _ _ _ _.
  unfold pendingIn. rewrite Hn.
  destruct ((len hand =? 1) && negb (declared s p)).
  - destruct Hw as [-> _]. by intros q [= <-].
  - destruct Hw as [[-> | [-> _]] _]; [done | exact Hin].
Qed.

Lemma updateUnoStateFor_total p s :
  is_Some (item (hands s) p) ->
  (forall q, pendingUno s = Some q -> is_Some (item (hands s) (uno_player q))) ->
  exists s', updateUnoStateFor p s = Return tt s'.
Proof.
  intros [hand Hh] Hq. unfold updateUnoStateFor.
  rewrite (bind_eq _ _ _ _ _ (handOf_eq p s hand Hh)).
  unfold handOf, setDeclared, clearPendingOf. munfold.
  destruct (len hand =? 1) eqn:E1; simpl.
  - destruct (declared s p); simpl.
    + destruct (pendingUno s) as [q|] eqn:Eq; simpl; [|rewrite Eq; by eexists].
      destruct (uno_player q =? p); simpl; [by eexists|]. rewrite Eq. simpl.
      destruct (Hq q eq_refl) as [h ->]. simpl. destruct (negb _); by eexists.
    + rewrite Hh. simpl. rewrite E1. simpl. by eexists.
  - destruct (pendingUno s) as [q|] eqn:Eq; simpl; [|rewrite Eq; by eexists].
    destruct (uno_player q =? p); simpl; [by eexists|]. rewrite Eq. simpl.
    destruct (Hq q eq_refl) as [h ->]. simpl. destruct (negb _); by eexists.
Qed.

Lemma pendingIn_hands s :
  Shaped s -> pendingIn s ->
  forall q, pendingUno s = Some q -> is_Some (item (hands s) (uno_player q)).
Proof. intros Hs Hin q Hq. by apply (Shaped_in_range s _ Hs), Hin. Qed.

Lemma neighbour_differs s c :
  Shaped s -> 0 <= c < playerCount s ->
  (c + direction s) mod playerCount s <> c.
Proof.
  intros [_ Hn _ _ _ Hd] Hc E.
  pose proof (Z.div_mod (c + direction s) (playerCount s) ltac:(lia)) as D.
  rewrite E in D. set (q := (c + direction s) / playerCount s) in D.
  assert (q <= 0 \/ 1 <= q) as [Hq|Hq] by lia; destruct Hd as [Hd|Hd]; nia.
Qed.

Section Effects.

Variable canPlay : Card -> Card -> option Color -> bool.
Variable shuffler : nat -> list Card -> list Card.

Lemma penalty_hands n s steps s' c :
  Shaped s -> currentPlayerIndex s = Some c -> 0 <= c < playerCount s -> 2 <= n ->
  (let* victim := nextIndexFromCurrent 1 in
   applyPenalty shuffler victim n;;; markActionBy victim;;; ret 2) s = Return steps s' ->
  exists vh drawn,
    item (hands s) ((c + direction s) mod playerCount s) = Some vh /\
    length drawn = Z.to_nat n /\
    hands s' = <[Z.to_nat ((c + direction s) mod playerCount s) := vh ++ drawn]> (hands s) /\
    (quietExcept c s -> quietExcept c s') /\ declared s' c = declared s c /\
    (pendingIn s -> pendingIn s').
Proof.
  intros Hs Hc Hr Hn H.
  pose proof (neighbour_differs s c Hs Hr) as Hne.
  bind_open H as victim s0 B0.
  apply nextIndexFromCurrent_Return in B0 as (-> & c' & Hc' & ->).
  rewrite Hc in Hc'. injection Hc' as <-.
  rewrite Z.mul_1_l, mod_modulo in * by (destruct Hs; lia).
  set (victim := (c + direction s) mod playerCount s) in *.
  assert (0 <= victim < playerCount s) as Hv by (apply Z.mod_pos_bound; destruct Hs; lia).
  destruct (Shaped_in_range s victim Hs Hv) as [Hvd [vh Hvh]].
  bind_open H as u1 s1 B1. unfold applyPenalty, drawCardsForPlayer in B1.
  bind_open B1 as u0 s0 B0.
  destruct (drawCards_hands shuffler _ _ _ _ _ vh Hvh B0) as (drawn & Hl & Hh & _ & Hu & Hp).
  pose proof B1 as B1'.
  apply updateUnoStateFor_Return in B1 as (hand1 & Hh1 & Hc1 & Ht1 & Hw).
  rewrite Hh in Hh1. apply item_Some in Hh1 as [_ Hh1].
  rewrite list_lookup_insert_eq in Hh1.
  2:{ apply item_Some in Hvh as [_ Hvh]. by apply lookup_lt_Some in Hvh. }
  injection Hh1 as <-.
  assert ((len (vh ++ drawn) =? 1) = false) as El.
  { apply Z.eqb_neq. unfold len. rewrite length_app. lia. }
  rewrite El in Hw. simpl in Hw. destruct Hw as [Hw Hd].
  bind_open H as u2 s2 B2. unfold ret in H. injection H as _ <-.
  assert (s2 = marked victim s1) as -> by (unfold marked; by rewrite B2).
  destruct (marked_fields victim s1) as (Mh & _ & _ & Mu & _).
  unfold cards_of in Hc1. injection Hc1 as C1 _ _ _ _.
  pose proof (keeps_Return _ _ _ _ _ (turn_drawCards shuffler _ _) B0) as Ht0.
  unfold turn_of in Ht0. injection Ht0 as Hn0 _ _ _ _ _ _ _ _ _ _.
  exists vh, drawn. split; [done|]. split; [done|]. split; [congruence|].
  split; [|split].
  - intros Hq. apply marked_keeps_quiet. unfold quietExcept in *.
    destruct Hw as [-> | [-> _]]; [done | by rewrite Hp].
  - unfold declared at 1. rewrite Mu, Hd.
    rewrite (declared_assign_ne s0 victim c false); [|by rewrite Hu|done].
    unfold declared. by rewrite Hu.
  - intros Hin. apply marked_pendingIn.
    apply (updateUnoStateFor_pendingIn _ _ _ _ B1'); [by rewrite Hn0|].
    unfold pendingIn. by rewrite Hp, Hn0.
Qed.

Lemma playEffect_hands card s steps s' c :
  Shaped s -> currentPlayerIndex s = Some c -> 0 <= c < playerCount s ->
  playEffect shuffler card s = Return steps s' ->
  exists vh drawn,
    item (hands s) ((c + direction s) mod playerCount s) = Some vh /\
    length drawn = penaltyOf card /\
    hands s' = <[Z.to_nat ((c + direction s) mod playerCount s) := vh ++ drawn]> (hands s) /\
    (penaltyOf card = 0%nat ->
     drawPileCards s' = drawPileCards s /\ discardPileCards s' = discardPileCards s) /\
    (quietExcept c s -> quietExcept c s') /\ declared s' c = declared s c /\
    (pendingIn s -> pendingIn s').
Proof.
  intros Hs Hc Hr H.
  assert (0 <= (c + direction s) mod playerCount s < playerCount s) as Hv
    by (apply Z.mod_pos_bound; destruct Hs; lia).
  destruct (Shaped_in_range s _ Hs Hv) as [_ [vh Hvh]].
  assert (hands s = <[Z.to_nat ((c + direction s) mod playerCount s) := vh ++ []]> (hands s))
    as Hid.
  { rewrite app_nil_r, list_insert_id; [done|]. by apply item_Some in Hvh as [_ Hvh]. }
  destruct card; simpl in H.
  1,2,5: munfold; injection H as _ <-; by exists vh, [].
  - munfold. destruct (playerCount s =? 2); injection H as _ <-; by exists vh, [].
  - apply (penalty_hands 2 s steps s' c) in H as (vh' & drawn & H1 & H2 & H3 & H4 & H5 & H6);
      [|done|done|done|lia].
    exists vh', drawn. do 6 (split; [done|]). done.
  - apply (penalty_hands 4 s steps s' c) in H as (vh' & drawn & H1 & H2 & H3 & H4 & H5 & H6);
      [|done|done|done|lia].
    exists vh', drawn. do 6 (split; [done|]). done.
Qed.

End Effects.

Lemma keeps_turn_ending {A} (m : M A) : keeps turn_of m -> keeps ending_of m.
Proof.
  intros H s. specialize (H s). unfold turn_of in H. unfold ending_of. congruence.
Qed.

Lemma delete_nil_iff {A} (l : list A) (i : nat) :
  (i < length l)%nat -> (len (delete i l) =? 0) = (len l =? 1).
Proof.
  intros Hi. unfold len. rewrite length_delete by (by apply lookup_lt_is_Some_2).
  destruct (Z.eqb_spec (Z.of_nat (length l - 1)) 0), (Z.eqb_spec (Z.of_nat (length l)) 1);
    try done; lia.
Qed.

Lemma delete_one_iff {A} (l : list A) (i : nat) :
  (i < length l)%nat -> (len (delete i l) =? 1) = (len l =? 2).
Proof.
  intros Hi. unfold len. rewrite length_delete by (by apply lookup_lt_is_Some_2).
  destruct (Z.eqb_spec (Z.of_nat (length l - 1)) 1), (Z.eqb_spec (Z.of_nat (length l)) 2);
    try done; lia.
Qed.

Section Plays.

Variable canPlay : Card -> Card -> option Color -> bool.
Variable shuffler : nat -> list Card -> list Card.

Lemma ending_playEffect card : keeps ending_of (playEffect shuffler card).
Proof.
  pose proof (fun n p => keeps_turn_ending _ (turn_applyPenalty shuffler p n)).
  pose proof (fun p => keeps_turn_ending _ (turn_markActionBy p)).
  unfold playEffect. keeps_tac.
Qed.

(** Everything a call of [play] that returns has done to a round in good
    order. *)
Lemma play_outcome s i color card s' :
  Inv s -> play canPlay shuffler i color s = Return card s' ->
  exists c hand top vh drawn,
    (ended s = false /\ currentPlayerIndex s = Some c /\ 0 <= c < playerCount s /\
     item (hands s) c = Some hand /\ item hand i = Some card /\
     last (discardPileCards s) = Some top /\
     canPlay card top (enforcedColor s) = true) /\
    ((if isWild card then is_Some color else color = None) /\
     enforcedColor s' = color /\ last (discardPileCards s') = Some card) /\
    (item (hands s) ((c + direction s) mod playerCount s) = Some vh /\
     (c + direction s) mod playerCount s <> c /\
     length drawn = penaltyOf card /\
     hands s' = <[Z.to_nat ((c + direction s) mod playerCount s) := vh ++ drawn]>
                  (<[Z.to_nat c := delete (Z.to_nat i) hand]> (hands s)) /\
     (penaltyOf card = 0%nat ->
      drawPileCards s' = drawPileCards s /\
      discardPileCards s' = discardPileCards s ++ [card])) /\
    (quietExcept c s' /\
     catchable s' c = (len hand =? 2) && negb (declared s c) /\
     (pendingIn s -> pendingIn s')) /\
    (listeners s' = listeners s /\
     if len hand =? 1 then
       ended s' = true /\ winnerIndex s' = Some c /\ currentPlayerIndex s' = None /\
       pendingUno s' = None /\ cachedScore s' = Some (computeScore c s') /\
       notified s' = notified s ++ map (fun l => (l, c)) (listeners s)
     else
       ended s' = false /\ winnerIndex s' = winnerIndex s /\
       cachedScore s' = cachedScore s /\ notified s' = notified s).
Proof.
  intros [Hs Hcol Hturn] H.
  pose proof H as Hstart.
  apply play_Return_start in Hstart
    as (He & c & hand & card0 & top & Hc & Hh & Hi & Ht & Hp).
  rewrite (play_moves_card canPlay shuffler s c hand card0 i top color He Hc Hh Hi Ht Hp) in H.
  unfold turnConsistent in Hturn. rewrite He in Hturn.
  destruct Hturn as ((c0 & Hc0 & Hr) & Hw & Hwin).
  rewrite Hc in Hc0. injection Hc0 as <-.
  destruct (marked_fields c s) as (Mh & Md & Mp & Mu & Mt).
  pose proof (marked_quiet c s) as Mq.
  pose proof Hh as [_ Hhn]%item_Some.
  pose proof Hi as [Hi0 Hin]%item_Some.
  pose proof (lookup_lt_Some _ _ _ Hhn) as Hclt.
  pose proof (lookup_lt_Some _ _ _ Hin) as Hilt.
  pose proof (neighbour_differs s c Hs Hr) as Hne.
  set (victim := (c + direction s) mod playerCount s) in *.
  set (X := set_discardPileCards _ _) in H.
  assert (HsX : Shaped X).
  { apply (Shaped_shape s); [done|]. subst X. apply shape_of_turn.
    - exact Mt.
    - unfold handCount. simpl. by rewrite length_insert.
    - simpl. by rewrite Mu. }
  unfold turn_of in Mt. injection Mt as M1 _ _ M4 M5 M6 M7 M8 M9 M10 M11.
  bind_open H as u1 s1 B1.
  apply playColor_Return in B1 as (v & -> & Hv).
  bind_open H as steps s2 B2.
  pose proof (keeps_Return _ _ _ _ _ (ending_playEffect card0) B2) as E2.
  pose proof B2 as B2'. pose proof B2 as B2''.
  apply playEffect_Return in B2' as (-> & Hd2 & Hn2 & Hc2 & He2).
  apply playEffect_Mid in B2'' as (Hs2 & Hl2 & Hcol2 & Hw2 & _).
  2:{ by apply (Shaped_shape X). }
  apply (playEffect_hands shuffler card0 _ _ _ c) in B2
    as (vh & drawn & Hvh & Hdl & Hh2 & Hnp & Hq2 & Hdec2 & Hin2).
  2:{ by apply (Shaped_shape X). }
  2:{ simpl. congruence. }
  2:{ simpl. lia. }
  simpl in Hvh, Hh2, Hnp, Hdec2, Hl2, Hcol2, Hw2, Hd2, Hn2, Hc2, He2.
  unfold ending_of in E2. simpl in E2. injection E2 as E21 E22 E23 E24 E25.
  rewrite M1, M5 in Hvh, Hh2. fold victim in Hvh, Hh2.
  assert (Hvh0 : item (hands s) victim = Some vh).
  { apply item_Some in Hvh as [Hv0 Hvh]. apply item_Some. split; [done|].
    rewrite list_lookup_insert_ne in Hvh; [done|].
    intros E. apply Hne. apply Z2Nat.inj in E; lia. }
  assert (Hq2' : quietExcept c s2) by (by apply Hq2).
  assert (Hc2h : item (hands s2) c = Some (delete (Z.to_nat i) hand)).
  { apply item_Some. split; [lia|]. rewrite Hh2, list_lookup_insert_ne.
    - by apply list_lookup_insert_eq.
    - intros E. apply Hne. apply Z2Nat.inj in E; [done| |lia].
      apply Z.mod_pos_bound. lia. }
  bind_open H as u3 s3 B3.
  pose proof B3 as B3'.
  apply updateUnoStateFor_Return in B3 as (hand2 & Hh3 & Uc & Ut & Uw).
  rewrite Hc2h in Hh3. injection Hh3 as <-.
  unfold cards_of in Uc. injection Uc as U1 U2 U3 _ _.
  unfold turn_of in Ut. injection Ut as T1 _ _ T4 T5 T6 T7 T8 T9 T10 T11.
  rewrite delete_one_iff in Uw by done.
  assert (Hdec : declared s2 c = declared s c).
  { rewrite Hdec2. unfold declared. simpl. by rewrite Mu. }
  rewrite Hdec in Uw.
  bind_open H as hand' s4 B4. apply handOf_Return in B4 as [-> Hh'].
  rewrite U1, Hc2h in Hh'. injection Hh' as <-.
  rewrite delete_nil_iff in H by done.
  exists c, hand, top, vh, drawn.
  assert (Hcolor : (if isWild card0 then is_Some color else color = None) /\ v = color).
  { destruct (isWild card0); destruct Hv as [Hv1 Hv2]; subst; done. }
  destruct Hcolor as [Hcolor ->].
  assert (Hquiet3 : quietExcept c s3 /\
            catchable s3 c = (len hand =? 2) && negb (declared s c)).
  { destruct ((len hand =? 2) && negb (declared s c)) eqn:Ew.
    - destruct Uw as [Up Ud]. split.
      + unfold quietExcept. rewrite Up. by left.
      + apply andb_prop in Ew as [Ew1 Ew2]. apply negb_true_iff in Ew2.
        unfold catchable. rewrite Up. simpl. rewrite Z.eqb_refl. simpl.
        unfold declared. rewrite Ud. fold (declared s2 c). rewrite Hdec, Ew2. simpl.
        rewrite U1, Hc2h. by rewrite delete_one_iff.
    - destruct Uw as [Up Ud]. split.
      + unfold quietExcept in *. destruct Up as [-> | [-> _]]; done.
      + unfold catchable. destruct Up as [-> | [-> (q & Hq & Hqne)]]; [done|].
        rewrite Hq. destruct (uno_player q =? c) eqn:Eq; [|done].
        apply Z.eqb_eq in Eq. done. }
  assert (Hfirst : ended s = false /\ currentPlayerIndex s = Some c /\
            0 <= c < playerCount s /\ item (hands s) c = Some hand /\
            item hand i = Some card0 /\ last (discardPileCards s) = Some top /\
            canPlay card0 top (enforcedColor s) = true) by done.
  assert (Htop : last (discardPileCards s3) = Some card0).
  { rewrite U3, Hl2. simpl. by rewrite last_snoc. }
  assert (Hcol3 : enforcedColor s3 = color) by congruence.
  assert (Hhands : hands s3 = <[Z.to_nat victim := vh ++ drawn]>
                     (<[Z.to_nat c := delete (Z.to_nat i) hand]> (hands s)))
    by congruence.
  assert (Hpiles : penaltyOf card0 = 0%nat ->
            drawPileCards s3 = drawPileCards s /\
            discardPileCards s3 = discardPileCards s ++ [card0]).
  { intros Hz. destruct (Hnp Hz) as [Hz1 Hz2]. split; congruence. }
  assert (Hin3 : pendingIn s -> pendingIn s3).
  { intros Hpin. apply (updateUnoStateFor_pendingIn _ _ _ _ B3'); [lia|]. apply Hin2.
    apply (marked_pendingIn c) in Hpin. unfold pendingIn in *. simpl. exact Hpin. }
  destruct (len hand =? 1) eqn:El.
  - bind_open H as u5 s5 B5. unfold modify in B5. injection B5 as _ <-.
    bind_open H as u6 s6 B6. unfold ret in H. injection H as <- <-.
    assert (ended s3 = false) as E3 by congruence.
    rewrite finishRound_active in B6 by exact E3. injection B6 as _ <-.
    assert ((len hand =? 2) = false) as El2.
    { apply Z.eqb_eq in El. apply Z.eqb_neq. lia. }
    split; [done|]. split; [done|]. split; [done|]. split.
    { split; [done|]. split; [unfold catchable; simpl; by rewrite El2 | done]. }
    simpl. repeat split; congruence.
  - bind_open H as e s5 B5. unfold gets in B5. injection B5 as <- <-.
    assert (ended s3 = false) as E3 by congruence. rewrite E3 in H. simpl in H.
    bind_open H as u6 s6 B6.
    assert (currentPlayerIndex s3 = Some c) as C3 by congruence.
    apply (advance_Return _ _ _ _ c C3) in B6 as ->.
    unfold ret in H. injection H as <- <-.
    split; [done|]. split; [done|]. split; [done|]. split.
    { destruct Hquiet3 as [Q1 Q2]. split; [done|]. split; [done|].
      intros Hpin. specialize (Hin3 Hpin). unfold pendingIn in *. simpl. exact Hin3. }
    simpl. repeat split; congruence.
Qed.

End Plays.

Section PlayTheorems.

Variable canPlay : Card -> Card -> option Color -> bool.
Variable shuffler : nat -> list Card -> list Card.

(** X6: what a play does to the cards of a round in good order. The card
    returned is the one at the given index of the hand of the player in
    turn, and it was playable on the old top card; it lies on top of the
    discard pile; a wild card comes with a colour, which is then enforced,
    and any other card comes without and clears the enforced colour. The
    player's hand has lost that card and nothing else; the neighbour in the
    direction of play, who is another player, has gained two cards at the
    end of the hand for a draw-two, four for a wild-draw-four and none
    otherwise; every other hand is as before. When nobody draws, the draw
    pile is untouched and the discard pile has grown by the card alone. *)
Theorem play_moves_one_card s i color card s' :
  Inv s -> play canPlay shuffler i color s = Return card s' ->
  exists c hand top neighbour drawn,
    currentPlayerIndex s = Some c /\ item (hands s) c = Some hand /\
    item hand i = Some card /\
    last (discardPileCards s) = Some top /\
    canPlay card top (enforcedColor s) = true /\
    (if isWild card then is_Some color else color = None) /\
    enforcedColor s' = color /\
    last (discardPileCards s') = Some card /\
    (c + direction s) mod playerCount s <> c /\
    item (hands s) ((c + direction s) mod playerCount s) = Some neighbour /\
    length drawn = penaltyOf card /\
    hands s' = <[Z.to_nat ((c + direction s) mod playerCount s) := neighbour ++ drawn]>
                 (<[Z.to_nat c := delete (Z.to_nat i) hand]> (hands s)) /\
    (penaltyOf card = 0%nat ->
     drawPileCards s' = drawPileCards s /\
     discardPileCards s' = discardPileCards s ++ [card]).
Proof.
  intros HI H.
  destruct (play_outcome canPlay shuffler s i color card s' HI H)
    as (c & hand & top & vh & drawn & (_ & Hc & _ & Hh & Hi & Ht & Hp) &
        (Hw & Hcol & Htop) & (Hvh & Hne & Hl & Hhs & Hz) & _).
  exists c, hand, top, vh, drawn. repeat split; try done; by apply Hz.
Qed.

(** X7: a play ends the round exactly when it was made from a hand of one
    card. The round then names the player as winner and nobody as in turn,
    no accusation is pending, the score is the one computed from the hands
    as they are left, and each listener registered so far has been told the
    winner once, in the order of registration; [score()] returns that score
    from then on. Otherwise the round goes on and nothing is told. *)
Theorem play_ends_the_round s i color card s' :
  Inv s -> play canPlay shuffler i color s = Return card s' ->
  exists c hand,
    currentPlayerIndex s = Some c /\ item (hands s) c = Some hand /\
    ended s' = (len hand =? 1) /\ listeners s' = listeners s /\
    if ended s' then
      winnerIndex s' = Some c /\ currentPlayerIndex s' = None /\
      pendingUno s' = None /\ item (hands s') c = Some [] /\
      notified s' = notified s ++ map (fun l => (l, c)) (listeners s) /\
      score s' = Return (Some (computeScore c s')) s'
    else
      winnerIndex s' = None /\ notified s' = notified s /\
      score s' = Return None s'.
Proof.
  intros HI H.
  destruct (play_outcome canPlay shuffler s i color card s' HI H)
    as (c & hand & top & vh & drawn & (He & Hc & Hr & Hh & Hi & _) &
        _ & (Hvh & Hne & Hl & Hhs & Hz) & _ & (Hls & Hend)).
  exists c, hand. split; [done|]. split; [done|].
  destruct (len hand =? 1) eqn:El.
  - destruct Hend as (E1 & E2 & E3 & E4 & E5 & E6). rewrite E1.
    split; [done|]. split; [done|]. repeat split; try done.
    + apply item_Some. split; [lia|]. rewrite Hhs.
      apply item_Some in Hh as [_ Hh]. apply item_Some in Hi as [Hi0 Hi].
      rewrite list_lookup_insert_ne.
      2:{ intros E. apply Hne. apply Z2Nat.inj in E; [done| |lia].
          apply Z.mod_pos_bound. lia. }
      rewrite list_lookup_insert_eq by (by apply lookup_lt_Some in Hh).
      f_equal. apply Z.eqb_eq in El. unfold len in El.
      destruct hand as [|x [|y hand]]; simpl in El; try lia.
      by destruct (Z.to_nat i).
    + unfold score. munfold. rewrite E1. simpl. rewrite E2. simpl. rewrite E5. simpl.
      by rewrite E5.
  - destruct Hend as (E1 & E2 & E3 & E4). rewrite E1.
    split; [done|]. split; [done|]. repeat split; try done.
    + destruct HI as [_ _ Ht]. unfold turnConsistent in Ht. rewrite He in Ht.
      destruct Ht as (_ & _ & Hw). congruence.
    + unfold score. munfold. rewrite E1. by simpl.
Qed.

(** X8: after a play, the only player who can be caught is the one who
    played, and that player can be caught exactly if the play was made from
    a hand of two cards without UNO having been declared: every accusation
    against another player returns false and changes nothing. *)
Theorem play_opens_one_window s i color card s' :
  Inv s -> play canPlay shuffler i color s = Return card s' ->
  exists c hand,
    currentPlayerIndex s = Some c /\ item (hands s) c = Some hand /\
    catchable s' c = (len hand =? 2) && negb (declared s c) /\
    forall a b, 0 <= a < playerCount s' -> 0 <= b < playerCount s' -> b <> c ->
      catchUnoFailure shuffler (Int a) (Int b) s' = Return false s'.
Proof.
  intros HI H.
  pose proof (play_Inv canPlay shuffler s i color card s' HI H) as [[_ _ Hs' _ _ _] _ _].
  destruct (play_outcome canPlay shuffler s i color card s' HI H)
    as (c & hand & top & vh & drawn & (He & Hc & Hr & Hh & Hi & _) &
        _ & _ & (Hq & Hcatch & _) & _).
  exists c, hand. repeat split; try done.
  intros a b Ha Hb Hne. apply catchUnoFailure_false; try done.
  by apply (quietExcept_catchable c).
Qed.

End PlayTheorems.

Section Declarations.

Variable canPlay : Card -> Card -> option Color -> bool.
Variable shuffler : nat -> list Card -> list Card.

(** X9: drawing a card closes the window: after a call of [draw()] that
    returns on a round in good order, every accusation, whoever makes it
    against whomever, returns false and changes nothing. The player who drew
    is no longer taken to have declared UNO, and the declarations of the
    other players stand as before. *)
Theorem draw_closes_the_window s card s' :
  Inv s -> draw canPlay shuffler s = Return card s' ->
  exists c,
    currentPlayerIndex s = Some c /\
    (forall a b, 0 <= a < playerCount s' -> 0 <= b < playerCount s' ->
       catchUnoFailure shuffler (Int a) (Int b) s' = Return false s') /\
    declared s' c = false /\
    forall b, b <> c -> declared s' b = declared s b.
Proof.
  intros HI H.
  pose proof (draw_Inv canPlay shuffler s card s' HI H) as [[_ _ Hs' _ _ _] _ _].
  destruct HI as [Hs Hcol Hturn]. unfold draw in H.
  bind_open H as u0 s0 B0. apply ensureActiveRound_Return in B0 as [-> He].
  bind_open H as c s0 B0. apply ensureCurrentPlayer_Return in B0 as [-> Hc].
  bind_open H as u1 s1 B1.
  assert (s1 = marked c s) as -> by (unfold marked; by rewrite B1).
  destruct (marked_fields c s) as (Mh & Md & _ & Mu & Mt).
  pose proof (marked_quiet c s) as Mq.
  bind_open H as card' s2 B2.
  apply takeFromDrawPile_Return in B2 as (_ & _ & _ & _ & Th & Tu & Tp & _).
  bind_open H as hand s3 B3. apply handOf_Return in B3 as [-> Hh].
  bind_open H as u4 s4 B4. unfold setHand, modify in B4. injection B4 as _ <-.
  bind_open H as u5 s5 B5.
  unfold turnConsistent in Hturn. rewrite He in Hturn.
  destruct Hturn as ((c0 & Hc0 & Hr) & Hw & Hwin).
  rewrite Hc in Hc0. injection Hc0 as <-.
  pose proof Hh as [_ Hhn]%item_Some.
  apply updateUnoStateFor_Return in B5 as (hand5 & Hh5 & _ & _ & Uw).
  simpl in Hh5. apply item_Some in Hh5 as [_ Hh5].
  rewrite list_lookup_insert_eq in Hh5 by (by apply lookup_lt_Some in Hhn).
  injection Hh5 as <-.
  assert ((len (hand ++ [card']) =? 1) = false) as El.
  { apply Z.eqb_neq. unfold len. rewrite length_app. simpl.
    rewrite Th, Mh in Hhn. apply nonempty_all in Hw.
    assert (hand <> []) as Hne by (by apply (Hw _ _ Hhn)).
    destruct hand; [done | simpl; lia]. }
  rewrite El in Uw. simpl in Uw. destruct Uw as [Up Ud].
  assert (Hclosed : forall b, catchable s5 b = false).
  { intros b. unfold catchable. destruct Up as [-> | [-> (q & Hq & Hqc)]]; [done|].
    simpl. rewrite Tp. unfold quietExcept in Mq. rewrite Tp in Hq. rewrite Hq in *.
    destruct Mq as [Mq | ->]; [done|]. by rewrite andb_false_r. }
  assert (Hdecl : unoDeclared s5 = assign false (unoDeclared s) c false).
  { rewrite Ud. simpl. by rewrite Tu, Mu. }
  destruct (Shaped_in_range s c Hs Hr) as [Hcd _].
  assert (Hfinal : pendingUno s' = pendingUno s5 /\ unoDeclared s' = unoDeclared s5 /\
                   hands s' = hands s5).
  { bind_open H as top s6 B6. apply topCard_Return in B6 as [-> _].
    bind_open H as enforced s7 B7. unfold gets in B7. injection B7 as <- <-.
    destruct (negb _).
    - bind_open H as u8 s8 B8. unfold advance in B8. munfold.
      destruct (currentPlayerIndex s5); simplify_eq; done.
    - munfold. by simplify_eq. }
  destruct Hfinal as (F1 & F2 & F3).
  exists c. split; [done|]. split; [|split].
  - intros a b Ha Hb. apply catchUnoFailure_false; try done.
    specialize (Hclosed b). unfold catchable, declared in *. by rewrite F1, F2, F3.
  - unfold declared. rewrite F2, Hdecl. by apply declared_assign_eq.
  - intros b Hb. unfold declared at 1. rewrite F2, Hdecl. by apply declared_assign_ne.
Qed.

(** X10: what [sayUno] does. With an index that is not a player's it throws
    the index error; on a finished round it throws; for a player holding
    more than two cards it throws; in each case the round is as before.
    Otherwise, whether or not the player is in turn, it returns: the player
    has declared, a pending accusation against the player is dropped and one
    against somebody else is kept, and nothing else changes. *)
Theorem sayUno_declares s index :
  Shaped s ->
  (forall msg, indexError index (playerCount s) = Some msg ->
     sayUno index s = Throw msg s) /\
  (forall p hand, index = Int p -> 0 <= p < playerCount s ->
     item (hands s) p = Some hand ->
     if ended s then sayUno index s = Throw "Round has finished" s
     else if 2 <? len hand then
       sayUno index s = Throw "UNO can only be declared with two or fewer cards" s
     else
       exists s',
         sayUno index s = Return tt s' /\
         declared s' p = true /\ catchable s' p = false /\
         (forall b, b <> p ->
            declared s' b = declared s b /\ catchable s' b = catchable s b) /\
         cards_of s' = cards_of s /\ turn_of s' = turn_of s).
Proof.
  intros Hs. split.
  - intros msg Hm. unfold sayUno. unfold bind at 1.
    by rewrite (ensurePlayerIndex_error index s msg Hm).
  - intros p hand -> Hp Hh.
    assert (sayUno (Int p) s =
              if ended s then Throw "Round has finished" s
              else if 2 <? len hand then
                Throw "UNO can only be declared with two or fewer cards" s
              else (setDeclared p true;;; clearPendingOf p) s) as ->.
    { unfold sayUno. rewrite (bind_eq _ _ _ _ _ (ensurePlayerIndex_eq s p Hp)).
      unfold bind at 1, gets at 1. destruct (ended s); [done|].
      rewrite (bind_eq _ _ _ _ _ (handOf_eq p s hand Hh)).
      by destruct (2 <? len hand). }
    destruct (ended s) eqn:He; [done|].
    destruct (2 <? len hand) eqn:El; [done|].
    destruct (Shaped_in_range s p Hs Hp) as [Hpd _].
    unfold setDeclared, clearPendingOf. munfold. simpl.
    destruct (pendingUno s) as [q|] eqn:Eq.
    + destruct (uno_player q =? p) eqn:Eqp.
      * eexists. split; [done|]. simpl. apply Z.eqb_eq in Eqp.
        split; [by apply declared_assign_eq|]. split; [done|]. split; [|done].
        intros b Hb. unfold declared at 1. simpl. split; [by apply declared_assign_ne|].
        unfold catchable. simpl. rewrite Eq.
        destruct (uno_player q =? b) eqn:Eqb; [apply Z.eqb_eq in Eqb; congruence | done].
      * eexists. split; [done|]. simpl. apply Z.eqb_neq in Eqp.
        split; [by apply declared_assign_eq|]. split.
        { unfold catchable. simpl. rewrite Eq.
          destruct (uno_player q =? p) eqn:Eqb; [apply Z.eqb_eq in Eqb; congruence | done]. }
        split; [|done].
        intros b Hb. unfold declared at 1. simpl. split; [by apply declared_assign_ne|].
        unfold catchable. simpl. rewrite Eq. unfold declared at 1. simpl.
        by rewrite (declared_assign_ne s p b true).
    + eexists. split; [done|]. simpl.
      split; [by apply declared_assign_eq|]. split; [unfold catchable; simpl; by rewrite Eq|].
      split; [|done].
      intros b Hb. unfold declared at 1. simpl. split; [by apply declared_assign_ne|].
      unfold catchable. simpl. by rewrite Eq.
Qed.

(** X11: declaring in time protects: when the player in turn declares UNO
    and then plays, no accusation made after the play succeeds, against that
    player or anybody else. *)
Theorem sayUno_then_play_is_safe s c s1 i color card s2 :
  Inv s -> currentPlayerIndex s = Some c ->
  sayUno (Int c) s = Return tt s1 ->
  play canPlay shuffler i color s1 = Return card s2 ->
  forall a b, 0 <= a < playerCount s2 -> 0 <= b < playerCount s2 ->
    catchUnoFailure shuffler (Int a) (Int b) s2 = Return false s2.
Proof.
  intros HI Hc Hsay Hplay a b Ha Hb.
  pose proof (sayUno_Inv _ _ _ _ HI Hsay) as HI1.
  pose proof (play_Inv canPlay shuffler _ _ _ _ _ HI1 Hplay) as [[_ _ Hs2 _ _ _] _ _].
  destruct HI as [Hs _ Hturn].
  destruct (sayUno_declares s (Int c) Hs) as [_ Hd].
  pose proof Hsay as Hsay'. unfold sayUno in Hsay'.
  bind_open Hsay' as p s0 B0. apply ensurePlayerIndex_Return in B0 as (-> & [= <-] & Hr).
  clear Hsay'.
  destruct (Shaped_in_range s c Hs Hr) as [_ [hand Hh]].
  specialize (Hd c hand eq_refl Hr Hh).
  destruct (ended s); [congruence|]. destruct (2 <? len hand); [congruence|].
  destruct Hd as (s1' & Hs1 & Hdecl & _ & _ & _ & Ht).
  rewrite Hsay in Hs1. injection Hs1 as <-.
  destruct (play_outcome canPlay shuffler s1 i color card s2 HI1 Hplay)
    as (c' & hand' & top & vh & drawn & (_ & Hc' & _) & _ & _ & (Hq & Hcatch & _) & _).
  assert (c' = c) as ->.
  { unfold turn_of in Ht. injection Ht as _ _ _ _ _ T6 _ _ _ _ _. congruence. }
  rewrite Hdecl, andb_false_r in Hcatch.
  apply catchUnoFailure_false; try done.
  destruct (decide (b = c)) as [->|Hne]; [done|].
  by apply (quietExcept_catchable c).
Qed.

End Declarations.

(** ** The score *)

Lemma handPoints_from hand total :
  fold_left (fun subtotal card => subtotal + cardPoints card) hand total =
  total + foldr Z.add 0 (map cardPoints hand).
Proof.
  revert total. induction hand as [|card hand IH]; intros total; simpl; [lia|].
  rewrite IH. lia.
Qed.

Lemma scoreFrom_winner_empty w k total (hs : list (list Card)) :
  (forall (i : nat) h, hs !! i = Some h -> k + Z.of_nat i = w -> h = []) ->
  scoreFrom w k total hs = total + foldr Z.add 0 (map cardPoints (concat hs)).
Proof.
  revert k total. induction hs as [|hand hs IH]; intros k total Hw; simpl; [lia|].
  rewrite IH.
  2:{ intros i h Hi Hk. apply (Hw (S i) h); [done | lia]. }
  rewrite map_app, foldr_app.
  assert (forall (l : list Z) a, foldr Z.add a l = a + foldr Z.add 0 l) as Hf.
  { induction l as [|x l IHl]; intros a; simpl; [lia|]. rewrite IHl. lia. }
  rewrite (Hf _ (foldr _ _ _)).
  destruct (k =? w) eqn:E.
  - apply Z.eqb_eq in E. rewrite (Hw 0%nat hand); [simpl; lia | done | lia].
  - unfold handPoints. rewrite handPoints_from. lia.
Qed.

Lemma computeScore_held w s :
  winnersFrom 0 (hands s) = [w] -> computeScore w s = pointsHeld s.
Proof.
  intros Hw. unfold computeScore, pointsHeld.
  rewrite scoreFrom_winner_empty; [lia|].
  intros i h Hi Hk. simpl in Hk. subst w.
  destruct h as [|card h]; [done|]. exfalso.
  assert (Z.of_nat i ∈ winnersFrom 0 (hands s)) as Hin by (rewrite Hw; constructor).
  apply winnersFrom_elem in Hin as (j & Hj & Hjh).
  assert (j = i) as -> by lia. congruence.
Qed.

Lemma new_RoundImpl_fresh calls state s :
  new_RoundImpl calls state = ok s ->
  cachedScore s = None /\ listeners s = [] /\ notified s = [] /\
  unoDeclared s = replicate (length (st_players state)) false /\
  hands s = st_hands state /\ players s = st_players state.
Proof.
  unfold new_RoundImpl. simpl.
  destruct (len (st_discardPile state) =? 0); [done|].
  destruct (1 <? len (winnersFrom 0 (st_hands state))); [done|].
  destruct (winnersFrom 0 (st_hands state)) as [|w [|w2 ws]];
    [destruct (st_currentPlayer state); [|done] | | destruct (st_currentPlayer state); [|done]];
    by intros [= <-].
Qed.

Lemma createRoundFromMemento_new memento s :
  createRoundFromMemento memento = ok s ->
  exists state,
    new_RoundImpl 0 state = ok s /\ st_players state = m_players memento /\
    st_hands state = m_hands memento.
Proof.
  unfold createRoundFromMemento. intros H.
  destruct (validatePlayers (m_players memento)) as [u|]; simpl in H; [|done].
  destruct (ensureIndex (m_dealer memento) _ _) as [d|]; simpl in H; [|done].
  destruct (toDirection _) as [dir|]; simpl in H; [|done].
  destruct (ensureColorValue _) as [color|]; simpl in H; [|done].
  destruct (len (m_hands memento) =? len (m_players memento)); simpl in H; [|done].
  destruct (res_map _ _) as [hs|] eqn:Eh; simpl in H; [|done].
  apply res_map_clone_ok in Eh as [-> _].
  destruct (cloneCardsWithValidation (m_drawPile memento)) as [dp|]; simpl in H; [|done].
  destruct (cloneCardsWithValidation (m_discardPile memento)) as [cp|]; simpl in H; [|done].
  destruct (len cp =? 0); [done|].
  destruct (1 <? len (winnersFrom 0 (m_hands memento))); [done|].
  match type of H with res_bind ?r _ = _ => destruct r as [cur|] end; simpl in H; [|done].
  destruct (last cp) as [top|]; [|done].
  match type of H with res_bind ?r _ = _ => destruct r as [enf|] end; simpl in H; [|done].
  eexists. split; [exact H | done].
Qed.

Section Scores.

Variable canPlay : Card -> Card -> option Color -> bool.
Variable shuffler : nat -> list Card -> list Card.
Variable createInitialDeck : list Card.

Lemma createRound_new fuel config s :
  createRound shuffler createInitialDeck fuel config = Some (ok s) ->
  exists calls state,
    new_RoundImpl calls state = ok s /\ st_players state = cfg_players config.
Proof.
  unfold createRound. intros H.
  destruct (validatePlayers _) as [u|]; [|done].
  destruct (_ <=? 0); [done|].
  destruct (ensureIndex _ _ _) as [d|]; [|done].
  destruct (buildInitialState _ _ _ _ _ _ _) as [[[setup calls]|]|]; try done.
  injection H as H. eexists _, _. split; [exact H | done].
Qed.

Lemma turn_catchUnoFailure a b : keeps turn_of (catchUnoFailure shuffler a b).
Proof. unfold catchUnoFailure. keeps_tac. Qed.

Lemma turn_sayUno index : keeps turn_of (sayUno index).
Proof. unfold sayUno. keeps_tac. Qed.

Lemma ending_advance n : keeps ending_of (advance n).
Proof. unfold advance. keeps_tac. Qed.

Lemma ending_draw : keeps ending_of (draw canPlay shuffler).
Proof.
  pose proof (fun p => keeps_turn_ending _ (turn_markActionBy p)).
  pose proof (fun p h => keeps_turn_ending _ (turn_setHand p h)).
  pose proof (fun p => keeps_turn_ending _ (turn_updateUnoStateFor p)).
  pose proof (keeps_turn_ending _ (turn_takeFromDrawPile shuffler)).
  pose proof ending_advance.
  unfold draw. keeps_tac.
Qed.

Lemma scored_same s s' :
  cachedScore s' = cachedScore s -> winnerIndex s' = winnerIndex s ->
  hands s' = hands s -> scored s -> scored s'.
Proof. unfold scored, computeScore. by intros -> -> ->. Qed.

Lemma scored_turn s s' :
  turn_of s' = turn_of s -> winnerIndex s = None -> scored s -> scored s'.
Proof.
  unfold turn_of, scored. intros [= _ _ _ _ _ _ _ _ Hw Hc _] Hn. rewrite Hc.
  destruct (cachedScore s); [|done]. intros (w & Hw' & _). congruence.
Qed.

Lemma perform_scored c s s' :
  Inv s -> scored s -> perform canPlay shuffler c s = Return tt s' -> scored s'.
Proof.
  intros HI Hsc H. destruct c; simpl in H; unfold forget in H.
  - destruct (play _ _ _ _ _) as [card s1|] eqn:E; [|done]. injection H as <-.
    destruct (play_outcome canPlay shuffler s _ _ _ _ HI E)
      as (c & hand & top & vh & drawn & (He & _) & _ & _ & _ & (_ & Hend)).
    unfold scored. destruct (len hand =? 1).
    + destruct Hend as (_ & E2 & _ & _ & E5 & _). rewrite E5. by exists c.
    + destruct Hend as (_ & E2 & E3 & _). rewrite E3.
      destruct HI as [_ _ Ht]. unfold turnConsistent in Ht. rewrite He in Ht.
      destruct Ht as (_ & _ & Hw). unfold scored in Hsc.
      destruct (cachedScore s); [|done]. destruct Hsc as (w & Hw' & _). congruence.
  - destruct (draw _ _ _) as [card s1|] eqn:E; [|done]. injection H as <-.
    unfold scored in *.
    assert (ended s = false) as He.
    { unfold draw in E. bind_open E as u0 s0 B0.
      by apply ensureActiveRound_Return in B0 as [_ B0]. }
    destruct HI as [_ _ Ht]. unfold turnConsistent in Ht. rewrite He in Ht.
    destruct Ht as (_ & _ & Hw).
    assert (cachedScore s1 = cachedScore s) as ->.
    { pose proof (keeps_Return _ _ _ _ _ ending_draw E) as K.
      unfold ending_of in K. congruence. }
    destruct (cachedScore s); [|done]. destruct Hsc as (w & Hw' & _). congruence.
  - destruct (sayUno _ _) as [u s1|] eqn:E; [|done]. injection H as <-.
    assert (ended s = false) as He.
    { destruct (ended s) eqn:He; [|done].
      destruct (sayUno_ended playerIndex s He) as [_ Hr]. by rewrite E in Hr. }
    destruct HI as [_ _ Ht]. unfold turnConsistent in Ht. rewrite He in Ht.
    destruct Ht as (_ & _ & Hw).
    apply (scored_turn s); [|done|done].
    by apply (keeps_Return _ _ _ _ _ (turn_sayUno playerIndex) E).
  - destruct (catchUnoFailure _ _ _ _) as [v s1|] eqn:E; [|done]. injection H as <-.
    destruct (ended s) eqn:He.
    + destruct HI as [_ _ Ht]. unfold turnConsistent in Ht. rewrite He in Ht.
      destruct Ht as (_ & Hp & _).
      pose proof (catchUnoFailure_no_pending shuffler accuser accused s Hp) as Hk.
      rewrite E in Hk. simpl in Hk. by subst s1.
    + destruct HI as [_ _ Ht]. unfold turnConsistent in Ht. rewrite He in Ht.
      destruct Ht as (_ & _ & Hw).
      apply (scored_turn s); [|done|done].
      by apply (keeps_Return _ _ _ _ _ (turn_catchUnoFailure accuser accused) E).
  - destruct (score _) as [v s1|] eqn:E; [|done]. injection H as <-.
    unfold score in E. munfold. unfold scored in *.
    destruct (ended s); simpl in E; [|by simplify_eq].
    destruct (winnerIndex s) as [w|] eqn:Ew.
    2:{ simplify_eq. destruct (cachedScore s1); [|done]. by destruct Hsc as (w & Hw & _). }
    destruct (cachedScore s) as [v0|] eqn:Ec; simpl in E.
    + rewrite Ec in E. simplify_eq. rewrite Ec.
      destruct Hsc as (w' & Hw' & ->). exists w'. split; congruence.
    + simplify_eq. simpl. by exists w.
  - destruct (onEnd _ _) as [u s1|] eqn:E; [|done]. injection H as <-.
    unfold onEnd in E. munfold.
    destruct (ended s) eqn:He, (winnerIndex s) eqn:Hw; simplify_eq;
      by apply (scored_same s).
Qed.

Lemma reachable_scored s :
  reachable canPlay shuffler createInitialDeck s -> scored s.
Proof.
  induction 1 as [memento s H | fuel config s H | s c s' Hr IH H].
  - apply createRoundFromMemento_new in H as (state & H & _ & _).
    apply new_RoundImpl_fresh in H as (H & _). unfold scored. by rewrite H.
  - apply createRound_new in H as (calls & state & H & _).
    apply new_RoundImpl_fresh in H as (H & _). unfold scored. by rewrite H.
  - apply (perform_scored c s); [|done|done].
    by apply (reachable_Inv canPlay shuffler createInitialDeck).
Qed.

Lemma score_ended s w :
  ended s = true -> winnerIndex s = Some w ->
  score s =
    match cachedScore s with
    | Some v => Return (Some v) s
    | None => Return (Some (computeScore w s)) (set_cachedScore (Some (computeScore w s)) s)
    end.
Proof.
  intros He Hw. unfold score. munfold. rewrite He. simpl. rewrite Hw. simpl.
  destruct (cachedScore s) eqn:Ec; simpl; [by rewrite Ec | done].
Qed.

(** X12: the score of a round that was built by [createRound] or from a
    memento and driven by calls that returned: [score()] never throws; while
    the round runs it returns nothing; once the round has ended it returns
    the points of all the cards still held, which are the cards of the
    losers, whether or not the score was cached, and returns the same when
    asked again. It leaves the cards, the turn and the winner as they are. *)
Theorem score_counts_the_cards_held s :
  reachable canPlay shuffler createInitialDeck s ->
  exists s',
    score s = Return (if ended s then Some (pointsHeld s) else None) s' /\
    score s' = Return (if ended s then Some (pointsHeld s) else None) s' /\
    cards_of s' = cards_of s /\ observable s' = observable s /\
    ended s' = ended s /\ winnerIndex s' = winnerIndex s.
Proof.
  intros Hr.
  pose proof (reachable_scored s Hr) as Hsc.
  apply reachable_Inv in Hr as [_ _ Ht].
  unfold turnConsistent in Ht. unfold scored in Hsc.
  destruct (ended s) eqn:He.
  - destruct Ht as (_ & _ & w & Hw & Hws).
    pose proof (computeScore_held w s Hws) as Hh.
    rewrite (score_ended s w He Hw).
    destruct (cachedScore s) as [v|] eqn:Ec.
    + destruct Hsc as (w' & Hw' & ->). assert (w' = w) as -> by congruence.
      rewrite Hh. exists s. split; [done|].
      rewrite (score_ended s w He Hw), Ec, Hh. done.
    + rewrite Hh. eexists. split; [done|]. split; [|done].
      by rewrite (score_ended _ w).
  - exists s. unfold score. munfold. by rewrite He.
Qed.

End Scores.

(** ** Playable cards *)

Lemma Inv_active s :
  Inv s -> ended s = false ->
  exists c hand top,
    currentPlayerIndex s = Some c /\ 0 <= c < playerCount s /\
    item (hands s) c = Some hand /\ hand <> [] /\
    last (discardPileCards s) = Some top.
Proof.
  intros [Hs Hcol Ht] He. unfold turnConsistent in Ht. rewrite He in Ht.
  destruct Ht as ((c & Hc & Hr) & Hw & _).
  destruct (Shaped_in_range s c Hs Hr) as [_ [hand Hh]].
  unfold colorConsistent in Hcol.
  destruct (last (discardPileCards s)) as [top|] eqn:Etop; [|done].
  exists c, hand, top. repeat split; try done; try lia.
  apply nonempty_all in Hw. apply item_Some in Hh as [_ Hh]. by apply (Hw _ _ Hh).
Qed.

Section Playable.

Variable canPlay : Card -> Card -> option Color -> bool.
Variable shuffler : nat -> list Card -> list Card.

Lemma canPlayIndex_eq s c hand top i :
  ended s = false -> currentPlayerIndex s = Some c ->
  item (hands s) c = Some hand -> last (discardPileCards s) = Some top ->
  canPlayIndex canPlay i s =
    Return (match item hand i with
            | Some card => canPlay card top (enforcedColor s)
            | None => false
            end) s.
Proof.
  intros He Hc Hh Ht. unfold canPlayIndex, topCard, handOf. munfold.
  rewrite He. simpl. rewrite Hc. simpl. rewrite Hh. simpl.
  destruct ((i <? 0) || (len hand <=? i)) eqn:E.
  - destruct (item hand i) as [card|] eqn:Ei; [|done].
    apply item_lt in Ei. apply orb_prop in E as [E|E]; [apply Z.ltb_lt in E | apply Z.leb_le in E]; lia.
  - apply orb_false_elim in E as [E1 E2]. apply Z.ltb_ge in E1. apply Z.leb_gt in E2.
    destruct (item_is_Some hand i ltac:(lia)) as [card Hcard]. rewrite Hcard. simpl.
    by rewrite Ht.
Qed.

Lemma canPlayAny_eq s c hand top :
  ended s = false -> currentPlayerIndex s = Some c ->
  item (hands s) c = Some hand -> last (discardPileCards s) = Some top ->
  canPlayAny canPlay s =
    Return (existsb (fun card => canPlay card top (enforcedColor s)) hand) s.
Proof.
  intros He Hc Hh Ht. unfold canPlayAny, topCard, handOf. munfold.
  rewrite He. simpl. rewrite Hc. simpl. rewrite Hh. simpl.
  destruct hand; [done|]. by rewrite Ht.
Qed.

(** X13: [canPlayAny()] and [canPlay(i)] on a round in good order: neither
    throws nor changes the round, both return false once the round has
    ended, and [canPlayAny()] returns true exactly if [canPlay(i)] does for
    some index [i]. *)
Theorem canPlayAny_finds_an_index s :
  Inv s ->
  exists b,
    canPlayAny canPlay s = Return b s /\
    (ended s = true -> b = false) /\
    (forall i, exists b', canPlayIndex canPlay i s = Return b' s /\
                          (ended s = true -> b' = false)) /\
    (b = true <-> exists i, canPlayIndex canPlay i s = Return true s).
Proof.
  intros HI. destruct (ended s) eqn:He.
  - exists false. unfold canPlayAny, canPlayIndex. munfold. rewrite He. simpl.
    split; [done|]. split; [done|]. split; [by eexists|].
    split; [done|]. by intros [i Hi].
  - destruct (Inv_active s HI He) as (c & hand & top & Hc & _ & Hh & _ & Ht).
    rewrite (canPlayAny_eq s c hand top He Hc Hh Ht).
    eexists. split; [done|]. split; [done|]. split.
    { intros i. rewrite (canPlayIndex_eq s c hand top i He Hc Hh Ht). by eexists. }
    rewrite existsb_exists. split.
    + intros (card & Hin & Hp). apply list_elem_of_In, list_elem_of_lookup in Hin as [j Hj].
      exists (Z.of_nat j). rewrite (canPlayIndex_eq s c hand top _ He Hc Hh Ht).
      assert (item hand (Z.of_nat j) = Some card) as ->; [|by rewrite Hp].
      apply item_Some. split; [lia|]. by rewrite Nat2Z.id.
    + intros [i Hi]. rewrite (canPlayIndex_eq s c hand top i He Hc Hh Ht) in Hi.
      destruct (item hand i) as [card|] eqn:Ei; [|done]. injection Hi as Hi.
      exists card. split; [|done]. apply list_elem_of_In, list_elem_of_lookup.
      apply item_Some in Ei as [_ Ei]. eauto.
Qed.

(** X14: what a refused play leaves. On a round in good order that is still
    running, an index outside the hand of the player in turn makes [play]
    throw with the round untouched. A card that cannot be played on the top
    card and enforced colour makes it throw, whatever colour is passed, with
    the hands, the piles, the turn and the declarations untouched; but the
    attempt counts as an action: a window that was open for another player
    is closed by then. [canPlay(i)] returns false in the first case and
    whether the card can be played in the second. *)
Theorem play_refuses s i color :
  Inv s -> ended s = false ->
  exists c hand top,
    currentPlayerIndex s = Some c /\ item (hands s) c = Some hand /\
    last (discardPileCards s) = Some top /\
    match item hand i with
    | None =>
      canPlayIndex canPlay i s = Return false s /\
      play canPlay shuffler i color s = Throw "Card index out of bounds" s
    | Some card =>
      canPlayIndex canPlay i s = Return (canPlay card top (enforcedColor s)) s /\
      (canPlay card top (enforcedColor s) = false ->
       play canPlay shuffler i color s = Throw "Card cannot be played" (marked c s) /\
       cards_of (marked c s) = cards_of s /\ turn_of (marked c s) = turn_of s /\
       unoDeclared (marked c s) = unoDeclared s /\
       forall b, b <> c -> catchable (marked c s) b = false)
    end.
Proof.
  intros HI He.
  destruct (Inv_active s HI He) as (c & hand & top & Hc & Hr & Hh & _ & Ht).
  exists c, hand, top. split; [done|]. split; [done|]. split; [done|].
  rewrite (canPlayIndex_eq s c hand top i He Hc Hh Ht).
  destruct (marked_fields c s) as (Mh & Md & Mp & Mu & Mt).
  assert (Hme : ended (marked c s) = false /\ currentPlayerIndex (marked c s) = Some c /\
                enforcedColor (marked c s) = enforcedColor s).
  { unfold turn_of in Mt. injection Mt as _ _ _ _ _ M6 M7 M8 _ _ _. by rewrite M6, M7, M8. }
  destruct Hme as (Me & Mc & Mcol).
  assert (H1 : ensureActiveRound s = Return tt s).
  { unfold ensureActiveRound. munfold. by rewrite He. }
  assert (H2 : ensureCurrentPlayer s = Return c s).
  { unfold ensureCurrentPlayer. munfold. by rewrite Hc. }
  unfold play.
  rewrite (bind_eq _ _ _ _ _ H1), (bind_eq _ _ _ _ _ H2).
  destruct (item hand i) as [card|] eqn:Ei.
  - pose proof (item_lt _ _ _ Ei) as Hlt.
    split; [done|]. intros Hp.
    assert (H3 : ensureCardIndex c i s = Return tt s).
    { unfold ensureCardIndex. rewrite (bind_eq _ _ _ _ _ (handOf_eq c s hand Hh)).
      destruct (Z.ltb_spec i 0); [lia|]. destruct (Z.leb_spec (len hand) i); [lia|]. done. }
    assert (H4 : markActionBy c s = Return tt (marked c s)) by done.
    assert (Hh' : item (hands (marked c s)) c = Some hand) by (by rewrite Mh).
    assert (Ht' : last (discardPileCards (marked c s)) = Some top) by (by rewrite Md).
    rewrite (bind_eq _ _ _ _ _ H3), (bind_eq _ _ _ _ _ H4).
    rewrite (bind_eq _ _ _ _ _ (handOf_eq c _ hand Hh')). rewrite Ei.
    unfold defined at 1. unfold bind at 1, ret at 1.
    rewrite (bind_eq _ _ _ _ _ (canPlayIndex_eq (marked c s) c hand top i Me Mc Hh' Ht')).
    rewrite Ei, Mcol, Hp. simpl.
    split; [done|]. split; [apply (keeps_cards_markActionBy c s)|].
    split; [done|]. split; [done|].
    intros b Hb. apply (quietExcept_catchable c); [apply marked_quiet | done].
  - split; [done|].
    assert (H3 : ensureCardIndex c i s = Throw "Card index out of bounds" s).
    { unfold ensureCardIndex. rewrite (bind_eq _ _ _ _ _ (handOf_eq c s hand Hh)).
      destruct (Z.ltb_spec i 0); [done|]. destruct (Z.leb_spec (len hand) i); [done|].
      destruct (item_is_Some hand i ltac:(lia)) as [x Hx]. congruence. }
    unfold bind at 1. by rewrite H3.
Qed.

End Playable.

(** ** When a turn goes through *)

Lemma pendingIn_same s s' :
  pendingUno s' = pendingUno s -> playerCount s' = playerCount s ->
  pendingIn s -> pendingIn s'.
Proof. unfold pendingIn. by intros -> ->. Qed.

Lemma pendingIn_none s : pendingUno s = None -> pendingIn s.
Proof. unfold pendingIn. by intros ->. Qed.

Section Totality.

Variable canPlay : Card -> Card -> option Color -> bool.
Variable shuffler : nat -> list Card -> list Card.
Variable createInitialDeck : list Card.

Lemma draw_pendingIn s card s' :
  Inv s -> pendingIn s -> draw canPlay shuffler s = Return card s' -> pendingIn s'.
Proof.
  intros [Hs _ Hturn] Hin H. unfold draw in H.
  bind_open H as u0 s0 B0. apply ensureActiveRound_Return in B0 as [-> He].
  bind_open H as c s0 B0. apply ensureCurrentPlayer_Return in B0 as [-> Hc].
  unfold turnConsistent in Hturn. rewrite He in Hturn.
  destruct Hturn as ((c0 & Hc0 & Hr) & _ & _).
  rewrite Hc in Hc0. injection Hc0 as <-.
  bind_open H as u1 s1 B1.
  assert (s1 = marked c s) as -> by (unfold marked; by rewrite B1).
  destruct (marked_fields c s) as (_ & _ & _ & _ & Mt).
  apply (marked_pendingIn c) in Hin.
  bind_open H as card' s2 B2.
  apply takeFromDrawPile_Return in B2 as (_ & _ & _ & _ & _ & _ & Tp & Tt).
  bind_open H as hand s3 B3. apply handOf_Return in B3 as [-> Hh].
  bind_open H as u4 s4 B4. unfold setHand, modify in B4. injection B4 as _ <-.
  bind_open H as u5 s5 B5.
  unfold turn_of in Mt, Tt. injection Mt as M1 _ _ _ _ _ _ _ _ _ _.
  injection Tt as T1 _ _ _ _ _ _ _ _ _ _.
  apply updateUnoStateFor_pendingIn in B5; [|simpl; lia|].
  2:{ apply (pendingIn_same (marked c s)); [done | done | done]. }
  bind_open H as top s6 B6. apply topCard_Return in B6 as [-> _].
  bind_open H as enforced s7 B7. unfold gets in B7. injection B7 as <- <-.
  destruct (negb _).
  - bind_open H as u8 s8 B8. unfold advance in B8. munfold.
    destruct (currentPlayerIndex s5); simplify_eq; done.
  - munfold. by simplify_eq.
Qed.

Lemma sayUno_pendingIn index s u s' :
  pendingIn s -> sayUno index s = Return u s' -> pendingIn s'.
Proof.
  intros Hin H. unfold sayUno in H.
  bind_open H as i s0 B0. apply ensurePlayerIndex_Return in B0 as (-> & _ & Hi).
  bind_open H as e s0 B0. unfold gets in B0. injection B0 as <- <-.
  destruct (ended s); [done|].
  bind_open H as hand s0 B0. apply handOf_Return in B0 as [-> Hh].
  destruct (2 <? len hand); [done|].
  unfold setDeclared, clearPendingOf in H. munfold. simpl in H.
  destruct (pendingUno s) as [q|] eqn:Eq; [|simplify_eq; by apply pendingIn_none].
  destruct (uno_player q =? i); simplify_eq; [by apply pendingIn_none|].
  by apply (pendingIn_same s).
Qed.

Lemma catchUnoFailure_pendingIn a b s v s' :
  Shaped s -> pendingIn s ->
  catchUnoFailure shuffler a b s = Return v s' -> pendingIn s'.
Proof.
  intros Hs Hin H. unfold catchUnoFailure in H.
  bind_open H as a' s0 B0. apply ensurePlayerIndex_Return in B0 as (-> & _ & Ha).
  bind_open H as b' s0 B0. apply ensurePlayerIndex_Return in B0 as (-> & _ & Hb).
  bind_open H as pending s0 B0. unfold gets in B0. injection B0 as <- <-.
  destruct (pendingUno s) as [p|] eqn:Ep; [|unfold ret in H; by simplify_eq].
  destruct (negb (uno_player p =? b')); [unfold ret in H; by simplify_eq|].
  destruct (negb (windowOpen p)); [unfold ret in H; by simplify_eq|].
  bind_open H as d s0 B0. unfold gets in B0. injection B0 as <- <-.
  destruct (declared s b'); [unfold ret in H; by simplify_eq|].
  bind_open H as hand s0 B0. apply handOf_Return in B0 as [-> Hh].
  destruct (negb (len hand =? 1)); [unfold ret in H; by simplify_eq|].
  bind_open H as u1 s1 B1. unfold modify in B1. injection B1 as _ <-.
  bind_open H as u2 s2 B2. unfold applyPenalty, drawCardsForPlayer in B2.
  bind_open B2 as u3 s3 B3.
  pose proof (keeps_Return _ _ _ _ _ (turn_drawCards shuffler _ _) B3) as Ht.
  unfold turn_of in Ht. injection Ht as Hn _ _ _ _ _ _ _ _ _ _. simpl in Hn.
  destruct (drawCards_hands shuffler _ _ (set_pendingUno None s) _ _ hand Hh B3)
    as (cards & _ & _ & _ & _ & Hp).
  apply updateUnoStateFor_pendingIn in B2; [|lia|by apply pendingIn_none].
  bind_open H as u4 s4 B4. unfold setDeclared, modify in B4. injection B4 as _ <-.
  unfold ret in H. by simplify_eq.
Qed.

Lemma perform_pendingIn c s s' :
  Inv s -> pendingIn s -> perform canPlay shuffler c s = Return tt s' -> pendingIn s'.
Proof.
  intros HI Hin H. destruct c; simpl in H; unfold forget in H.
  - destruct (play _ _ _ _ _) as [card s1|] eqn:E; [|done]. injection H as <-.
    destruct (play_outcome canPlay shuffler s _ _ _ _ HI E)
      as (c & hand & top & vh & drawn & _ & _ & _ & (_ & _ & Hp) & _). by apply Hp.
  - destruct (draw _ _ _) as [card s1|] eqn:E; [|done]. injection H as <-.
    by apply (draw_pendingIn s card).
  - destruct (sayUno _ _) as [u s1|] eqn:E; [|done]. injection H as <-.
    by apply (sayUno_pendingIn playerIndex s u).
  - destruct (catchUnoFailure _ _ _ _) as [v s1|] eqn:E; [|done]. injection H as <-.
    destruct HI as [Hs _ _]. by apply (catchUnoFailure_pendingIn accuser accused s v).
  - destruct (score _) as [v s1|] eqn:E; [|done]. injection H as <-.
    apply (pendingIn_same s); [| |done].
    + by apply (keeps_Return _ _ _ _ _ (pending_score) E).
    + assert (keeps playerCount score) as K by (unfold score; keeps_tac).
      by apply (keeps_Return _ _ _ _ _ K E).
  - destruct (onEnd _ _) as [u s1|] eqn:E; [|done]. injection H as <-.
    apply (pendingIn_same s); [| |done].
    + by apply (keeps_Return _ _ _ _ _ (pending_onEnd handler) E).
    + assert (keeps playerCount (onEnd handler)) as K by (unfold onEnd; keeps_tac).
      by apply (keeps_Return _ _ _ _ _ K E).
Qed.

Lemma reachable_pendingIn s :
  reachable canPlay shuffler createInitialDeck s -> pendingIn s.
Proof.
  induction 1 as [memento s H | fuel config s H | s c s' Hr IH H].
  - apply createRoundFromMemento_Inv in H as (_ & H & _). by apply pendingIn_none.
  - apply createRound_Inv in H as (_ & H). by apply pendingIn_none.
  - apply (perform_pendingIn c s); [|done|done].
    by apply (reachable_Inv canPlay shuffler createInitialDeck).
Qed.

End Totality.

Lemma advance_total n s : exists s', advance n s = Return tt s'.
Proof. unfold advance. munfold. destruct (currentPlayerIndex s); by eexists. Qed.

Lemma finishRound_total w s : exists s', finishRound w s = Return tt s'.
Proof. unfold finishRound. munfold. destruct (ended s); by eexists. Qed.

Lemma Shaped_hands_defined s (hs : list (list Card)) p :
  Shaped s -> length hs = length (hands s) -> 0 <= p < playerCount s ->
  is_Some (item hs p).
Proof.
  intros [_ _ Hh _ _ _] Hl Hp. apply item_is_Some. unfold len in *. lia.
Qed.

Section GoingThrough.

Variable canPlay : Card -> Card -> option Color -> bool.
Variable shuffler : nat -> list Card -> list Card.
Variable createInitialDeck : list Card.
Hypothesis shuffler_perm : forall n cards, shuffler n cards ≡ₚ cards.

Lemma applyPenalty_total p n s :
  Shaped s -> pendingIn s -> 0 <= p < playerCount s ->
  (Z.to_nat n <= available s)%nat ->
  exists s', applyPenalty shuffler p n s = Return tt s'.
Proof.
  intros Hs Hin Hp Hn. unfold applyPenalty, drawCardsForPlayer.
  destruct (Shaped_in_range s p Hs Hp) as [_ [hand Hh]].
  destruct (drawCards_enough shuffler shuffler_perm _ p s hand Hh Hn) as [s1 H1].
  rewrite (bind_eq _ _ _ _ _ H1).
  destruct (drawCards_hands shuffler _ _ _ _ _ hand Hh H1) as (cards & _ & Hhs & _ & _ & Hpu).
  pose proof (keeps_Return _ _ _ _ _ (turn_drawCards shuffler _ _) H1) as Ht.
  unfold turn_of in Ht. injection Ht as Hc _ _ _ _ _ _ _ _ _ _.
  apply updateUnoStateFor_total.
  - apply (Shaped_hands_defined s); [done | by rewrite Hhs, length_insert | done].
  - intros q Hq. rewrite Hpu in Hq.
    apply (Shaped_hands_defined s); [done | by rewrite Hhs, length_insert | by apply Hin].
Qed.

Lemma applyPenalty_short p n s :
  Shaped s -> 0 <= p < playerCount s -> (available s < Z.to_nat n)%nat ->
  exists s', applyPenalty shuffler p n s = Throw "Cannot replenish draw pile" s'.
Proof.
  intros Hs Hp Hn. unfold applyPenalty, drawCardsForPlayer.
  destruct (Shaped_in_range s p Hs Hp) as [_ [hand Hh]].
  destruct (drawCards_short shuffler shuffler_perm _ p s hand Hh Hn) as [s1 H1].
  exists s1. unfold bind. by rewrite H1.
Qed.

Lemma playEffect_total card s c :
  Shaped s -> pendingIn s -> currentPlayerIndex s = Some c ->
  (penaltyOf card <= available s)%nat ->
  exists steps s', playEffect shuffler card s = Return steps s'.
Proof.
  intros Hs Hin Hc Hn.
  assert (Hpen : forall n, (Z.to_nat n <= available s)%nat ->
            exists steps s',
              (let* victim := nextIndexFromCurrent 1 in
               applyPenalty shuffler victim n;;; markActionBy victim;;; ret 2) s =
              Return steps s').
  { intros n Hle.
    assert (nextIndexFromCurrent 1 s =
              Return (mod_ (c + 1 * direction s) (playerCount s)) s) as Hv.
    { unfold nextIndexFromCurrent, ensureCurrentPlayer. munfold. by rewrite Hc. }
    rewrite (bind_eq _ _ _ _ _ Hv).
    destruct (applyPenalty_total (mod_ (c + 1 * direction s) (playerCount s)) n s)
      as [s1 H1]; try done.
    { apply mod_range. destruct Hs. lia. }
    rewrite (bind_eq _ _ _ _ _ H1). unfold markActionBy. munfold. by eexists _, _. }
  destruct card; simpl in *; try (munfold; by eexists _, _).
  - munfold. destruct (playerCount s =? 2); by eexists _, _.
  - apply Hpen. simpl. lia.
  - apply Hpen. simpl. lia.
Qed.

Lemma playEffect_short card s c :
  Shaped s -> currentPlayerIndex s = Some c ->
  (available s < penaltyOf card)%nat ->
  exists s', playEffect shuffler card s = Throw "Cannot replenish draw pile" s'.
Proof.
  intros Hs Hc Hn.
  assert (Hpen : forall n, (available s < Z.to_nat n)%nat ->
            exists s',
              (let* victim := nextIndexFromCurrent 1 in
               applyPenalty shuffler victim n;;; markActionBy victim;;; ret 2) s =
              Throw "Cannot replenish draw pile" s').
  { intros n Hle.
    assert (nextIndexFromCurrent 1 s =
              Return (mod_ (c + 1 * direction s) (playerCount s)) s) as Hv.
    { unfold nextIndexFromCurrent, ensureCurrentPlayer. munfold. by rewrite Hc. }
    rewrite (bind_eq _ _ _ _ _ Hv).
    destruct (applyPenalty_short (mod_ (c + 1 * direction s) (playerCount s)) n s)
      as [s1 H1]; try done.
    { apply mod_range. destruct Hs. lia. }
    exists s1. unfold bind. by rewrite H1. }
  destruct card; simpl in *; try lia.
  - apply Hpen. simpl. lia.
  - apply Hpen. simpl. lia.
Qed.

(** X15: a call of [draw()] on a running round that was built by
    [createRound] or from a memento and driven by calls that returned: it
    returns a card as long as a card is left on the draw pile or under the
    top of the discard pile; when none is, it throws, and by then the
    attempt has counted as an action of the player in turn. *)
Theorem draw_returns_while_cards_last s :
  reachable canPlay shuffler createInitialDeck s -> ended s = false ->
  ((0 < available s)%nat -> exists card s', draw canPlay shuffler s = Return card s') /\
  (available s = 0%nat ->
   exists c, currentPlayerIndex s = Some c /\
     draw canPlay shuffler s = Throw "Cannot replenish draw pile" (marked c s)).
Proof.
  intros Hr He.
  pose proof (reachable_pendingIn canPlay shuffler createInitialDeck s Hr) as Hin.
  apply reachable_Inv in Hr as HI.
  destruct (Inv_active s HI He) as (c & hand & top & Hc & Hcr & Hh & _ & Ht).
  destruct HI as [Hs _ _].
  destruct (marked_fields c s) as (Mh & Md & Mp & Mu & Mt).
  assert (H1 : ensureActiveRound s = Return tt s).
  { unfold ensureActiveRound. munfold. by rewrite He. }
  assert (H2 : ensureCurrentPlayer s = Return c s).
  { unfold ensureCurrentPlayer. munfold. by rewrite Hc. }
  assert (H4 : markActionBy c s = Return tt (marked c s)) by done.
  assert (Hav : available (marked c s) = available s).
  { unfold available. by rewrite Mp, Md. }
  unfold draw.
  rewrite (bind_eq _ _ _ _ _ H1), (bind_eq _ _ _ _ _ H2), (bind_eq _ _ _ _ _ H4).
  split.
  - intros Ha. rewrite <- Hav in Ha.
    destruct (takeFromDrawPile_available shuffler shuffler_perm _ Ha) as (card & s2 & Et & _).
    rewrite (bind_eq _ _ _ _ _ Et).
    apply takeFromDrawPile_Return in Et as (_ & Tl & _ & _ & Th & _ & Tp & Tt).
    assert (Hh2 : item (hands s2) c = Some hand) by (by rewrite Th, Mh).
    rewrite (bind_eq _ _ _ _ _ (handOf_eq c s2 hand Hh2)).
    unfold setHand. unfold bind at 1, modify at 1.
    set (s4 := set_hands _ s2).
    destruct (updateUnoStateFor_total c s4) as [s5 H5].
    { apply (Shaped_hands_defined s); [done| |done].
      subst s4. simpl. by rewrite length_insert, Th, Mh. }
    { intros q Hq. subst s4. simpl in *. rewrite Tp in Hq.
      apply (Shaped_hands_defined s); [done | by rewrite length_insert, Th, Mh |].
      apply (marked_pendingIn c) in Hin. specialize (Hin q Hq).
      unfold turn_of in Mt. injection Mt as M1 _ _ _ _ _ _ _ _ _ _. by rewrite M1 in Hin. }
    rewrite (bind_eq _ _ _ _ _ H5).
    apply updateUnoStateFor_Return in H5 as (_ & _ & Uc & _ & _).
    unfold cards_of in Uc. injection Uc as _ _ U3 _ _.
    assert (topCard s5 = Return top s5) as H6.
    { unfold topCard. munfold. rewrite U3. subst s4. simpl. by rewrite Tl, Md, Ht. }
    rewrite (bind_eq _ _ _ _ _ H6). unfold bind at 1, gets at 1.
    destruct (negb _).
    + destruct (advance_total 1 s5) as [s6 H7]. rewrite (bind_eq _ _ _ _ _ H7).
      by eexists _, _.
    + munfold. by eexists _, _.
  - intros Ha. exists c. split; [done|]. rewrite <- Hav in Ha.
    unfold bind at 1. by rewrite (takeFromDrawPile_unavailable shuffler _ Ha).
Qed.

(** X16: a call of [play] on a running round that was built by [createRound]
    or from a memento and driven by calls that returned, with the index of a
    card that can be played and a colour exactly if the card is wild: it
    returns that card whenever the cards the next player has to draw can be
    handed out, counting what lies under the card just played; when they
    cannot, it throws. *)
Theorem play_returns_when_allowed s i color c hand top card :
  reachable canPlay shuffler createInitialDeck s -> ended s = false ->
  currentPlayerIndex s = Some c -> item (hands s) c = Some hand ->
  item hand i = Some card -> last (discardPileCards s) = Some top ->
  canPlay card top (enforcedColor s) = true ->
  (if isWild card then is_Some color else color = None) ->
  ((penaltyOf card <= available s + 1)%nat ->
   exists s', play canPlay shuffler i color s = Return card s') /\
  ((available s + 1 < penaltyOf card)%nat ->
   exists s', play canPlay shuffler i color s = Throw "Cannot replenish draw pile" s').
Proof.
  intros Hr He Hc Hh Hi Ht Hp Hcol.
  pose proof (reachable_pendingIn canPlay shuffler createInitialDeck s Hr) as Hin.
  apply reachable_Inv in Hr as HI. destruct HI as [Hs _ Hturn].
  unfold turnConsistent in Hturn. rewrite He in Hturn.
  destruct Hturn as ((c0 & Hc0 & Hcr) & _ & _).
  rewrite Hc in Hc0. injection Hc0 as <-.
  rewrite (play_moves_card canPlay shuffler s c hand card i top color He Hc Hh Hi Ht Hp).
  destruct (marked_fields c s) as (Mh & Md & Mp & Mu & Mt).
  pose proof (marked_pendingIn c s Hin) as Min.
  pose proof Hh as [_ Hhn]%item_Some.
  set (X := set_discardPileCards _ _).
  assert (HsX : Shaped X).
  { apply (Shaped_shape s); [done|]. subst X. apply shape_of_turn.
    - exact Mt.
    - unfold handCount. simpl. by rewrite length_insert.
    - simpl. by rewrite Mu. }
  unfold turn_of in Mt. injection Mt as M1 _ _ _ _ M6 _ _ _ _ _.
  assert (exists v, playColor card color X = Return tt (set_enforcedColor v X)) as [v H1].
  { unfold playColor. destruct (isWild card).
    - destruct Hcol as [col ->]. rewrite ensureColorValue_ok. munfold. by eexists.
    - rewrite Hcol. munfold. by eexists. }
  rewrite (bind_eq _ _ _ _ _ H1).
  set (s1 := set_enforcedColor v X).
  assert (Hs1 : Shaped s1) by (by apply (Shaped_shape X)).
  assert (Hav1 : available s1 = (available s + 1)%nat).
  { unfold available. subst s1 X. simpl. rewrite Mp, length_app. simpl.
    apply last_Some in Ht as [l' ->]. rewrite length_app. simpl. lia. }
  assert (Hc1 : currentPlayerIndex s1 = Some c) by (subst s1 X; simpl; congruence).
  assert (Hin1 : pendingIn s1).
  { unfold pendingIn in *. subst s1 X. simpl. exact Min. }
  split.
  - intros Hn. rewrite <- Hav1 in Hn.
    destruct (playEffect_total card s1 c Hs1 Hin1 Hc1 Hn) as (steps & s2 & H2).
    rewrite (bind_eq _ _ _ _ _ H2).
    pose proof H2 as H2a. pose proof H2 as H2b.
    apply playEffect_Return in H2a as (_ & _ & Hn2 & Hc2 & _).
    apply playEffect_Mid in H2b as (Hs2 & _); [|done].
    apply (playEffect_hands shuffler card s1 steps s2 c) in H2
      as (_ & _ & _ & _ & _ & _ & _ & _ & Hin2); [|done|done|].
    2:{ subst s1 X. simpl. lia. }
    specialize (Hin2 Hin1).
    assert (0 <= c < playerCount s2) as Hcr2.
    { rewrite Hn2. subst s1 X. simpl. lia. }
    destruct (updateUnoStateFor_total c s2) as [s3 H3].
    { by apply (Shaped_in_range s2 c Hs2). }
    { by apply pendingIn_hands. }
    rewrite (bind_eq _ _ _ _ _ H3).
    apply updateUnoStateFor_Return in H3 as (hand2 & Hh2 & Uc & _ & _).
    unfold cards_of in Uc. injection Uc as U1 _ _ _ _.
    assert (item (hands s3) c = Some hand2) as Hh3 by (by rewrite U1).
    rewrite (bind_eq _ _ _ _ _ (handOf_eq c s3 hand2 Hh3)).
    destruct (len hand2 =? 0).
    + unfold bind at 1, modify at 1.
      destruct (finishRound_total c (set_pendingUno None s3)) as [s5 H5].
      rewrite (bind_eq _ _ _ _ _ H5). by eexists.
    + unfold bind at 1, gets at 1. destruct (negb _).
      * destruct (advance_total steps s3) as [s6 H6]. rewrite (bind_eq _ _ _ _ _ H6).
        by eexists.
      * munfold. by eexists.
  - intros Hn. rewrite <- Hav1 in Hn.
    destruct (playEffect_short card s1 c Hs1 Hc1 Hn) as (s2 & H2).
    exists s2. unfold bind at 1. by rewrite H2.
Qed.

End GoingThrough.

(** ** What a memento leaves out *)

Lemma declared_replicate n s p :
  unoDeclared s = replicate n false -> declared s p = false.
Proof.
  intros H. unfold declared, item. rewrite H. destruct (p <? 0); [done|].
  destruct (replicate n false !! Z.to_nat p) as [b|] eqn:E; [|done].
  by apply lookup_replicate in E as [-> _].
Qed.

Section Restoring.

Variable shuffler : nat -> list Card -> list Card.

(** X17: a memento carries neither UNO declarations nor a pending accusation
    nor listeners. A round saved by [toMemento()] and restored by
    [createRoundFromMemento] has the hands of the original, but nobody in it
    has declared UNO, no accusation succeeds, even one that would have
    succeeded before saving, and no listener is registered. *)
Theorem restoring_forgets_uno s memento s' :
  toMemento s = Return memento s ->
  createRoundFromMemento memento = ok s' ->
  hands s' = hands s /\ players s' = players s /\
  pendingUno s' = None /\ (forall p, declared s' p = false) /\
  listeners s' = [] /\ notified s' = [] /\ cachedScore s' = None /\
  forall a b, 0 <= a < playerCount s' -> 0 <= b < playerCount s' ->
    catchUnoFailure shuffler (Int a) (Int b) s' = Return false s'.
Proof.
  intros Hm Hc.
  pose proof (createRoundFromMemento_Inv _ _ Hc) as (_ & Hp & _).
  apply createRoundFromMemento_new in Hc as (state & Hn & Hpl & Hh).
  apply new_RoundImpl_fresh in Hn as (F1 & F2 & F3 & F4 & F5 & F6).
  unfold toMemento in Hm. bind_open Hm as s0 s1 B0. unfold gets in B0. injection B0 as <- <-.
  bind_open Hm as color s1 B1. unfold ret in Hm. injection Hm as <-. simpl in *.
  rewrite map_map_cloneCard in Hh.
  split; [congruence|]. split; [congruence|]. split; [done|].
  split; [intros p; by apply (declared_replicate _ _ _ F4)|].
  split; [done|]. split; [done|]. split; [done|].
  intros a b Ha Hb. by apply catchUnoFailure_no_pending_in_bounds.
Qed.

End Restoring.

(** ** Stale views *)

Section Stale.

Variable canPlay : Card -> Card -> option Color -> bool.
Variable shuffler : nat -> list Card -> list Card.

Lemma takeFromDrawPile_retires s card s' :
  drawPileCards s = [] ->
  takeFromDrawPile shuffler s = Return card s' ->
  retired s' = retired s ++ [([], discardPileCards s)] /\
  exists top, last (discardPileCards s) = Some top /\ discardPileCards s' = [top].
Proof.
  intros Hd H.
  destruct (Z.leb_spec (len (discardPileCards s)) 1) as [Hl|Hl].
  { by rewrite takeFromDrawPile_exhausted in H. }
  destruct (last (discardPileCards s)) as [top|] eqn:Ht.
  2:{ apply last_None in Ht. rewrite Ht in Hl. unfold len in Hl. simpl in Hl. lia. }
  pose proof (refillDrawPile_empty shuffler s top Hd Hl Ht) as Hr.
  unfold takeFromDrawPile in H. unfold bind at 1, gets at 1 in H. rewrite Hd in H.
  simpl in H. unfold bind at 1 in H. rewrite Hr in H. munfold. simpl in H.
  destruct (shuffler _ _); simplify_eq. simpl. eauto.
Qed.

(** X18: a view handed out before the draw pile was refilled does not follow
    the round any further. When [draw()] finds the draw pile empty and
    returns, the view of the draw pile taken before the call still shows an
    empty pile, and the view of the discard pile still shows every card that
    lay there, while the round's discard pile holds its top card alone; and
    whatever is then written through either view leaves the hands and both
    piles of the round as they are. *)
Theorem views_go_stale_on_refill s card s' dv cv :
  drawPileCards s = [] ->
  drawPile s = Return dv s -> discardPile s = Return cv s ->
  draw canPlay shuffler s = Return card s' ->
  DrawPileView.size dv s' = Return 0 s' /\
  DiscardPileView.toMemento cv s' = Return (discardPileCards s) s' /\
  (exists top, last (discardPileCards s) = Some top /\ discardPileCards s' = [top]) /\
  1 < len (discardPileCards s) /\
  forall v cards, v = dv \/ v = cv ->
    drawPileCards (writeArray v cards s') = drawPileCards s' /\
    discardPileCards (writeArray v cards s') = discardPileCards s' /\
    hands (writeArray v cards s') = hands s'.
Proof.
  intros Hd Hdv Hcv H.
  unfold drawPile, gets in Hdv. injection Hdv as <-.
  unfold discardPile, gets in Hcv. injection Hcv as <-.
  unfold draw in H.
  bind_open H as u0 s0 B0. apply ensureActiveRound_Return in B0 as [-> He].
  bind_open H as c s0 B0. apply ensureCurrentPlayer_Return in B0 as [-> Hc].
  bind_open H as u1 s1 B1.
  assert (s1 = marked c s) as -> by (unfold marked; by rewrite B1).
  destruct (marked_fields c s) as (_ & Md & Mp & _ & _).
  pose proof (keeps_cards_markActionBy c s) as Mc. fold (marked c s) in Mc.
  unfold cards_of in Mc. injection Mc as _ _ _ _ Mr.
  bind_open H as card' s2 B2.
  pose proof B2 as B2'.
  apply takeFromDrawPile_retires in B2 as (Hr & top & Ht & Hdis); [|by rewrite Mp].
  apply takeFromDrawPile_Return in B2' as (_ & _ & _ & Hlen & _).
  destruct (Hlen ltac:(by rewrite Mp)) as (_ & _ & _ & Hl).
  rewrite Md in Hl, Ht, Hr. rewrite Mr in Hr.
  bind_open H as hand s3 B3. apply handOf_Return in B3 as [-> Hh].
  bind_open H as u4 s4 B4. unfold setHand, modify in B4. injection B4 as _ <-.
  bind_open H as u5 s5 B5.
  pose proof (keeps_Return _ _ _ _ _ (keeps_cards_updateUnoStateFor c) B5) as Uc.
  bind_open H as top' s6 B6. apply topCard_Return in B6 as [-> _].
  bind_open H as enforced s7 B7. unfold gets in B7. injection B7 as <- <-.
  assert (Hfin : cards_of s' = cards_of s5).
  { destruct (negb _).
    - bind_open H as u8 s8 B8. unfold ret in H. injection H as _ <-.
      by apply (keeps_Return _ _ _ _ _ (keeps_cards_advance 1) B8).
    - munfold. by simplify_eq. }
  rewrite Uc in Hfin. unfold cards_of in Hfin. simpl in Hfin.
  injection Hfin as F1 F2 F3 F4 F5.
  assert (Hne : length (retired s) <> length (retired s')).
  { rewrite F5, Hr, length_app. simpl. lia. }
  assert (Hlook : retired s' !! length (retired s) = Some ([], discardPileCards s)).
  { rewrite F5, Hr. rewrite lookup_app_r by lia. by rewrite Nat.sub_diag. }
  split; [|split; [|split; [|split]]].
  - unfold DrawPileView.size, gets, readArray. simpl.
    rewrite decide_False by done. by rewrite Hlook.
  - unfold DiscardPileView.toMemento, gets, readArray. simpl.
    rewrite decide_False by done. by rewrite Hlook, map_serialize.
  - exists top. split; [done|]. by rewrite F3.
  - done.
  - intros v cards [-> | ->]; by apply stale_view_detached.
Qed.

End Stale.

(** ** Listeners *)

Section Listeners.

Variable canPlay : Card -> Card -> option Color -> bool.
Variable shuffler : nat -> list Card -> list Card.

(** X19: [onEnd] on a round in good order never throws and touches neither
    the cards nor the turn. On a finished round the handler is told the
    winner at once and is not kept. On a running round it is kept, after the
    handlers registered before it, and is told nothing yet; the play that
    ends the round then tells every kept handler the winner once, in the
    order of registration, this one last. *)
Theorem onEnd_tells_the_winner s handler :
  Inv s ->
  exists s1,
    onEnd handler s = Return tt s1 /\
    observable s1 = observable s /\ ended s1 = ended s /\
    winnerIndex s1 = winnerIndex s /\
    if ended s then
      exists w, winnerIndex s = Some w /\
        notified s1 = notified s ++ [(handler, w)] /\ listeners s1 = listeners s
    else
      notified s1 = notified s /\ listeners s1 = listeners s ++ [handler] /\
      forall i color card s2,
        play canPlay shuffler i color s1 = Return card s2 -> ended s2 = true ->
        exists c, winnerIndex s2 = Some c /\
          notified s2 =
            notified s ++ map (fun l => (l, c)) (listeners s) ++ [(handler, c)].
Proof.
  intros HI.
  destruct (onEnd handler s) as [u s1|msg s1] eqn:E.
  2:{ unfold onEnd in E. munfold. by destruct (ended s), (winnerIndex s). }
  pose proof (onEnd_Inv handler s u s1 HI E) as HI1.
  destruct u. exists s1. split; [done|].
  destruct HI as [_ _ Ht]. unfold turnConsistent in Ht.
  unfold onEnd in E. munfold.
  destruct (ended s) eqn:He.
  - destruct Ht as (_ & _ & w & Hw & _). rewrite Hw in E. injection E as <-.
    simpl. repeat split; try done. by exists w.
  - assert (s1 = set_listeners (listeners s ++ [handler]) s) as ->.
    { by destruct (winnerIndex s); injection E as <-. }
    simpl. repeat split; try done.
    intros i color card s2 Hplay Hend.
    destruct (play_outcome canPlay shuffler _ i color card s2 HI1 Hplay)
      as (c & hand & top & vh & drawn & _ & _ & _ & _ & (_ & Hfin)).
    destruct (len hand =? 1).
    + destruct Hfin as (_ & E2 & _ & _ & _ & E6). exists c. split; [done|].
      rewrite E6. simpl. by rewrite map_app.
    + destruct Hfin as (E1 & _). congruence.
Qed.

End Listeners.

(** ** Rounds in good order *)

Section InOrder.

Variable canPlay : Card -> Card -> option Color -> bool.
Variable shuffler : nat -> list Card -> list Card.
Variable createInitialDeck : list Card.

(** X20: what holds of every round built by [createRound] or from a memento
    and driven by calls that returned. There are two to ten players, a hand
    for each, a dealer among them, and the direction is 1 or -1. While the
    round runs, a player is in turn, every hand holds a card, nobody has
    won, no score is cached, and a pending accusation names a player of the
    round. Once it has ended, nobody is in turn, nothing is pending, and the
    winner is the one player whose hand is empty. *)
Theorem reachable_round_in_order s :
  reachable canPlay shuffler createInitialDeck s ->
  playerCount s = len (players s) /\ 2 <= playerCount s <= 10 /\
  len (hands s) = playerCount s /\ 0 <= dealer s < playerCount s /\
  (direction s = 1 \/ direction s = -1) /\
  if ended s then
    currentPlayerIndex s = None /\ pendingUno s = None /\
    exists w, winnerIndex s = Some w /\ 0 <= w < playerCount s /\
      forall p hand, item (hands s) p = Some hand -> hand = [] <-> p = w
  else
    (exists c, currentPlayerIndex s = Some c /\ 0 <= c < playerCount s) /\
    (forall p hand, item (hands s) p = Some hand -> hand <> []) /\
    winnerIndex s = None /\ cachedScore s = None /\
    forall q, pendingUno s = Some q -> 0 <= uno_player q < playerCount s.
Proof.
  intros Hr.
  pose proof (reachable_pendingIn canPlay shuffler createInitialDeck s Hr) as Hin.
  pose proof (reachable_scored canPlay shuffler createInitialDeck s Hr) as Hsc.
  apply reachable_Inv in Hr as [[H1 H2 H3 H4 H5 H6] _ Ht].
  do 5 (split; [done|]).
  unfold turnConsistent in Ht. destruct (ended s).
  - destruct Ht as (Hc & Hp & w & Hw & Hws). split; [done|]. split; [done|].
    exists w. split; [done|].
    assert (w ∈ winnersFrom 0 (hands s)) as Hwin by (rewrite Hws; constructor).
    apply winnersFrom_elem in Hwin as (j & Hj & Hjh). simpl in Hj. subst w.
    split. { apply lookup_lt_Some in Hjh. unfold len in *. lia. }
    intros p hand Hh. apply item_Some in Hh as [Hp0 Hh]. split.
    + intros ->.
      assert (p ∈ winnersFrom 0 (hands s)) as Hpw.
      { apply winnersFrom_elem. exists (Z.to_nat p). split; [simpl; lia | done]. }
      rewrite Hws in Hpw. by apply list_elem_of_singleton in Hpw.
    + intros Hpj. assert (Z.to_nat p = j) as Hpj' by lia. rewrite Hpj' in Hh. congruence.
  - destruct Ht as (Hc & Hw & Hwin). split; [done|]. split.
    { intros p hand Hh. apply item_Some in Hh as [_ Hh].
      apply nonempty_all in Hw. by apply (Hw _ _ Hh). }
    split; [done|]. split; [|exact Hin].
    unfold scored in Hsc. destruct (cachedScore s); [|done].
    destruct Hsc as (w & Hw' & _). congruence.
Qed.

End InOrder.

(** ** The theorems at work on sample rounds *)

Lemma sampleRound_Inv : Inv sampleRound.
Proof. exact (proj1 (createRoundFromMemento_Inv sampleMemento sampleRound eq_refl)). Qed.

Lemma lastCardRound_Inv : Inv lastCardRound.
Proof. exact (proj1 (createRoundFromMemento_Inv lastCardMemento lastCardRound eq_refl)). Qed.

Lemma listenedRound_Inv : Inv listenedRound.
Proof. apply (onEnd_Inv 7 lastCardRound tt); [exact lastCardRound_Inv | by vm_compute]. Qed.

Lemma refillRound_Inv : Inv refillRound.
Proof. exact (proj1 (createRoundFromMemento_Inv refillMemento refillRound eq_refl)). Qed.

Lemma stockedRound_Inv : Inv stockedRound.
Proof. apply (Inv_transfer sampleRound); [exact sampleRound_Inv | by vm_compute]. Qed.

Lemma identityShuffler_perm n cards : identityShuffler n cards ≡ₚ cards.
Proof. done. Qed.

(** Witness of X6: the first player of the sample round plays the red one. *)
Lemma play_moves_one_card_witness :
  exists c hand top neighbour drawn,
    currentPlayerIndex sampleRound = Some c /\ item (hands sampleRound) c = Some hand /\
    item hand 1 = Some (NUMBERED RED 1) /\
    last (discardPileCards sampleRound) = Some top /\
    uno_canPlay (NUMBERED RED 1) top (enforcedColor sampleRound) = true /\
    (if isWild (NUMBERED RED 1) then is_Some (@None Color) else @None Color = None) /\
    enforcedColor afterRedOne = None /\
    last (discardPileCards afterRedOne) = Some (NUMBERED RED 1) /\
    (c + direction sampleRound) mod playerCount sampleRound <> c /\
    item (hands sampleRound) ((c + direction sampleRound) mod playerCount sampleRound)
      = Some neighbour /\
    length drawn = penaltyOf (NUMBERED RED 1) /\
    hands afterRedOne =
      <[Z.to_nat ((c + direction sampleRound) mod playerCount sampleRound) := neighbour ++ drawn]>
        (<[Z.to_nat c := delete (Z.to_nat 1) hand]> (hands sampleRound)) /\
    (penaltyOf (NUMBERED RED 1) = 0%nat ->
     drawPileCards afterRedOne = drawPileCards sampleRound /\
     discardPileCards afterRedOne = discardPileCards sampleRound ++ [NUMBERED RED 1]).
Proof.
  apply (play_moves_one_card uno_canPlay identityShuffler sampleRound 1 None
           (NUMBERED RED 1) afterRedOne); [exact sampleRound_Inv | by vm_compute].
Defined.

(** Witness of X7: the first player of the listened round plays the last
    card: the round ends, the listener is told, and the score is that of the
    other hand. *)
Lemma play_ends_the_round_witness :
  exists c hand,
    currentPlayerIndex listenedRound = Some c /\ item (hands listenedRound) c = Some hand /\
    ended wonRound = (len hand =? 1) /\ listeners wonRound = listeners listenedRound /\
    if ended wonRound then
      winnerIndex wonRound = Some c /\ currentPlayerIndex wonRound = None /\
      pendingUno wonRound = None /\ item (hands wonRound) c = Some [] /\
      notified wonRound =
        notified listenedRound ++ map (fun l => (l, c)) (listeners listenedRound) /\
      score wonRound = Return (Some (computeScore c wonRound)) wonRound
    else
      winnerIndex wonRound = None /\ notified wonRound = notified listenedRound /\
      score wonRound = Return None wonRound.
Proof.
  apply (play_ends_the_round uno_canPlay identityShuffler listenedRound 0 None
           (NUMBERED RED 1) wonRound); [exact listenedRound_Inv | by vm_compute].
Defined.

(** Witness of X8: after the red one was played from a hand of two without a
    declaration, the first player can be caught and the second cannot. *)
Lemma play_opens_one_window_witness :
  exists c hand,
    currentPlayerIndex sampleRound = Some c /\ item (hands sampleRound) c = Some hand /\
    catchable afterRedOne c = (len hand =? 2) && negb (declared sampleRound c) /\
    forall a b, 0 <= a < playerCount afterRedOne -> 0 <= b < playerCount afterRedOne ->
      b <> c ->
      catchUnoFailure identityShuffler (Int a) (Int b) afterRedOne = Return false afterRedOne.
Proof.
  apply (play_opens_one_window uno_canPlay identityShuffler sampleRound 1 None
           (NUMBERED RED 1) afterRedOne); [exact sampleRound_Inv | by vm_compute].
Defined.

(** Witness of X9: the first player of the stocked round draws. *)
Lemma draw_closes_the_window_witness :
  exists c,
    currentPlayerIndex stockedRound = Some c /\
    (forall a b, 0 <= a < playerCount afterDraw -> 0 <= b < playerCount afterDraw ->
       catchUnoFailure identityShuffler (Int a) (Int b) afterDraw = Return false afterDraw) /\
    declared afterDraw c = false /\
    forall b, b <> c -> declared afterDraw b = declared stockedRound b.
Proof.
  apply (draw_closes_the_window uno_canPlay identityShuffler stockedRound
           (NUMBERED GREEN 7) afterDraw); [exact stockedRound_Inv | by vm_compute].
Defined.

(** Witness of X10: the first player of the sample round, holding two cards,
    declares. *)
Lemma sayUno_declares_witness :
  exists s',
    sayUno (Int 0) sampleRound = Return tt s' /\
    declared s' 0 = true /\ catchable s' 0 = false /\
    (forall b, b <> 0 ->
       declared s' b = declared sampleRound b /\ catchable s' b = catchable sampleRound b) /\
    cards_of s' = cards_of sampleRound /\ turn_of s' = turn_of sampleRound.
Proof.
  destruct (sayUno_declares sampleRound (Int 0) (inv_shaped _ sampleRound_Inv)) as [_ H].
  apply (H 0 [WILD; NUMBERED RED 1] eq_refl); [simpl; lia | by vm_compute].
Defined.

(** Witness of X11: the first player of the sample round declares and then
    plays the red one: the accusation that follows fails. *)
Lemma sayUno_then_play_is_safe_witness :
  catchUnoFailure identityShuffler (Int 1) (Int 0) afterDeclaredRedOne =
    Return false afterDeclaredRedOne.
Proof.
  apply (sayUno_then_play_is_safe uno_canPlay identityShuffler sampleRound 0 declaredRound
           1 None (NUMBERED RED 1) afterDeclaredRedOne);
    [exact sampleRound_Inv | by vm_compute | by vm_compute | by vm_compute
    | simpl; lia | simpl; lia].
Defined.

(** Witness of X12: the round built from the memento of a finished round:
    the score is the five points the second player still holds. *)
Lemma score_counts_the_cards_held_witness :
  exists s',
    score endedRound = Return (Some 5) s' /\ score s' = Return (Some 5) s' /\
    cards_of s' = cards_of endedRound /\ observable s' = observable endedRound /\
    ended s' = ended endedRound /\ winnerIndex s' = winnerIndex endedRound.
Proof.
  apply (score_counts_the_cards_held uno_canPlay identityShuffler [] endedRound).
  by apply (reachable_memento _ _ _ endedMemento).
Defined.

(** Witness of X13. *)
Lemma canPlayAny_finds_an_index_witness :
  exists b,
    canPlayAny uno_canPlay sampleRound = Return b sampleRound /\
    (ended sampleRound = true -> b = false) /\
    (forall i, exists b', canPlayIndex uno_canPlay i sampleRound = Return b' sampleRound /\
                          (ended sampleRound = true -> b' = false)) /\
    (b = true <-> exists i, canPlayIndex uno_canPlay i sampleRound = Return true sampleRound).
Proof. apply (canPlayAny_finds_an_index uno_canPlay sampleRound), sampleRound_Inv. Defined.

(** Witness of X14: after the first player of the stocked round drew and
    passed, the second player tries the blue two on the red five. *)
Lemma play_refuses_witness :
  exists c hand top,
    currentPlayerIndex afterDraw = Some c /\ item (hands afterDraw) c = Some hand /\
    last (discardPileCards afterDraw) = Some top /\
    match item hand 0 with
    | None =>
      canPlayIndex uno_canPlay 0 afterDraw = Return false afterDraw /\
      play uno_canPlay identityShuffler 0 None afterDraw =
        Throw "Card index out of bounds" afterDraw
    | Some card =>
      canPlayIndex uno_canPlay 0 afterDraw =
        Return (uno_canPlay card top (enforcedColor afterDraw)) afterDraw /\
      (uno_canPlay card top (enforcedColor afterDraw) = false ->
       play uno_canPlay identityShuffler 0 None afterDraw =
         Throw "Card cannot be played" (marked c afterDraw) /\
       cards_of (marked c afterDraw) = cards_of afterDraw /\
       turn_of (marked c afterDraw) = turn_of afterDraw /\
       unoDeclared (marked c afterDraw) = unoDeclared afterDraw /\
       forall b, b <> c -> catchable (marked c afterDraw) b = false)
    end.
Proof.
  apply (play_refuses uno_canPlay identityShuffler afterDraw 0 None); [|by vm_compute].
  apply (draw_Inv uno_canPlay identityShuffler stockedRound (NUMBERED GREEN 7));
    [exact stockedRound_Inv | by vm_compute].
Defined.

(** Witness of X15: the sample round has no card to draw; the small round
    has one. *)
Lemma draw_returns_while_cards_last_witness :
  (exists c, currentPlayerIndex sampleRound = Some c /\
     draw uno_canPlay identityShuffler sampleRound =
       Throw "Cannot replenish draw pile" (marked c sampleRound)) /\
  (exists card s', draw uno_canPlay identityShuffler smallRound = Return card s').
Proof.
  split.
  - apply (draw_returns_while_cards_last uno_canPlay identityShuffler []
             identityShuffler_perm sampleRound);
      [by apply (reachable_memento _ _ _ sampleMemento) | by vm_compute | by vm_compute].
  - apply (draw_returns_while_cards_last uno_canPlay identityShuffler smallDeck
             identityShuffler_perm smallRound);
      [by apply (reachable_create _ _ _ 1%nat smallConfig) | by vm_compute
      | unfold available; simpl; lia].
Defined.

(** Witness of X16. *)
Lemma play_returns_when_allowed_witness :
  exists s', play uno_canPlay identityShuffler 1 None sampleRound =
               Return (NUMBERED RED 1) s'.
Proof.
  apply (play_returns_when_allowed uno_canPlay identityShuffler []
           identityShuffler_perm sampleRound 1 None 0 [WILD; NUMBERED RED 1]
           (NUMBERED RED 5) (NUMBERED RED 1));
    [by apply (reachable_memento _ _ _ sampleMemento) | by vm_compute | by vm_compute
    | by vm_compute | by vm_compute | by vm_compute | by vm_compute | by vm_compute
    | unfold available; simpl; lia].
Defined.

(** Witness of X17: the accusable round, in which the first player can be
    caught, saved and restored: the same accusation now fails. *)
Lemma restoring_forgets_uno_witness :
  catchable accusableRound 0 = true /\
  exists memento s',
    toMemento accusableRound = Return memento accusableRound /\
    createRoundFromMemento memento = ok s' /\
    hands s' = hands accusableRound /\
    catchUnoFailure identityShuffler (Int 1) (Int 0) s' = Return false s'.
Proof.
  split; [by vm_compute|].
  destruct (toMemento accusableRound) as [memento s0|] eqn:Em; [|discriminate].
  destruct (createRoundFromMemento memento) as [s'|] eqn:Ec.
  2:{ vm_compute in Em. injection Em as <- _. vm_compute in Ec. discriminate. }
  assert (s0 = accusableRound) as -> by (vm_compute in Em; by injection Em as _ <-).
  exists memento, s'. split; [done|]. split; [done|].
  destruct (restoring_forgets_uno identityShuffler accusableRound memento s' Em Ec)
    as (Hh & _ & _ & _ & _ & _ & _ & Hcatch).
  split; [done|].
  assert (playerCount s' = 2) as Hn.
  { vm_compute in Em. injection Em as <-. vm_compute in Ec. by injection Ec as <-. }
  apply Hcatch; rewrite Hn; lia.
Defined.

(** Witness of X18: the first player of the refill round draws: the draw
    pile is refilled from under the red nine. *)
Lemma views_go_stale_on_refill_witness :
  exists dv cv,
    drawPile refillRound = Return dv refillRound /\
    discardPile refillRound = Return cv refillRound /\
    DrawPileView.size dv afterRefill = Return 0 afterRefill /\
    DiscardPileView.toMemento cv afterRefill =
      Return (discardPileCards refillRound) afterRefill /\
    discardPileCards afterRefill = [NUMBERED RED 9].
Proof.
  exists {| ref_field := DrawField; ref_binding := 0 |},
         {| ref_field := DiscardField; ref_binding := 0 |}.
  split; [by vm_compute|]. split; [by vm_compute|].
  destruct (views_go_stale_on_refill uno_canPlay identityShuffler refillRound
              (NUMBERED RED 5) afterRefill
              {| ref_field := DrawField; ref_binding := 0 |}
              {| ref_field := DiscardField; ref_binding := 0 |} ltac:(by vm_compute) ltac:(by vm_compute) ltac:(by vm_compute) ltac:(by vm_compute))
    as (H1 & H2 & _).
  split; [exact H1|]. split; [exact H2 | by vm_compute].
Defined.

(** Witness of X19. *)
Lemma onEnd_tells_the_winner_witness :
  exists s1,
    onEnd 7 lastCardRound = Return tt s1 /\
    listeners s1 = [7%nat] /\
    forall i color card s2,
      play uno_canPlay identityShuffler i color s1 = Return card s2 ->
      ended s2 = true ->
      exists c, winnerIndex s2 = Some c /\ notified s2 = [(7%nat, c)].
Proof.
  destruct (onEnd_tells_the_winner uno_canPlay identityShuffler lastCardRound 7
              lastCardRound_Inv) as (s1 & H1 & _ & _ & _ & H2).
  exists s1. split; [done|]. simpl in H2. destruct H2 as (_ & H2 & H3). split; done.
Defined.

(** Witness of X20. *)
Lemma reachable_round_in_order_witness :
  (exists c, currentPlayerIndex sampleRound = Some c /\ 0 <= c < playerCount sampleRound) /\
  (forall p hand, item (hands sampleRound) p = Some hand -> hand <> []).
Proof.
  destruct (reachable_round_in_order uno_canPlay identityShuffler [] sampleRound)
    as (_ & _ & _ & _ & _ & H); [by apply (reachable_memento _ _ _ sampleMemento)|].
  simpl in H. destruct H as (H1 & H2 & _). split; done.
Defined.

(** ** Refused mementos *)

(** X21: what [createRoundFromMemento] refuses, in the order it checks: fewer
    than two players or more than ten; a dealer that is not an index of a
    player; a number of hands other than the number of players; then, the
    cards being well formed, an empty discard pile; more than one empty
    hand; for a round nobody has won, a missing [playerInTurn] or one that
    is not an index of a player; and a top card that is not wild and whose
    colour is not the memento's [currentColor]. *)
Theorem createRoundFromMemento_refusals memento :
  let players := m_players memento in
  let hands := m_hands memento in
  (len players < 2 ->
   createRoundFromMemento memento = raise "A round requires at least two players") /\
  (10 < len players ->
   createRoundFromMemento memento = raise "A round supports at most ten players") /\
  (2 <= len players <= 10 ->
   (forall msg, ensureIndex (m_dealer memento) (len players) "dealer" = raise msg ->
      createRoundFromMemento memento = raise msg) /\
   (forall d, ensureIndex (m_dealer memento) (len players) "dealer" = ok d ->
      (len hands <> len players ->
       createRoundFromMemento memento = raise "Hands count must equal players count") /\
      (len hands = len players ->
       Forall (Forall (fun c => validCard c = true)) hands ->
       Forall (fun c => validCard c = true) (m_drawPile memento) ->
       Forall (fun c => validCard c = true) (m_discardPile memento) ->
       (m_discardPile memento = [] ->
        createRoundFromMemento memento = raise "Discard pile cannot be empty") /\
       (forall top, last (m_discardPile memento) = Some top ->
          (1 < len (winnersFrom 0 hands) ->
           createRoundFromMemento memento =
             raise "Round memento cannot contain multiple winners") /\
          (winnersFrom 0 hands = [] -> m_playerInTurn memento = None ->
           createRoundFromMemento memento =
             raise "playerInTurn is required for unfinished rounds") /\
          (winnersFrom 0 hands = [] ->
           forall p msg, m_playerInTurn memento = Some p ->
             ensureIndex p (len players) "playerInTurn" = raise msg ->
             createRoundFromMemento memento = raise msg) /\
          ((exists w, winnersFrom 0 hands = [w]) \/
           (winnersFrom 0 hands = [] /\
            exists p i, m_playerInTurn memento = Some p /\
              ensureIndex p (len players) "playerInTurn" = ok i) ->
           isWild top = false -> colorOf top <> Some (m_currentColor memento) ->
           createRoundFromMemento memento =
             raise "currentColor must match the color of the top discard"))))).
Proof.
  intros players hands. unfold createRoundFromMemento, validatePlayers.
  fold players. fold hands.
  split; [|split].
  - intros H. destruct (Z.ltb_spec (len players) 2); [done | lia].
  - intros H. destruct (Z.ltb_spec (len players) 2); [lia|].
    destruct (Z.ltb_spec 10 (len players)); [done | lia].
  - intros H. destruct (Z.ltb_spec (len players) 2); [lia|].
    destruct (Z.ltb_spec 10 (len players)); [lia|]. simpl.
    split; [by intros msg ->|]. intros d ->. simpl.
    assert (toDirection (m_currentDirection memento) =
              ok (match m_currentDirection memento with
                  | clockwise => 1 | counterclockwise => -1 end)) as ->
      by (by destruct (m_currentDirection memento)).
    simpl. rewrite ensureColorValue_ok. simpl.
    split.
    { intros Hne. destruct (Z.eqb_spec (len hands) (len players)); [done | done]. }
    intros Heq Vh Vd Vc. rewrite Heq, Z.eqb_refl. simpl.
    rewrite (res_map_clone_valid hands Vh). simpl.
    rewrite (cloneCardsWithValidation_valid _ Vd). simpl.
    rewrite (cloneCardsWithValidation_valid _ Vc). simpl.
    split; [by intros ->|].
    intros top Htop.
    assert ((len (m_discardPile memento) =? 0) = false) as ->.
    { apply Z.eqb_neq. intros E. apply Z.eqb_eq, len_nil_iff in E. by rewrite E in Htop. }
    split; [|split; [|split]].
    + intros Hw. by destruct (Z.ltb_spec 1 (len (winnersFrom 0 hands))); [|lia].
    + intros -> ->. done.
    + intros -> p msg -> ->. done.
    + intros Hturn Hwild Hcol. rewrite Htop, Hwild.
      rewrite bool_decide_eq_false_2 by done.
      destruct Hturn as [[w ->] | (-> & p & i & -> & ->)]; done.
Qed.

(** Witness of X21: a memento with two empty hands. *)
Lemma createRoundFromMemento_refusals_witness :
  createRoundFromMemento
    {| m_players := ["ann"; "bob"];
       m_hands := [[]; []];
       m_drawPile := [];
       m_discardPile := [NUMBERED RED 5];
       m_currentColor := RED;
       m_currentDirection := clockwise;
       m_dealer := Int 0;
       m_playerInTurn := None |}
  = raise "Round memento cannot contain multiple winners".
Proof.
  destruct (createRoundFromMemento_refusals
              {| m_players := ["ann"; "bob"];
                 m_hands := [[]; []];
                 m_drawPile := [];
                 m_discardPile := [NUMBERED RED 5];
                 m_currentColor := RED;
                 m_currentDirection := clockwise;
                 m_dealer := Int 0;
                 m_playerInTurn := None |}) as (_ & _ & H).
  destruct (H ltac:(by vm_compute)) as [_ H1].
  destruct (H1 0 eq_refl) as [_ H2].
  destruct (H2 eq_refl ltac:(by repeat constructor) ltac:(by constructor)
              ltac:(by repeat constructor)) as [_ H3].
  destruct (H3 (NUMBERED RED 5) eq_refl) as [H4 _].
  apply H4. by vm_compute.
Defined.
